(** * Poker bot decision engine (bot.js): shallow embedding and properties

    The development follows bot.js block by block: the action queue, the
    numeric utilities, the post-flop board analysis, the preflop hand score
    and the decision engine [chooseBotAction].  It then covers the state
    server (api/main) and the polling loop of the single-seat view
    (js/singleView.js).

    Numbers.  JavaScript numbers are modelled by exact rationals ([Q]); the
    rounding of binary64 arithmetic is not modelled.  Every division of the
    source whose divisor is guarded against zero (or is a positive constant)
    is a division in [Q]; the two unguarded divisions of [chooseBotAction]
    ([potOdds] and [stackRatio]) produce a value of type [ratio], which adds
    the IEEE results [Infinity], [-Infinity] and [NaN].

    Outside world.  The pokersolver module ([Card], [Hand.solve]), [Math.exp],
    [Math.random] and the community cards read from the page are inputs of
    the model: Section variables and function arguments. *)

From Stdlib Require Import QArith Qround ZArith List Bool Lia Lqa Ascii String Sorted.
From Stdlib Require Import DecimalString.
Import ListNotations.
Open Scope Q_scope.

(* ================================================================== *)
(** ** Numeric utilities *)

Definition Qleb (x y : Q) : bool := Qle_bool x y.
Definition Qltb (x y : Q) : bool := negb (Qle_bool y x).
Definition Qgeb (x y : Q) : bool := Qle_bool y x.
Definition Qgtb (x y : Q) : bool := negb (Qle_bool x y).
Definition Qeqb (x y : Q) : bool := Qeq_bool x y.

Infix "<=?" := Qleb (at level 70, no associativity) : Q_scope.
Infix "<?" := Qltb (at level 70, no associativity) : Q_scope.
Infix ">=?" := Qgeb (at level 70, no associativity) : Q_scope.
Infix ">?" := Qgtb (at level 70, no associativity) : Q_scope.
Infix "=?" := Qeqb (at level 70, no associativity) : Q_scope.

(** [Math.max] / [Math.min] on finite numbers. *)
Definition Math_max (x y : Q) : Q := if x <? y then y else x.
Definition Math_min (x y : Q) : Q := if y <? x then y else x.
(** [Math.abs] *)
Definition Math_abs (x : Q) : Q := if x <? 0 then - x else x.
(** [Math.round]: nearest integer, halves towards +Infinity. *)
Definition Math_round (x : Q) : Q := inject_Z (Qfloor (x + (1 # 2))).

(** Numeric utility: round to nearest multiple of 10 *)
Definition roundTo10 (x : Q) : Q := Math_round (x / 10) * 10.

Definition ZQ (z : Z) : Q := inject_Z z.
Definition NQ (n : N) : Q := inject_Z (Z.of_N n).
Definition lengthZ {A} (l : list A) : Z := Z.of_nat (List.length l).

(** Result of an unguarded division [a / b] of two finite numbers. *)
Inductive ratio : Type :=
| Fin (q : Q)
| PInf
| NInf
| NaN.

Definition jsdiv (a b : Q) : ratio :=
  if b =? 0 then
    if a =? 0 then NaN else if 0 <? a then PInf else NInf
  else Fin (a / b).

(** [r <= q] for a finite [q]. *)
Definition ratio_leb (r : ratio) (q : Q) : bool :=
  match r with
  | Fin x => x <=? q
  | NInf => true
  | PInf | NaN => false
  end.

(** [q >= r] for a finite [q]. *)
Definition geb_ratio (q : Q) (r : ratio) : bool :=
  match r with
  | Fin x => q >=? x
  | NInf => true
  | PInf | NaN => false
  end.

(** [Math.abs(q - r) <= d] for finite [q] and [d]. *)
Definition abs_diff_leb (q : Q) (r : ratio) (d : Q) : bool :=
  match r with
  | Fin x => Math_abs (q - x) <=? d
  | PInf | NInf | NaN => false
  end.

(* ================================================================== *)
(** ** Cards

    A card code is two characters, a rank from [23456789TJQKA] and a suit
    from [CDHS] (the pattern the engine extracts codes with). *)

Inductive Rank : Type :=
| R2 | R3 | R4 | R5 | R6 | R7 | R8 | R9 | RT | RJ | RQ | RK | RA.

(** Suits [C], [D], [H], [S]. *)
Inductive Suit : Type := Club | Diamond | Heart | Spade.

Record card : Type := mkCard { rankOf : Rank; suitOf : Suit }.

Definition Rank_eqb (a b : Rank) : bool :=
  match a, b with
  | R2, R2 | R3, R3 | R4, R4 | R5, R5 | R6, R6 | R7, R7 | R8, R8
  | R9, R9 | RT, RT | RJ, RJ | RQ, RQ | RK, RK | RA, RA => true
  | _, _ => false
  end.

Definition Suit_eqb (a b : Suit) : bool :=
  match a, b with
  | Club, Club | Diamond, Diamond | Heart, Heart | Spade, Spade => true
  | _, _ => false
  end.

(* ================================================================== *)
(** ** Preflop hand evaluation *)

(** [order.indexOf(r)] for [order = "23456789TJQKA"]. *)
Definition orderIndex (r : Rank) : Z :=
  match r with
  | R2 => 0 | R3 => 1 | R4 => 2 | R5 => 3 | R6 => 4 | R7 => 5 | R8 => 6
  | R9 => 7 | RT => 8 | RJ => 9 | RQ => 10 | RK => 11 | RA => 12
  end%Z.

(** The [base] table of [preflopHandScore]. *)
Definition base (r : Rank) : Q :=
  match r with
  | RA => 10 | RK => 8 | RQ => 7 | RJ => 6 | RT => 5
  | R9 => 4.5 | R8 => 4 | R7 => 3.5 | R6 => 3 | R5 => 2.5
  | R4 => 2 | R3 => 1.5 | R2 => 1
  end.

(** Preflop hand evaluation using simplified Chen formula *)
Definition preflopHandScore (cardA cardB : card) : Q :=
  let r1 := rankOf cardA in
  let r2 := rankOf cardB in
  let s1 := suitOf cardA in
  let s2 := suitOf cardB in
  let i1 := orderIndex r1 in
  let i2 := orderIndex r2 in
  let '(r1, r2, s1, s2, i1, i2) :=
    if (i1 <? i2)%Z then (r2, r1, s2, s1, i2, i1) else (r1, r2, s1, s2, i1, i2) in
  let score := base r1 in
  let score :=
    if Rank_eqb r1 r2
    then (let score := score * 2 in if score <? 5 then 5 else score)
    else score in
  let score := if Suit_eqb s1 s2 then score + 2 else score in
  let gap := (i1 - i2 - 1)%Z in
  let score :=
    if (gap =? 1)%Z then score - 1
    else if (gap =? 2)%Z then score - 2
    else if (gap =? 3)%Z then score - 4
    else if (gap >=? 4)%Z then score - 5
    else score in
  let score :=
    if (gap <=? 1)%Z && (i1 <? orderIndex RQ)%Z then score + 1 else score in
  let score := if score <? 0 then 0 else score in
  Math_min 10 score.

(* ================================================================== *)
(** ** Arrays and objects used as maps *)

(** [l.includes(x)] on an array of numbers. *)
Definition includes (x : Z) (l : list Z) : bool :=
  existsb (fun y => (y =? x)%Z) l.

(** [[...new Set(l)]]: the distinct elements, in order of first occurrence. *)
Fixpoint setOf (l : list Z) : list Z :=
  match l with
  | [] => []
  | x :: t => x :: filter (fun y => negb (y =? x)%Z) (setOf t)
  end.

Fixpoint insertSorted (x : Z) (l : list Z) : list Z :=
  match l with
  | [] => [x]
  | y :: t => if (x <=? y)%Z then x :: y :: t else y :: insertSorted x t
  end.

(** [l.sort((a, b) => a - b)] *)
Definition sortNum (l : list Z) : list Z := fold_right insertSorted [] l.

(** [Math.max(...l)]; [None] stands for the [-Infinity] of an empty array. *)
Definition maxOf (l : list Z) : option Z :=
  match l with
  | [] => None
  | x :: t => Some (fold_left Z.max t x)
  end.

(** A counter object: [m[k] = (m[k] || 0) + 1], keys in insertion order. *)
Fixpoint bump {K : Type} (eqb : K -> K -> bool) (k : K) (m : list (K * Z))
  : list (K * Z) :=
  match m with
  | [] => [(k, 1%Z)]
  | (k', v) :: t =>
      if eqb k' k then (k', (v + 1)%Z) :: t else (k', v) :: bump eqb k t
  end.

(** Counting the keys of an array into a fresh object ([forEach]). *)
Definition countBy {A K : Type} (eqb : K -> K -> bool) (key : A -> K)
  (l : list A) : list (K * Z) :=
  fold_left (fun m a => bump eqb (key a) m) l [].

(** [Object.values(m)] *)
Definition values {K : Type} (m : list (K * Z)) : list Z := map snd m.

(** The sum of the counts of a counter object. *)
Definition total {K : Type} (m : list (K * Z)) : Z :=
  fold_right Z.add 0%Z (values m).

(* ================================================================== *)
(** ** Interface of the hand evaluator (pokersolver) *)

Module Hand.
(** What the engine reads of a solved hand: [name], [rank] and [cards[0]]
    (the solver returns the cards that make the hand, best first). *)
Record t : Type := mk { name : string; rank : Q; cards0 : card }.
End Hand.

(** The [rankMap] table of [evaluateBoardTexture]. *)
Definition rankMap (r : Rank) : Z :=
  match r with
  | R2 => 2 | R3 => 3 | R4 => 4 | R5 => 5 | R6 => 6 | R7 => 7 | R8 => 8
  | R9 => 9 | RT => 10 | RJ => 11 | RQ => 12 | RK => 13 | RA => 14
  end%Z.

(** Modelled from the spec: the [rank] of pokersolver's [Card], which is not
    part of the sources at hand.  The spec counts the ace high as 14 (and low
    as 1), in agreement with the test [ranks.includes(14)] of the engine. *)
Definition cardRank (c : card) : Z := rankMap (rankOf c).

(* ================================================================== *)
(** ** Post-flop board evaluation *)

Module Draws.
Record t : Type := mk { flushDraw : bool; straightDraw : bool; outs : Z }.
End Draws.

(** The ten windows [[start, start+1, start+2, start+3, start+4]],
    [start = 1 .. 10]. *)
Definition straights : list (list Z) :=
  map (fun start => [start; start + 1; start + 2; start + 3; start + 4]%Z)
      [1; 2; 3; 4; 5; 6; 7; 8; 9; 10]%Z.

(** The loop over [straights]: the first window holding five or four of the
    ranks decides, and ends the loop. *)
Definition windowCount (unique : list Z) (seq : list Z) : Z :=
  lengthZ (filter (fun r => includes r unique) seq).

Fixpoint scanStraights (unique : list Z) (seqs : list (list Z)) (draw : bool)
  : bool :=
  match seqs with
  | [] => draw
  | seq :: rest =>
      let count := windowCount unique seq in
      if (count =? 5)%Z then false
      else if (count =? 4)%Z then true
      else scanStraights unique rest draw
  end.

(** The straight draw in the words of the specification: some window holds
    exactly four of the ranks present, and no window holds all five. *)
Definition straightDrawSpec (unique : list Z) : bool :=
  existsb (fun seq => (windowCount unique seq =? 4)%Z) straights
  && negb (existsb (fun seq => (windowCount unique seq =? 5)%Z) straights).

(** The loop measuring the longest run of consecutive ranks. *)
Fixpoint longestRun (prev : Z) (l : list Z) (currentRun maxConsecutive : Z) : Z :=
  match l with
  | [] => maxConsecutive
  | x :: t =>
      let currentRun := if (x =? prev + 1)%Z then (currentRun + 1)%Z else 1%Z in
      let maxConsecutive :=
        if (currentRun >? maxConsecutive)%Z then currentRun else maxConsecutive in
      longestRun x t currentRun maxConsecutive
  end.

Definition maxConsecutiveOf (unique : list Z) : Z :=
  match unique with
  | [] => 1%Z
  | x :: t => longestRun x t 1 1
  end.

(** The ranks of the board with the wheel ace, deduplicated and sorted. *)
Definition boardUnique (board : list card) : list Z :=
  let ranks := map (fun c => rankMap (rankOf c)) board in
  let ranksForStraight := if includes 14 ranks then ranks ++ [1%Z] else ranks in
  sortNum (setOf ranksForStraight).

Definition maxCount (counts : list Z) : Z :=
  match maxOf counts with Some m => m | None => 0%Z end.

(** Pairing sub-score of [evaluateBoardTexture]. *)
Definition pairRisk (board : list card) : Q :=
  let rankCounts := countBy Rank_eqb rankOf board in
  let maxRankCount := maxCount (values rankCounts) in
  if (maxRankCount >? 1)%Z
  then ZQ (maxRankCount - 1) / ZQ (lengthZ board - 1)
  else 0.

(** Suitedness sub-score. *)
Definition suitRisk (board : list card) : Q :=
  let suitCounts := countBy Suit_eqb suitOf board in
  let maxSuitCount := maxCount (values suitCounts) in
  ZQ (maxSuitCount - 1) / ZQ (lengthZ board - 1).

(** Connectedness sub-score. *)
Definition connectedness (board : list card) : Q :=
  let maxConsecutive := maxConsecutiveOf (boardUnique board) in
  if (maxConsecutive >=? 3)%Z
  then Math_max 0 (ZQ (maxConsecutive - 2) / ZQ (lengthZ board - 2))
  else 0.

(** Evaluate board "texture" based on connectedness, suitedness and pairing.
    The suit symbols that [suitMap] translates do not occur in card codes. *)
Definition evaluateBoardTexture (board : list card) : Q :=
  if (lengthZ board <? 3)%Z then 0
  else
    let textureRisk := (connectedness board + suitRisk board + pairRisk board) / 3 in
    Math_max 0 (Math_min 1 textureRisk).

Section BoardAnalysis.

(** [new Card(c).rank] and [Hand.solve] of pokersolver. *)
Variable Card_rank : card -> Z.
Variable Hand_solve : list card -> Hand.t.

(** Determine if the two hole cards form a pocket pair *)
Definition isPocketPair (hole : card * card) : bool :=
  (Card_rank (fst hole) =? Card_rank (snd hole))%Z.

(** Top pair / over pair, from the solved hand. *)
Definition analyzeHandContext (hole : card * card) (board : list card)
  : bool * bool :=
  let hand := Hand_solve (fst hole :: snd hole :: board) in
  let boardRanks := map Card_rank board in
  let highestBoard := maxOf boardRanks in
  let pocketPair := isPocketPair hole in
  if String.eqb (Hand.name hand) "Pair" then
    let pairRank := Card_rank (Hand.cards0 hand) in
    let isTopPair :=
      match highestBoard with Some h => (pairRank =? h)%Z | None => false end in
    let isOverPair :=
      pocketPair &&
      match highestBoard with Some h => (pairRank >? h)%Z | None => true end in
    (isTopPair, isOverPair)
  else (false, false).

(** The ranks held, the ace also counted as 1, deduplicated and sorted:
    the array [unique] of [analyzeDrawPotential]. *)
Definition uniqueRanks (allCards : list card) : list Z :=
  let ranks := map Card_rank allCards in
  let ranks := if includes 14 ranks then ranks ++ [1%Z] else ranks in
  sortNum (setOf ranks).

(** Detect draw potential after the flop. *)
Definition analyzeDrawPotential (hole : card * card) (board : list card)
  : Draws.t :=
  let allCards := fst hole :: snd hole :: board in
  let suits := countBy Suit_eqb suitOf allCards in
  let suitCounts := values suits in
  let hasFlush := existsb (fun c => (c >=? 5)%Z) suitCounts in
  let flushDraw :=
    if negb hasFlush then existsb (fun c => (c =? 4)%Z) suitCounts else false in
  let unique := uniqueRanks allCards in
  Draws.mk flushDraw (scanStraights unique straights false) 0.

End BoardAnalysis.

(* ================================================================== *)
(** ** Configuration *)

(** Maximum number of raises allowed per betting round *)
Definition MAX_RAISES_PER_ROUND : Z := 3.
(** Tie-breaker thresholds for close decisions *)
Definition STRENGTH_TIE_DELTA : Q := 0.25.
Definition ODDS_TIE_DELTA : Q := 0.02.
(** Opponent-aware aggression tuning *)
Definition OPPONENT_THRESHOLD : Z := 3.
Definition AGG_FACTOR : Q := 0.1.
Definition THRESHOLD_FACTOR : Q := 0.3.
(** Minimum average hands before opponent stats influence the bot *)
Definition MIN_HANDS_FOR_WEIGHT : Q := 10.
Definition WEIGHT_GROWTH : Q := 10.
(** Detect opponents that shove frequently *)
Definition ALLIN_HAND_PREFLOP : Q := 0.85.
Definition ALLIN_HAND_POSTFLOP : Q := 0.5.

(* ================================================================== *)
(** ** Players, decision context, decisions *)

Module Stats.
Record t : Type := mk {
  hands : N; folds : N; vpip : N; calls : N; aggressiveActs : N }.
End Stats.

Module Player.
(** [ref] is the identity of the player object: the engine compares
    players with [!==] and [indexOf]. *)
Record t : Type := mk {
  ref : nat;
  chips : Q;
  roundBet : Q;
  folded : bool;
  allIn : bool;
  cards : card * card;
  dealer : bool;
  bigBlind : bool;
  stats : Stats.t }.

Definition same (p q : t) : bool := Nat.eqb (ref p) (ref q).
End Player.

Module Ctx.
Record t : Type := mk {
  currentBet : Q;
  pot : Q;
  smallBlind : Q;
  bigBlind : Q;
  raisesThisRound : Z;
  currentPhaseIndex : Z;
  players : list Player.t;
  lastRaise : Q }.
End Ctx.

(** [{ action: "fold" }], [{ action: "check" }], [{ action: "call", amount }],
    [{ action: "raise", amount }]. *)
Inductive Decision : Type :=
| Fold
| Check
| Call (amount : Q)
| Raise (amount : Q).

Definition isRaise (d : Decision) : bool :=
  match d with Raise _ => true | _ => false end.
Definition isCheck (d : Decision) : bool :=
  match d with Check => true | _ => false end.
Definition isFold (d : Decision) : bool :=
  match d with Fold => true | _ => false end.

(** Calculate how often a player folds *)
Definition calcFoldRate (p : Player.t) : Q :=
  let st := Player.stats p in
  if (0 <? Stats.hands st)%N then NQ (Stats.folds st) / NQ (Stats.hands st) else 0.

(** [l.reduce((s, p) => s + f(p), 0)] *)
Definition sumOver {A : Type} (f : A -> Q) (l : list A) : Q :=
  fold_left (fun s p => s + f p) l 0.

(** Average fold rate across a set of opponents *)
Definition avgFoldRate (opponents : list Player.t) : Q :=
  if (lengthZ opponents =? 0)%Z then 0
  else sumOver calcFoldRate opponents / ZQ (lengthZ opponents).

(** [l[i]]; [None] is [undefined]. *)
Definition at_ {A : Type} (l : list A) (i : Z) : option A :=
  if (i <? 0)%Z then None else nth_error l (Z.to_nat i).

(** [l.findIndex(pred)] *)
Fixpoint findIndexFrom {A : Type} (pred : A -> bool) (l : list A) (i : Z) : Z :=
  match l with
  | [] => (-1)%Z
  | x :: t => if pred x then i else findIndexFrom pred t (i + 1)%Z
  end.
Definition findIndex {A : Type} (pred : A -> bool) (l : list A) : Z :=
  findIndexFrom pred l 0.

(** [l.indexOf(x)] on player objects; [undefined] is in no array. *)
Definition indexOf (l : list Player.t) (x : option Player.t) : Z :=
  match x with
  | Some p => findIndex (Player.same p) l
  | None => (-1)%Z
  end.

(* ================================================================== *)
(** ** Randomness

    [random n] is the result of the [n]-th call of [Math.random]; a
    computation that draws threads the number of calls made so far. *)

Definition Rand (A : Type) : Type := nat -> A * nat.
Definition ret {A : Type} (a : A) : Rand A := fun n => (a, n).
Definition bind {A B : Type} (m : Rand A) (f : A -> Rand B) : Rand B :=
  fun n => let (a, n') := m n in f a n'.

Notation "x <- m ;; k" := (bind m (fun x => k))
  (at level 61, m at next level, right associativity).

(* ================================================================== *)
(** ** Decision engine: bot action selection *)

Section ChooseBotAction.

(** pokersolver, [Math.exp] and the stream of [Math.random] results. *)
Variable Card_rank : card -> Z.
Variable Hand_solve : list card -> Hand.t.
Variable Math_exp : Q -> Q.
Variable random : nat -> Q.

(** The arguments of [chooseBotAction], and the community cards it reads
    from the page. *)
Variable player : Player.t.
Variable ctx : Ctx.t.
Variable communityCards : list card.

Definition Math_random : Rand Q := fun n => (random n, S n).

Let currentBet := Ctx.currentBet ctx.
Let pot := Ctx.pot ctx.
Let raisesThisRound := Ctx.raisesThisRound ctx.
Let currentPhaseIndex := Ctx.currentPhaseIndex ctx.
Let players := Ctx.players ctx.
Let lastRaise := Ctx.lastRaise ctx.
Let chips := Player.chips player.

(** Determine amount needed to call the current bet *)
Definition needToCall : Q := currentBet - Player.roundBet player.

(** Calculate pot odds to assess call viability *)
Definition potOdds : ratio := jsdiv needToCall (pot + needToCall).
(** Compute risk as fraction of stack required *)
Definition stackRatio : ratio := jsdiv needToCall chips.
(** Stack-to-pot ratio used for shove decisions *)
Definition spr : Q := chips / Math_max 1 (pot + needToCall).
Definition blindLevel_big : Q := Ctx.bigBlind ctx.
(** Check if bot is allowed to raise this round *)
Definition canRaise : bool :=
  (raisesThisRound <? MAX_RAISES_PER_ROUND)%Z && (chips >? blindLevel_big).

Definition active : list Player.t :=
  filter (fun p => negb (Player.folded p)) players.
(** Number of opponents still in the hand *)
Definition activeOpponents : Z := (lengthZ active - 1)%Z.

(** Helper: find the next active player after the given index.  The index
    [(startIdx + i) % players.length] always lies inside the array. *)
Fixpoint nextActiveLoop (startIdx : Z) (steps : list nat) : option Player.t :=
  match steps with
  | [] => at_ players startIdx
  | i :: rest =>
      let idx := Z.rem (startIdx + Z.of_nat i) (lengthZ players) in
      match at_ players idx with
      | Some p => if negb (Player.folded p) then Some p
                  else nextActiveLoop startIdx rest
      | None => nextActiveLoop startIdx rest
      end
  end.
Definition nextActive (startIdx : Z) : option Player.t :=
  nextActiveLoop startIdx (seq 1 (List.length players)).

Definition seatIdx : Z := indexOf active (Some player).
Definition firstToAct : option Player.t :=
  if (currentPhaseIndex =? 0)%Z
  then nextActive (findIndex Player.bigBlind players)
  else nextActive (findIndex Player.dealer players).
Definition refIdx : Z := indexOf active firstToAct.

Definition pos : Z :=
  Z.rem (seatIdx - refIdx + lengthZ active) (lengthZ active).
Definition positionFactor : Q :=
  if (lengthZ active >? 1)%Z then ZQ pos / ZQ (lengthZ active - 1) else 0.

(** Determine if we are in pre-flop stage *)
Definition preflop : bool := (lengthZ communityCards =? 0)%Z.

Definition hole : card * card := Player.cards player.

(** Evaluate hand strength *)
Definition strength : Q :=
  if preflop then preflopHandScore (fst hole) (snd hole)
  else Hand.rank (Hand_solve (fst hole :: snd hole :: communityCards)).

(** Post-flop board context: [(topPair, overPair, drawChance, textureRisk)]. *)
Definition boardContext : bool * bool * bool * Q :=
  if negb preflop && (lengthZ communityCards >=? 3)%Z then
    let ctxInfo := analyzeHandContext Card_rank Hand_solve hole communityCards in
    let draws := analyzeDrawPotential Card_rank hole communityCards in
    (fst ctxInfo, snd ctxInfo,
     Draws.flushDraw draws || Draws.straightDraw draws,
     evaluateBoardTexture communityCards)
  else (false, false, false, 0).

Definition topPair : bool := fst (fst (fst boardContext)).
Definition overPair : bool := snd (fst (fst boardContext)).
Definition drawChance : bool := snd (fst boardContext).
Definition textureRisk : Q := snd boardContext.

(** Normalize strength to [0,1] *)
Definition strengthRatio : Q := strength / 10.

(** When only a few opponents remain, play slightly more aggressively *)
Definition oppAggAdj : Q :=
  if (activeOpponents <? OPPONENT_THRESHOLD)%Z
  then ZQ (OPPONENT_THRESHOLD - activeOpponents) * AGG_FACTOR else 0.
Definition thresholdAdj : Q :=
  if (activeOpponents <? OPPONENT_THRESHOLD)%Z
  then ZQ (OPPONENT_THRESHOLD - activeOpponents) * THRESHOLD_FACTOR else 0.

Definition opponents : list Player.t :=
  filter (fun p => negb (Player.same p player)) players.

(** The running values of [aggressiveness], [raiseThreshold] and
    [bluffChance], after the board and the opponent adjustments. *)
Definition tuning : Q * Q * Q :=
  let aggressiveness :=
    (if preflop then 0.8 + 0.4 * positionFactor else 1 + 0.6 * positionFactor)
    + oppAggAdj in
  let raiseThreshold :=
    if preflop then 8 - 2 * positionFactor
    else Math_max 2 (4 - 2 * positionFactor) in
  let raiseThreshold := Math_max 1 (raiseThreshold - thresholdAdj) in
  let '(aggressiveness, raiseThreshold) :=
    if negb preflop then
      let '(aggressiveness, raiseThreshold) :=
        if overPair then (aggressiveness + 0.2, raiseThreshold - 0.5)
        else if topPair then (aggressiveness + 0.1, raiseThreshold - 0.3)
        else (aggressiveness, raiseThreshold) in
      let '(aggressiveness, raiseThreshold) :=
        if drawChance then (aggressiveness + 0.05, raiseThreshold - 0.25)
        else (aggressiveness, raiseThreshold) in
      (* Reduce aggression on wet boards *)
      (aggressiveness * (1 - textureRisk * 0.5),
       Math_min 10 (raiseThreshold + textureRisk))
    else (aggressiveness, raiseThreshold) in
  let bluffChance := 0 in
  (* Adjust based on observed opponent tendencies *)
  if (lengthZ opponents >? 0)%Z then
    let n := ZQ (lengthZ opponents) in
    let avgVPIP :=
      sumOver (fun p => (NQ (Stats.vpip (Player.stats p)) + 1)
                        / (NQ (Stats.hands (Player.stats p)) + 2)) opponents / n in
    let avgAgg :=
      sumOver (fun p => (NQ (Stats.aggressiveActs (Player.stats p)) + 1)
                        / (NQ (Stats.calls (Player.stats p)) + 1)) opponents / n in
    let foldRate := avgFoldRate opponents in
    let avgHands := sumOver (fun p => NQ (Stats.hands (Player.stats p))) opponents / n in
    let weight :=
      if avgHands <? MIN_HANDS_FOR_WEIGHT then 0
      else 1 - Math_exp (- (avgHands - MIN_HANDS_FOR_WEIGHT) / WEIGHT_GROWTH) in
    let bluffChance := Math_min 0.3 foldRate * weight in
    let bluffChance := bluffChance * (1 - textureRisk * 0.5) in
    let '(raiseThreshold, aggressiveness) :=
      if avgVPIP <? 0.25
      then (raiseThreshold - 0.5 * weight, aggressiveness + 0.1 * weight)
      else if avgVPIP >? 0.5
      then (raiseThreshold + 0.5 * weight, aggressiveness - 0.1 * weight)
      else (raiseThreshold, aggressiveness) in
    let aggressiveness :=
      if avgAgg >? 1.5 then aggressiveness - 0.1 * weight
      else if avgAgg <? 0.7 then aggressiveness + 0.1 * weight
      else aggressiveness in
    (aggressiveness, raiseThreshold, bluffChance)
  else (aggressiveness, raiseThreshold, bluffChance).

Definition aggressiveness : Q := fst (fst tuning).
Definition raiseThreshold : Q := snd (fst tuning).
Definition bluffChance : Q := snd tuning.

(** *** Bet sizing *)

Definition valueBetSize : Rand Q :=
  let base :=
    if preflop then
      let base := 0.55 in
      let base := if strengthRatio >=? 0.9 then base + 0.15 else base in
      let base := base + ZQ activeOpponents * 0.04 in
      let base := base + (1 - positionFactor) * 0.05 in
      if (positionFactor <? 0.3) && (strengthRatio >=? 0.8)
      then base + 0.1 (* bigger open from early position *)
      else base
    else
      let base :=
        if textureRisk >? 0.6 then 0.7 else if textureRisk >? 0.3 then 0.6 else 0.45 in
      let base := if strengthRatio >? 0.95 then base + 0.1 else base in
      let base := base + ZQ activeOpponents * 0.03 in
      base + (1 - positionFactor) * 0.05 in
  let base :=
    if spr <? 2 then base + 0.1
    else if spr <? 4 then base + 0.05
    else if spr >? 6 then base - 0.05
    else base in
  r <- Math_random ;;
  let rand := r * 0.2 - 0.1 in
  let factor := Math_min 1 (Math_max 0.35 (base + rand)) in
  ret (roundTo10 (Math_min chips ((pot + needToCall) * factor))).

Definition bluffBetSize : Rand Q :=
  let base := 0.25 + textureRisk * 0.05 in
  let base := base + ZQ activeOpponents * 0.02 in
  let base := base + (1 - positionFactor) * 0.03 in
  let base :=
    if spr <? 3 then base + 0.05
    else if spr >? 5 then base - 0.05
    else base in
  r <- Math_random ;;
  let rand := r * 0.08 - 0.04 in
  let factor := Math_min 0.45 (Math_max 0.2 (base + rand)) in
  ret (roundTo10 (Math_min chips ((pot + needToCall) * factor))).

Definition protectionBetSize : Rand Q :=
  let base := 0.45 + textureRisk * 0.25 in
  let base := base + ZQ activeOpponents * 0.03 in
  let base := base + (1 - positionFactor) * 0.04 in
  let base :=
    if spr <? 3 then base + 0.1
    else if spr >? 5 then base - 0.05
    else base in
  r <- Math_random ;;
  let rand := r * 0.1 - 0.05 in
  let factor := Math_min 0.8 (Math_max 0.35 (base + rand)) in
  ret (roundTo10 (Math_min chips ((pot + needToCall) * factor))).

Definition overBetSize : Rand Q :=
  let base := 1.2 - textureRisk * 0.1 in
  let base := base + ZQ activeOpponents * 0.05 in
  let base := if spr <? 2 then base + 0.3 else base in
  r <- Math_random ;;
  let rand := r * 0.15 - 0.05 in
  let factor := Math_max 1.1 (Math_min 1.5 (base + rand)) in
  ret (roundTo10 (Math_min chips ((pot + needToCall) * factor))).

(** *** Decision logic with tie-breakers *)

Definition callAmt : Q := Math_min chips needToCall.

(** The odds test shared by the call branches. *)
Definition oddsJustified : bool :=
  geb_ratio (strengthRatio * aggressiveness) potOdds
  && ratio_leb stackRatio (if preflop then 0.5 else 0.7).

(** Automatic shove logic when stacks are shallow; [None] when no shove
    is decided. *)
Definition shove : option Decision :=
  if (spr <=? 1.2) && (strengthRatio >=? 0.65) then Some (Raise chips)
  else if preflop && (chips <=? blindLevel_big * 10) && (strengthRatio >=? 0.75)
  then Some (Raise chips)
  else None.

(** The branches taken when no shove was decided. *)
Definition branchDecision : Rand Decision :=
  if needToCall <=? 0 then
    if canRaise && (strength >=? raiseThreshold) then
      raiseAmt <- valueBetSize ;;
      let raiseAmt := Math_max (currentBet + lastRaise) raiseAmt in
      if Math_abs (strength - raiseThreshold) <=? STRENGTH_TIE_DELTA then
        r <- Math_random ;;
        ret (if r <? 0.5 then Check else Raise raiseAmt)
      else ret (Raise raiseAmt)
    else ret Check
  else if canRaise && (strength >=? raiseThreshold) && ratio_leb stackRatio (1 / 3) then
    raiseAmt <- protectionBetSize ;;
    let raiseAmt := Math_max (currentBet + lastRaise) raiseAmt in
    if Math_abs (strength - raiseThreshold) <=? STRENGTH_TIE_DELTA then
      let alt := if oddsJustified then Call callAmt else Fold in
      r <- Math_random ;;
      ret (if r <? 0.5 then Raise raiseAmt else alt)
    else ret (Raise raiseAmt)
  else if oddsJustified then
    if abs_diff_leb (strengthRatio * aggressiveness) potOdds ODDS_TIE_DELTA then
      r <- Math_random ;;
      ret (if r <? 0.5 then Call callAmt else Fold)
    else ret (Call callAmt)
  else ret Fold.

Definition firstDecision : Rand Decision :=
  match shove with
  | Some decision => ret decision
  | None => branchDecision
  end.

Definition facingAllIn : bool := existsb Player.allIn opponents.

(** If facing any all-in, do not fold always *)
Definition allInDefense (decision : Decision) : Decision :=
  if isFold decision && facingAllIn then
    let goodThreshold := if preflop then ALLIN_HAND_PREFLOP else ALLIN_HAND_POSTFLOP in
    if strengthRatio >=? goodThreshold then Call (Math_min chips needToCall)
    else decision
  else decision.

(** Bluff injection *)
Definition bluffInjection (decision : Decision) : Rand Decision :=
  if (bluffChance >? 0) && canRaise
     && (isCheck decision || isFold decision) && negb facingAllIn
  then
    r <- Math_random ;;
    if r <? bluffChance then
      b <- bluffBetSize ;;
      let bluffAmt := Math_max (currentBet + lastRaise) b in
      ret (Raise bluffAmt)
    else ret decision
  else ret decision.

(** Occasional overbet with a near-nut hand at a low stack-to-pot ratio *)
Definition overbetUpsize (decision : Decision) : Rand Decision :=
  match decision with
  | Raise amount =>
      if negb preflop && (strengthRatio >=? 0.95) && (spr <=? 2) then
        r <- Math_random ;;
        if r <? 0.3 then
          o <- overBetSize ;;
          ret (Raise (Math_max amount o))
        else ret decision
      else ret decision
  | _ => ret decision
  end.

(** Slow-play: a post-flop raise with a near-nut hand becomes a check *)
Definition slowPlay (decision : Decision) : Rand Decision :=
  if negb preflop && (strengthRatio >=? 0.9) && isRaise decision then
    r <- Math_random ;;
    ret (if r <? 0.3 then Check else decision)
  else ret decision.

(** Occasional bet when checking post-flop with no bet on the table *)
Definition protectBet (decision : Decision) : Rand Decision :=
  if negb preflop && (currentBet =? 0) && isCheck decision then
    r <- Math_random ;;
    if r <? 0.3 then
      betAmt <- protectionBetSize ;;
      ret (Raise (Math_max lastRaise betAmt))
    else ret decision
  else ret decision.

(** Ensure raises meet the minimum requirements *)
Definition enforceMinRaise (decision : Decision) : Decision :=
  match decision with
  | Raise amount =>
      let minRaise := needToCall + lastRaise in (* minimum legal raise *)
      if amount <? minRaise then
        (* Downgrade to call (or check if nothing to call) *)
        if needToCall >? 0 then Call (Math_min chips needToCall) else Check
      else decision
  | _ => decision
  end.

(** The decision after all the probabilistic overrides. *)
Definition adjustedDecision : Rand Decision :=
  decision <- firstDecision ;;
  let decision := allInDefense decision in
  decision <- bluffInjection decision ;;
  decision <- overbetUpsize decision ;;
  decision <- slowPlay decision ;;
  protectBet decision.

Definition chooseBotAction : Rand Decision :=
  decision <- adjustedDecision ;;
  ret (enforceMinRaise decision).

End ChooseBotAction.

(* ================================================================== *)
(** ** Action queue management

    The module state ([botActionQueue], [processingBotActions]) and the
    pending [setTimeout(processBotQueue, ...)] timers form the state of a
    transition system.  Its events are the calls of [enqueueBotAction] and
    the firing of a timer; both carry the time at which they happen, and a
    timer may fire late but never before it is due. *)

Module Scheduler.

(** Delay in milliseconds between enqueued bot actions *)
Definition BOT_ACTION_DELAY : Z := 1500.

#[local] Set Warnings "-register-all".

(** What the queue can observe of a callback [fn]: running [fn()] calls
    [enqueueBotAction] on each of [spawns], in order, and then returns, or
    throws when [throws] is set.  [label] names the callback in traces. *)
Inductive callback : Type :=
| Callback (label : nat) (spawns : list callback) (throws : bool).

Definition label (fn : callback) : nat :=
  match fn with Callback l _ _ => l end.
Definition spawns (fn : callback) : list callback :=
  match fn with Callback _ s _ => s end.
Definition throws (fn : callback) : bool :=
  match fn with Callback _ _ t => t end.

(** [fn] and every callback it enqueues, directly or not, return. *)
Fixpoint returns (fn : callback) : bool :=
  match fn with
  | Callback _ s t => negb t && forallb returns s
  end.

(** [timers] holds the due times of the pending timeouts, oldest first;
    [enqueued] and [executed] are the traces of the calls of
    [enqueueBotAction] and of the executions [fn()], with their times. *)
Record state : Type := mkState {
  botActionQueue : list callback;
  processingBotActions : bool;
  timers : list Z;
  now : Z;
  enqueued : list (Z * nat);
  executed : list (Z * nat) }.

Definition init (t0 : Z) : state := mkState [] false [] t0 [] [].

(** [setTimeout(processBotQueue, BOT_ACTION_DELAY)] *)
Definition setTimeout (s : state) : state :=
  mkState (botActionQueue s) (processingBotActions s)
          (timers s ++ [(now s + BOT_ACTION_DELAY)%Z]) (now s)
          (enqueued s) (executed s).

(** Task queue management: enqueue bot actions for delayed execution *)
Definition enqueueBotAction (fn : callback) (s : state) : state :=
  let s := mkState (botActionQueue s ++ [fn]) (processingBotActions s)
                   (timers s) (now s)
                   (enqueued s ++ [(now s, label fn)]) (executed s) in
  if negb (processingBotActions s) then
    setTimeout (mkState (botActionQueue s) true (timers s) (now s)
                        (enqueued s) (executed s))
  else s.

(** Execute queued actions at fixed intervals.  When [fn()] throws, the
    rest of the function is not run. *)
Definition processBotQueue (s : state) : state :=
  match botActionQueue s with
  | [] =>
      mkState [] false (timers s) (now s) (enqueued s) (executed s)
  | fn :: rest =>
      let s := mkState rest (processingBotActions s) (timers s) (now s)
                       (enqueued s) (executed s ++ [(now s, label fn)]) in
      let s := fold_left (fun s c => enqueueBotAction c s) (spawns fn) s in
      if throws fn then s
      else if (0 <? lengthZ (botActionQueue s))%Z then setTimeout s
      else mkState (botActionQueue s) false (timers s) (now s)
                   (enqueued s) (executed s)
  end.

Inductive event : Type :=
| Enqueue (t : Z) (fn : callback)   (* a call of [enqueueBotAction] at time [t] *)
| Timeout (t : Z).                  (* the oldest timer fires at time [t] *)

Definition at_time (t : Z) (s : state) : state :=
  mkState (botActionQueue s) (processingBotActions s) (timers s) t
          (enqueued s) (executed s).

(** One event; [None] when the event cannot happen in state [s] (time
    running backwards, no timer pending, a timer firing early). *)
Definition step (s : state) (e : event) : option state :=
  match e with
  | Enqueue t fn =>
      if (t <? now s)%Z then None
      else Some (enqueueBotAction fn (at_time t s))
  | Timeout t =>
      match timers s with
      | [] => None
      | due :: rest =>
          if (t <? now s)%Z || (t <? due)%Z then None
          else Some (processBotQueue
                       (mkState (botActionQueue s) (processingBotActions s)
                                rest t (enqueued s) (executed s)))
      end
  end.

Fixpoint run (s : state) (es : list event) : option state :=
  match es with
  | [] => Some s
  | e :: es' =>
      match step s e with
      | Some s' => run s' es'
      | None => None
      end
  end.


(** Consecutive times are at least [d] apart. *)
Fixpoint spaced (d : Z) (ts : list Z) : Prop :=
  match ts with
  | [] => True
  | t :: rest =>
      match rest with
      | [] => True
      | t' :: _ => (t + d <= t')%Z
      end /\ spaced d rest
  end.



(** Entry [x] of the execution trace runs the callback of entry [e] of
    the enqueue trace, at least the delay after it was enqueued. *)
Definition delayed (e x : Z * nat) : Prop :=
  snd e = snd x /\ (fst e + BOT_ACTION_DELAY <= fst x)%Z.

(** The invariant of the transition system.  [done] are the enqueue
    entries of the callbacks already run, [pend] those of the queue. *)
Definition timerInvariant (s : state) (pend : list (Z * nat)) : Prop :=
  match timers s with
  | [] =>
      spaced BOT_ACTION_DELAY (map fst (executed s))
      /\ (processingBotActions s = false -> botActionQueue s = [])
  | [due] =>
      processingBotActions s = true
      /\ spaced BOT_ACTION_DELAY (map fst (executed s) ++ [due])
      /\ match pend with
         | e :: _ => (fst e + BOT_ACTION_DELAY <= due)%Z
         | [] => False
         end
  | _ :: _ :: _ => False
  end.

Definition invariant (s : state) : Prop :=
  exists done pend,
    enqueued s = done ++ pend
    /\ Forall2 delayed done (executed s)
    /\ map snd pend = map label (botActionQueue s)
    /\ Forall (fun e => (fst e <= now s)%Z) pend
    /\ Forall (fun x => (fst x <= now s)%Z) (executed s)
    /\ timerInvariant s pend.

(** The number of executions a callback stands for: itself and all the
    callbacks it enqueues, directly or not. *)
Fixpoint size (fn : callback) : nat :=
  match fn with
  | Callback _ s _ => Datatypes.S (list_sum (map size s))
  end.

Definition weight (q : list callback) : nat := list_sum (map size q).

(** What holds in addition while every callback returns: the queue is
    being processed exactly when a timer is pending. *)
Definition live (s : state) : Prop :=
  forallb returns (botActionQueue s) = true
  /\ (processingBotActions s = true -> timers s <> []).





(** The moment from which the delay of a callback counts: the execution
    before it, or its own enqueue where that came later. *)
Definition armed (prev : option Z) (enq : Z) : Z :=
  match prev with
  | Some p => Z.max p enq
  | None => enq
  end.

(** The execution trace [exe] runs the callbacks of the enqueue trace
    [enq] in order, each exactly [d] after the moment its delay counts
    from; [prev] is the time of the execution before the first one. *)
Fixpoint paced (d : Z) (prev : option Z) (enq exe : list (Z * nat)) : Prop :=
  match enq, exe with
  | [], [] => True
  | e :: enq', x :: exe' =>
      snd e = snd x
      /\ fst x = (armed prev (fst e) + d)%Z
      /\ paced d (Some (fst x)) enq' exe'
  | _, _ => False
  end.




End Scheduler.

(** The decisions C6 allows to a player without chips who faces a bet: a
    fold, or an all-in (a raise or a call of the whole stack). *)
Definition foldOrAllIn (chips : Q) (d : Decision) : Prop :=
  match d with
  | Fold => True
  | Raise a | Call a => a == chips
  | Check => False
  end.

(** The number of elements of [l] with key [k]. *)
Definition countOf {A K : Type} (eqb : K -> K -> bool) (key : A -> K)
  (k : K) (l : list A) : Z :=
  lengthZ (filter (fun a => eqb (key a) k) l).

(** *** The texture sub-scores in the words of the specification

    Board texture risk: the average of three sub-scores over the board
    only: pairing risk (the fraction of extra duplicate-rank cards),
    suitedness risk (the fraction of extra same-suit cards) and
    connectedness risk (0 unless the longest consecutive-rank run is at
    least 3, then scaled by run length over board length); the ace is also
    treated as rank 1. *)

(** The largest number of elements of [l] that share one key. *)
Definition mostAlike {A K : Type} (eqb : K -> K -> bool) (key : A -> K)
  (l : list A) : Z :=
  fold_right Z.max 0%Z (map (fun a => countOf eqb key (key a) l) l).

(** Pairing risk: of the cards besides the first, the fraction that
    repeats the most frequent rank. *)
Definition pairingRiskSpec (board : list card) : Q :=
  ZQ (mostAlike Rank_eqb rankOf board - 1) / ZQ (lengthZ board - 1).

(** Suitedness risk: of the cards besides the first, the fraction that
    repeats the most frequent suit. *)
Definition suitednessRiskSpec (board : list card) : Q :=
  ZQ (mostAlike Suit_eqb suitOf board - 1) / ZQ (lengthZ board - 1).

(** A card of rank [r] lies on the board, an ace counting as 14 and as 1. *)
Definition rankOnBoard (board : list card) (r : Z) : bool :=
  existsb (fun c => (rankMap (rankOf c) =? r)%Z
                    || ((r =? 1)%Z && (rankMap (rankOf c) =? 14)%Z)) board.

(** The length of the run of consecutive ranks on the board that ends at
    rank [r]: 0 when [r] is not on the board. *)
Fixpoint runEndingAt (board : list card) (r : nat) : Z :=
  match r with
  | O => 0%Z
  | Datatypes.S r' =>
      if rankOnBoard board (Z.of_nat r)
      then (1 + runEndingAt board r')%Z
      else 0%Z
  end.

(** The longest consecutive-rank run, over the ranks 1 to 14. *)
Definition longestRunSpec (board : list card) : Z :=
  fold_right Z.max 0%Z (map (runEndingAt board) (seq 1 14)).

(** Connectedness risk: 0 unless the longest run reaches 3, then the run
    beyond two cards over the board beyond two cards. *)
Definition connectednessRiskSpec (board : list card) : Q :=
  if (longestRunSpec board >=? 3)%Z
  then ZQ (longestRunSpec board - 2) / ZQ (lengthZ board - 2)
  else 0.

Definition textureRiskSpec (board : list card) : Q :=
  (pairingRiskSpec board + suitednessRiskSpec board
   + connectednessRiskSpec board) / 3.

(** The average number of hands observed of the opponents, and the weight
    their statistics get: the [avgHands] and [weight] of [chooseBotAction]. *)
Definition opponentAvgHands (player : Player.t) (ctx : Ctx.t) : Q :=
  sumOver (fun p => NQ (Stats.hands (Player.stats p))) (opponents player ctx)
  / ZQ (lengthZ (opponents player ctx)).

Definition opponentWeight (Math_exp : Q -> Q) (player : Player.t) (ctx : Ctx.t)
  : Q :=
  if opponentAvgHands player ctx <? MIN_HANDS_FOR_WEIGHT then 0
  else 1 - Math_exp (- (opponentAvgHands player ctx - MIN_HANDS_FOR_WEIGHT)
                     / WEIGHT_GROWTH).

(** The values of [aggressiveness] and [raiseThreshold] before the
    opponent statistics are looked at. *)
Definition boardTuning (Card_rank : card -> Z) (Hand_solve : list card -> Hand.t)
  (player : Player.t) (ctx : Ctx.t) (communityCards : list card) : Q * Q :=
  let preflop := preflop communityCards in
  let positionFactor := positionFactor player ctx in
  let textureRisk := textureRisk Card_rank Hand_solve player communityCards in
  let aggressiveness :=
    (if preflop then 0.8 + 0.4 * positionFactor else 1 + 0.6 * positionFactor)
    + oppAggAdj ctx in
  let raiseThreshold :=
    if preflop then 8 - 2 * positionFactor
    else Math_max 2 (4 - 2 * positionFactor) in
  let raiseThreshold := Math_max 1 (raiseThreshold - thresholdAdj ctx) in
  if negb preflop then
    let '(aggressiveness, raiseThreshold) :=
      if overPair Card_rank Hand_solve player communityCards
      then (aggressiveness + 0.2, raiseThreshold - 0.5)
      else if topPair Card_rank Hand_solve player communityCards
      then (aggressiveness + 0.1, raiseThreshold - 0.3)
      else (aggressiveness, raiseThreshold) in
    let '(aggressiveness, raiseThreshold) :=
      if drawChance Card_rank Hand_solve player communityCards
      then (aggressiveness + 0.05, raiseThreshold - 0.25)
      else (aggressiveness, raiseThreshold) in
    (aggressiveness * (1 - textureRisk * 0.5),
     Math_min 10 (raiseThreshold + textureRisk))
  else (aggressiveness, raiseThreshold).

(** An amount sized as a share [f] of [base], [lo <= f <= hi], capped at
    the stack and rounded. *)
Definition sizedWithin (chips base lo hi x : Q) : Prop :=
  exists f, lo <= f <= hi /\ x = roundTo10 (Math_min chips (base * f)).

(** An amount produced by a sizing function: capped at the stack, then
    rounded to a multiple of 10. *)
Definition sized (chips x : Q) : Prop :=
  exists y, x = roundTo10 (Math_min chips y).

(* ================================================================== *)
(** ** The state server (api/main)

    The handler of the table-state endpoint.  The key-value store is a map
    from keys to records with its own limits on keys and values: it throws
    on a key or a value it does not take.  A request is handled to its end
    before the next one starts, except in [interleaved], where two saves
    overlap. *)

Module Api.

#[local] Set Warnings "-register-all".

(** A JSON value, as [request.json()] returns it. *)
Inductive json : Type :=
| JNull
| JBool (b : bool)
| JNum (n : Q)
| JStr (s : string)
| JArr (items : list json)
| JObj (fields : list (string * json)).

(** A value read from an object; [None] stands for [undefined]. *)
Definition value : Type := option json.

(** The own property [name] of an object literal, each name held once. *)
Fixpoint lookup {V : Type} (name : string) (o : list (string * V)) : option V :=
  match o with
  | [] => None
  | (k, v) :: t => if String.eqb k name then Some v else lookup name t
  end.

(** [v.name] for the names read by the handler and by the view ([state],
    [tableId], [notifications], [version]), which only an object can hold;
    [v] is not [null]. *)
Definition prop (name : string) (v : json) : value :=
  match v with
  | JObj fields => lookup name fields
  | _ => None
  end.

(** [v?.name] *)
Definition optProp (name : string) (v : json) : value :=
  match v with
  | JNull => None
  | _ => prop name v
  end.

Definition truthy (v : json) : bool :=
  match v with
  | JNull => false
  | JBool b => b
  | JNum n => negb (Qeq_bool n 0)
  | JStr s => negb (String.eqb s EmptyString)
  | JArr _ | JObj _ => true
  end.

(** [a || b] *)
Definition orElse (a : value) (b : json) : json :=
  match a with
  | Some v => if truthy v then v else b
  | None => b
  end.

(** [a ?? b] *)
Definition coalesce (a b : value) : value :=
  match a with
  | None | Some JNull => b
  | Some _ => a
  end.

(** [a ?? b] with a [b] that is a value of its own. *)
Definition coalesceTo (a : value) (b : json) : json :=
  match a with
  | None | Some JNull => b
  | Some v => v
  end.

(** The part of a key after ["table"]: only strings, numbers and booleans
    are key parts; the store throws on arrays, objects and [null]. *)
Inductive keyPart : Type :=
| KStr (s : string)
| KNum (n : Q)
| KBool (b : bool).

Definition keyOf (v : json) : option keyPart :=
  match v with
  | JStr s => Some (KStr s)
  | JNum n => Some (KNum n)
  | JBool b => Some (KBool b)
  | JNull | JArr _ | JObj _ => None
  end.

Definition key_eqb (a b : keyPart) : bool :=
  match a, b with
  | KStr s, KStr s' => String.eqb s s'
  | KNum n, KNum n' => Qeq_bool n n'
  | KBool x, KBool x' => Bool.eqb x x'
  | _, _ => false
  end.

(** What is stored for a table. *)
Record record : Type := mkRecord {
  state : json;
  notifications : json;
  updatedAt : string;
  version : Z }.

(** The store [kv], under the keys [["table", k]]. *)
Definition store : Type := keyPart -> option record.

Definition empty : store := fun _ => None.

(** [kv.set(["table", k], r, ...)] *)
Definition kv_set (k : keyPart) (r : record) (kv : store) : store :=
  fun k' => if key_eqb k' k then Some r else kv k'.

(** The expiry of an entry, 86 400 000 ms after it was set at the earliest. *)
Definition kv_expire (k : keyPart) (kv : store) : store :=
  fun k' => if key_eqb k' k then None else kv k'.

(** The body of a response and the response. *)
Inductive body : Type :=
| Empty
| Text (s : string)
| Json (j : json).

Record response : Type := mkResponse {
  status : Z;
  headers : list (string * string);
  content : body }.

Definition corsHeaders : list (string * string) :=
  [("Access-Control-Allow-Origin", "*");
   ("Access-Control-Allow-Methods", "GET, POST, OPTIONS");
   ("Access-Control-Allow-Headers", "Content-Type")]%string.

(** [o[k] = v] on an object literal. *)
Fixpoint assign (k v : string) (o : list (string * string))
  : list (string * string) :=
  match o with
  | [] => [(k, v)]
  | (k', v') :: t =>
      if String.eqb k' k then (k', v) :: t else (k', v') :: assign k v t
  end.

(** [{ ...a, ...b }] *)
Definition spread (a b : list (string * string)) : list (string * string) :=
  fold_left (fun o kv => assign (fst kv) (snd kv) o) b a.

Definition withCors (headers : list (string * string))
  : list (string * string) :=
  spread corsHeaders headers.

(** [JSON.stringify(body)] is kept as the value it writes. *)
Definition jsonResponse (j : json) (status : Z) : response :=
  mkResponse status (withCors [("Content-Type", "application/json")]%string)
             (Json j).

Definition textResponse (s : string) (status : Z) : response :=
  mkResponse status (withCors []) (Text s).

(** The record as [JSON.stringify] writes it. *)
Definition recordJson (r : record) : json :=
  JObj [("state", state r);
        ("notifications", notifications r);
        ("updatedAt", JStr (updatedAt r));
        ("version", JNum (inject_Z (version r)))]%string.

Section Handler.

(** The limits of the store, which is not part of the sources: the key
    parts it takes (a key may not exceed 2 KiB in its encoding) and the
    records it takes as values (a value may not exceed 64 KiB).  [kv.get]
    and [kv.set] throw on a key that is not taken, [kv.set] also on a value
    that is not. *)
Variable takesKey : keyPart -> bool.
Variable takesValue : record -> bool.

(** [Number.parseInt(s, 10)]; [None] stands for [NaN]. *)
Variable Number_parseInt : string -> option Z.

(** [getState]; the outer [None] stands for the exception of the store on
    a key it does not take. *)
Definition getState (tableId : json) (kv : store) : option (option record) :=
  match keyOf tableId with
  | Some k => if takesKey k then Some (kv k) else None
  | None => None
  end.

(** The record [saveState] builds from what it read; [nowIso] is
    [new Date().toISOString()]. *)
Definition nextRecord (current : option record) (state : json)
  (notifications' : value) (nowIso : string) : record :=
  let version :=
    (match current with Some r => version r | None => 0 end + 1)%Z in
  mkRecord state
           (coalesceTo (coalesce notifications'
                                 (option_map notifications current))
                       (JArr []))
           nowIso version.

(** [kv.set] with the record; [None] stands for its exception on a key or
    a value the store does not take. *)
Definition writeState (tableId : json) (r : record) (kv : store)
  : option store :=
  match keyOf tableId with
  | Some k =>
      if takesKey k && takesValue r then Some (kv_set k r kv) else None
  | None => None
  end.

Definition saveState (tableId : json) (state : json) (notifications' : value)
  (nowIso : string) (kv : store) : option (record * store) :=
  match getState tableId kv with
  | None => None
  | Some current =>
      let r := nextRecord current state notifications' nowIso in
      match writeState tableId r kv with
      | Some kv' => Some (r, kv')
      | None => None
      end
  end.

(** Two saves of one table that both read before either writes: the
    store after the second write, with the two records. *)
Definition interleaved (tableId : json)
  (state1 : json) (notifications1 : value) (now1 : string)
  (state2 : json) (notifications2 : value) (now2 : string)
  (kv : store) : option (record * record * store) :=
  match getState tableId kv, getState tableId kv with
  | Some current1, Some current2 =>
      let r1 := nextRecord current1 state1 notifications1 now1 in
      let r2 := nextRecord current2 state2 notifications2 now2 in
      match writeState tableId r1 kv with
      | Some kv1 =>
          match writeState tableId r2 kv1 with
          | Some kv2 => Some (r1, r2, kv2)
          | None => None
          end
      | None => None
      end
  | _, _ => None
  end.

(** [requestBody] is what [request.json()] gives, [None] when it throws. *)
Definition handlePost (requestBody : option json) (nowIso : string)
  (kv : store) : option (response * store) :=
  match requestBody with
  | None => Some (textResponse "Invalid JSON" 400, kv)
  | Some data =>
      match optProp "state" data with
      | None => Some (textResponse "Missing state" 400, kv)
      | Some state =>
          let tableId := orElse (prop "tableId" data) (JStr "default") in
          match saveState tableId state (prop "notifications" data) nowIso kv
          with
          | Some (record, kv') =>
              Some (jsonResponse
                      (JObj [("ok", JBool true);
                             ("version", JNum (inject_Z (version record)));
                             ("updatedAt", JStr (updatedAt record))]%string)
                      200,
                    kv')
          | None => None
          end
      end
  end.

(** [s || d] on what [searchParams.get] returns. *)
Definition paramOr (p : option string) (d : string) : string :=
  match p with
  | Some s => if String.eqb s EmptyString then d else s
  | None => d
  end.

Definition sinceVersionOf (sinceParam : option string) : option Z :=
  match sinceParam with
  | Some s => if String.eqb s EmptyString then Some 0%Z else Number_parseInt s
  | None => Some 0%Z
  end.

Definition handleGet (searchParams : list (string * string)) (kv : store)
  : option response :=
  let tableId := paramOr (lookup "tableId" searchParams) "default" in
  let sinceParam := lookup "sinceVersion" searchParams in
  let sinceVersion := sinceVersionOf sinceParam in
  match getState (JStr tableId) kv with
  | None => None
  | Some None => Some (textResponse "Not found" 404)
  | Some (Some record) =>
      if match sinceVersion with
         | Some since => (version record <=? since)%Z
         | None => false
         end
      then Some (mkResponse 204 (withCors []) Empty)
      else Some (jsonResponse (recordJson record) 200)
  end.

Definition handleOptions : response := mkResponse 204 (withCors []) Empty.

Record request : Type := mkRequest {
  pathname : string;
  searchParams : list (string * string);
  method : string;
  requestJson : option json }.

Definition routeRequest (req : request) (nowIso : string) (kv : store)
  : option (response * store) :=
  if negb (String.eqb (pathname req) "/state") then
    Some (textResponse "Not found" 404, kv)
  else if String.eqb (method req) "OPTIONS" then
    Some (handleOptions, kv)
  else if String.eqb (method req) "GET" then
    match handleGet (searchParams req) kv with
    | Some res => Some (res, kv)
    | None => None
    end
  else if String.eqb (method req) "POST" then
    handlePost (requestJson req) nowIso kv
  else Some (textResponse "Method not allowed" 405, kv).

(** The handler given to [Deno.serve]. *)
Definition serve (req : request) (nowIso : string) (kv : store)
  : response * store :=
  match routeRequest req nowIso kv with
  | Some x => x
  | None => (textResponse "Internal error" 500, kv)
  end.

(** What happens to the store: a request is served, or an entry expires. *)
Inductive event : Type :=
| Served (req : request) (nowIso : string)
| Expired (k : keyPart).

Definition step (kv : store) (e : event) : store :=
  match e with
  | Served req nowIso => snd (serve req nowIso kv)
  | Expired k => kv_expire k kv
  end.

Definition run (kv : store) (es : list event) : store := fold_left step es kv.

End Handler.

End Api.

(* ================================================================== *)
(** ** Sample tables

    The concrete hands on which the engine is evaluated below.  Their
    opponents have no recorded hands, so the opponent weight is 0 and
    [Math.exp] is not reached; [sampleExp] only fills the argument. *)

Definition sampleExp (x : Q) : Q := 1 + x.

(** The results of the successive calls of [Math.random]. *)
Definition draws (l : list Q) : nat -> Q := fun n => nth n l 0.

(** The answers of the hand evaluator on the sample hands: a straight flush
    (rank 9) when all the cards are hearts, a high card (rank 1) otherwise. *)
Definition sampleSolve (cs : list card) : Hand.t :=
  if forallb (fun c => Suit_eqb (suitOf c) Heart) cs
  then Hand.mk "Straight Flush" 9 (mkCard RA Heart)
  else Hand.mk "High Card" 1 (hd (mkCard R2 Club) cs).

Definition noStats : Stats.t := Stats.mk 0 0 0 0 0.

(** The opponent: on the button, 1000 chips, [bet] committed this round. *)
Definition villain (bet : Q) : Player.t :=
  Player.mk 1 1000 bet false false (mkCard R9 Spade, mkCard R4 Diamond)
            true false noStats.

(** The bot: seat 0, in the big blind. *)
Definition hero (chips roundBet : Q) (cards : card * card) : Player.t :=
  Player.mk 0 chips roundBet false false cards false true noStats.

(** A heads-up table at blinds 10/20. *)
Definition table (h : Player.t) (currentBet pot : Q) (raises phase : Z) : Ctx.t :=
  Ctx.mk currentBet pot 10 20 raises phase [h; villain currentBet] 20.

Definition pocketAces : card * card := (mkCard RA Club, mkCard RA Diamond).
Definition kingTen : card * card := (mkCard RK Club, mkCard RT Diamond).
Definition sevenDeuce : card * card := (mkCard R7 Club, mkCard R2 Diamond).
Definition aceKingHearts : card * card := (mkCard RA Heart, mkCard RK Heart).
(** The flop Q-J-T of hearts. *)
Definition heartFlop : list card :=
  [mkCard RQ Heart; mkCard RJ Heart; mkCard RT Heart].
(** The flop 2C 7D KS. *)
Definition dryFlop : list card :=
  [mkCard R2 Club; mkCard R7 Diamond; mkCard RK Spade].

(** Ace-king of hearts on the flop 2H 7H 9D: four hearts. *)
Definition twoHeartFlop : list card :=
  [mkCard R2 Heart; mkCard R7 Heart; mkCard R9 Diamond].

(** An action that enqueues action 9 while it runs. *)
Definition chained (l : nat) : Scheduler.callback :=
  Scheduler.Callback l [Scheduler.Callback 9 [] false] false.

(** Three callbacks that return, and one that throws. *)
Definition action (l : nat) : Scheduler.callback := Scheduler.Callback l [] false.
Definition failing (l : nat) : Scheduler.callback := Scheduler.Callback l [] true.


(** A failing action followed by another one; the first timer fires. *)
Definition stalled : list Scheduler.event :=
  [Scheduler.Enqueue 0 (failing 1); Scheduler.Enqueue 0 (action 2);
   Scheduler.Timeout 1500].

(** Two actions enqueued ten seconds apart, each timer firing when due. *)
Definition spread : list Scheduler.event :=
  [Scheduler.Enqueue 0 (action 1); Scheduler.Timeout 1500;
   Scheduler.Enqueue 10000 (action 2); Scheduler.Timeout 11500].

(** The state a run ends in ([init 0] for a run that cannot happen). *)
Definition finalState (es : list Scheduler.event) : Scheduler.state :=
  match Scheduler.run (Scheduler.init 0) es with
  | Some s => s
  | None => Scheduler.init 0
  end.

(** Three-four on the flop 5-6-7: a made straight. *)
Definition threeFour : card * card := (mkCard R3 Club, mkCard R4 Diamond).
Definition fiveSixSeven : list card :=
  [mkCard R5 Heart; mkCard R6 Spade; mkCard R7 Club].
(** The board AH AD 2C 3S: a pair, four suits, the wheel run A-2-3. *)
Definition pairedAces : list card :=
  [mkCard RA Heart; mkCard RA Diamond; mkCard R2 Club; mkCard R3 Spade].
(** A board of two cards, and the flop 7-8-9 of hearts. *)
Definition twoCards : list card := [mkCard R2 Club; mkCard R7 Diamond].
Definition wetFlop : list card :=
  [mkCard R7 Heart; mkCard R8 Heart; mkCard R9 Heart].

(** The sample hands, heads-up against [villain]. *)

(** Pocket aces before the flop, 100 chips behind, facing a bet of 40 into a
    pot of 200, after [raises] raises. *)
Definition acesShort : Player.t := hero 100 0 pocketAces.
Definition acesShortTable (raises : Z) : Ctx.t := table acesShort 40 200 raises 0.

(** The same with 20 chips behind. *)
Definition acesTiny : Player.t := hero 20 0 pocketAces.
Definition acesTinyTable : Ctx.t := table acesTiny 40 200 0 0.

(** King-ten in the big blind, 30 chips behind, nothing to call. *)
Definition kingTenBlind : Player.t := hero 30 20 kingTen.
Definition kingTenTable : Ctx.t := table kingTenBlind 20 40 0 0.

(** A royal flush on the flop, 1000 chips behind, facing a bet of 40. *)
Definition nutsDeep : Player.t := hero 1000 0 aceKingHearts.
Definition nutsDeepTable : Ctx.t := table nutsDeep 40 100 0 1.

(** The same without chips. *)
Definition nutsBroke : Player.t := hero 0 0 aceKingHearts.
Definition nutsBrokeTable : Ctx.t := table nutsBroke 40 100 0 1.

(** Pocket aces before the flop without chips, facing a bet of 40. *)
Definition acesBroke : Player.t := hero 0 0 pocketAces.
Definition acesBrokeTable : Ctx.t := table acesBroke 40 100 0 0.

(** Pocket aces in the big blind with one big blind behind. *)
Definition acesBlind : Player.t := hero 20 20 pocketAces.
Definition acesBlindTable : Ctx.t := table acesBlind 20 40 0 0.

(** Seven-deuce on a dry flop with one big blind behind and no bet. *)
Definition rags : Player.t := hero 20 0 sevenDeuce.
Definition ragsTable : Ctx.t := table rags 0 40 0 1.

(** Seven-deuce before the flop with 1000 chips: facing a bet of 40, and
    in the big blind with nothing to call. *)
Definition ragsDeep : Player.t := hero 1000 0 sevenDeuce.
Definition ragsDeepTable : Ctx.t := table ragsDeep 40 60 0 0.
Definition ragsBlind : Player.t := hero 1000 20 sevenDeuce.
Definition ragsBlindTable : Ctx.t := table ragsBlind 20 40 0 0.

(** An opponent who is all-in for 500, and pocket aces facing the shove. *)
Definition shover : Player.t :=
  Player.mk 1 0 500 false true (mkCard R9 Spade, mkCard R4 Diamond)
            true false noStats.
Definition acesDeep : Player.t := hero 1000 0 pocketAces.
Definition allInTable : Ctx.t :=
  Ctx.mk 500 520 10 20 1 0 [acesDeep; shover] 480.

(** A rational function with the range of [Math.exp] on arguments that are
    not positive. *)
Definition rationalExp (x : Q) : Q := 1 / (1 - x).

(** An opponent observed for 30 hands, 15 of them folded. *)
Definition seasoned : Stats.t := Stats.mk 30 15 6 10 5.
Definition regular : Player.t :=
  Player.mk 1 1000 20 false false (mkCard R9 Spade, mkCard R4 Diamond)
            true false seasoned.
Definition seasonedTable : Ctx.t :=
  Ctx.mk 20 40 10 20 0 0 [kingTenBlind; regular] 20.

(** The engine on the sample evaluator. *)
Definition sampleAction (rnd : list Q) (p : Player.t) (c : Ctx.t)
  (board : list card) : Decision :=
  fst (chooseBotAction cardRank sampleSolve sampleExp (draws rnd) p c board 0%nat).

(* ================================================================== *)
(** ** The single-seat view (js/singleView.js)

    The polling loop of the page that shows one seat.  The page itself
    and what [applyRemoteState] writes on it are parameters; the state
    below is the one the polling functions read and write, with the
    browser's pending timers and the requests under way. *)

Module View.

(** How a request ends: [fetch] rejects; the answer is 204; the answer
    is another 2xx one, with the value [res.json()] gives ([None] when it
    rejects); the answer is not [ok]. *)
Inductive outcome : Type :=
| Rejected
| NoContent
| Ok (payload : option Api.json)
| NotOk.

Section Polling.

(** The page, and [applyRemoteState(payload)] on it: the page it leaves
    and whether it threw. *)
Variable page : Type.
Variable applyRemoteState : Api.json -> page -> page * bool.

(** [timers] are the ids of the timeouts set and neither fired nor
    cleared, [nextTimer] the id the next [setTimeout] returns; [inFlight]
    counts the requests sent and not yet ended, [fetched] lists the
    [lastVersion] each request carried; [online] is the last argument of
    [setOnlineElementsVisible]. *)
Record state : Type := mkState {
  lastVersion : Api.value;
  pollTimeoutId : option nat;
  isPolling : bool;
  visible : bool;
  timers : list nat;
  nextTimer : nat;
  inFlight : nat;
  fetched : list Api.value;
  online : option bool;
  dom : page }.

Definition setOnlineElementsVisible (isOnline : bool) (s : state) : state :=
  mkState (lastVersion s) (pollTimeoutId s) (isPolling s) (visible s)
          (timers s) (nextTimer s) (inFlight s) (fetched s)
          (Some isOnline) (dom s).

(** [clearTimeout(id)] *)
Definition clearTimeout (id : nat) (l : list nat) : list nat :=
  filter (fun x => negb (Nat.eqb x id)) l.

(** [pollState] up to its first [await]. *)
Definition pollState (s : state) : state :=
  if isPolling s || negb (visible s) then s
  else mkState (lastVersion s) (pollTimeoutId s) true (visible s)
               (timers s) (nextTimer s) (Datatypes.S (inFlight s))
               (fetched s ++ [lastVersion s]) (online s) (dom s).

Definition schedulePoll (s : state) : state :=
  if negb (visible s) then
    mkState (lastVersion s) None (isPolling s) (visible s)
            (timers s) (nextTimer s) (inFlight s) (fetched s)
            (online s) (dom s)
  else
    mkState (lastVersion s) (Some (nextTimer s)) (isPolling s) (visible s)
            (timers s ++ [nextTimer s]) (Datatypes.S (nextTimer s))
            (inFlight s) (fetched s) (online s) (dom s).

(** The [try] block of [pollState] after the request has ended, with its
    [catch]. *)
Definition received (o : outcome) (s : state) : state :=
  match o with
  | NoContent => setOnlineElementsVisible true s
  | Ok (Some Api.JNull) => setOnlineElementsVisible false s
  | Ok (Some payload) =>
      let applied := applyRemoteState payload (dom s) in
      let s := mkState (Api.prop "version" payload) (pollTimeoutId s)
                       (isPolling s) (visible s) (timers s) (nextTimer s)
                       (inFlight s) (fetched s) (online s) (fst applied) in
      setOnlineElementsVisible (negb (snd applied)) s
  | Ok None | Rejected | NotOk => setOnlineElementsVisible false s
  end.

(** The rest of [pollState], with its [finally] block. *)
Definition settle (o : outcome) (s : state) : state :=
  let s := received o s in
  schedulePoll
    (mkState (lastVersion s) (pollTimeoutId s) false (visible s)
             (timers s) (nextTimer s) (inFlight s) (fetched s)
             (online s) (dom s)).

Definition handleVisibilityChange (s : state) : state :=
  let s :=
    match pollTimeoutId s with
    | Some id =>
        mkState (lastVersion s) None (isPolling s) (visible s)
                (clearTimeout id (timers s)) (nextTimer s) (inFlight s)
                (fetched s) (online s) (dom s)
    | None => s
    end in
  if negb (visible s) then s
  else if negb (isPolling s) then pollState s
  else s.

(** [init], on a page that is visible or not, after [applyParams]. *)
Definition init (isVisible : bool) (d : page) : state :=
  pollState (mkState (Some (Api.JNum 0)) None false isVisible [] 0 0 []
                     None d).

(** What happens to the page: its visibility changes to [v], a pending
    timer fires, the request under way ends. *)
Inductive event : Type :=
| VisibilityChange (v : bool)
| TimerFires (id : nat)
| Settles (o : outcome).

Definition step (s : state) (e : event) : option state :=
  match e with
  | VisibilityChange v =>
      Some (handleVisibilityChange
              (mkState (lastVersion s) (pollTimeoutId s) (isPolling s) v
                       (timers s) (nextTimer s) (inFlight s) (fetched s)
                       (online s) (dom s)))
  | TimerFires id =>
      if existsb (Nat.eqb id) (timers s) then
        Some (pollState
                (mkState (lastVersion s) (pollTimeoutId s) (isPolling s)
                         (visible s) (clearTimeout id (timers s))
                         (nextTimer s) (inFlight s) (fetched s) (online s)
                         (dom s)))
      else None
  | Settles o =>
      match inFlight s with
      | O => None
      | Datatypes.S n =>
          Some (settle o
                  (mkState (lastVersion s) (pollTimeoutId s) (isPolling s)
                           (visible s) (timers s) (nextTimer s) n
                           (fetched s) (online s) (dom s)))
      end
  end.

Fixpoint run (s : state) (es : list event) : option state :=
  match es with
  | [] => Some s
  | e :: es' =>
      match step s e with
      | Some s' => run s' es'
      | None => None
      end
  end.

(** The invariant of the polling loop: a request is under way exactly
    while [isPolling] is set, and it carries the current [lastVersion]; a
    timer is pending only on a visible page with no request under way, and
    [pollTimeoutId] is its id; on a visible page one of the two is there. *)
Definition invariant (s : state) : Prop :=
  inFlight s = (if isPolling s then 1 else 0)%nat
  /\ (isPolling s = true -> exists l, fetched s = l ++ [lastVersion s])
  /\ match timers s with
     | [] => True
     | [id] =>
         pollTimeoutId s = Some id /\ isPolling s = false /\ visible s = true
     | _ :: _ :: _ => False
     end
  /\ (visible s = true -> isPolling s = true \/ timers s <> []).

(** The request of [pollState] as the server reads it; [show] is the text
    of [lastVersion] in the template literal, as the query string carries
    it to the server. *)
Variable show : Api.value -> string.

Definition pollRequest (tableId : string) (sent : Api.value) : Api.request :=
  Api.mkRequest "/state"
    [("tableId", tableId); ("sinceVersion", show sent)]%string "GET" None.

(** How the answer of the server reaches [pollState]. *)
Definition outcomeOf (res : Api.response) : outcome :=
  if (Api.status res =? 204)%Z then NoContent
  else if ((200 <=? Api.status res) && (Api.status res <=? 299))%Z then
    Ok (match Api.content res with
        | Api.Json j => Some j
        | _ => None
        end)
  else NotOk.

(** One poll against the store [kv]: the request carries [lastVersion],
    the answer of the server ends it. *)
Definition exchange (takesKey : Api.keyPart -> bool)
  (takesValue : Api.record -> bool) (Number_parseInt : string -> option Z)
  (tableId nowIso : string) (kv : Api.store) (s : state) : state :=
  let sent := pollState s in
  settle (outcomeOf
            (fst (Api.serve takesKey takesValue Number_parseInt
                    (pollRequest tableId (lastVersion s)) nowIso kv)))
         (mkState (lastVersion sent) (pollTimeoutId sent) (isPolling sent)
                  (visible sent) (timers sent) (nextTimer sent)
                  (Nat.pred (inFlight sent)) (fetched sent) (online sent)
                  (dom sent)).

End Polling.

End View.

(** *** Sample requests *)

(** A [parseInt] for the examples: decimal digits after an optional sign,
    up to the first other character; [NaN] without a digit. *)
Definition digitOf (c : Ascii.ascii) : option Z :=
  let n := Z.of_nat (Ascii.nat_of_ascii c) in
  if ((48 <=? n) && (n <=? 57))%Z then Some (n - 48)%Z else None.

Fixpoint digitsOf (acc : option Z) (s : string) : option Z :=
  match s with
  | EmptyString => acc
  | String c t =>
      match digitOf c with
      | Some d =>
          digitsOf (Some (10 * match acc with Some a => a | None => 0 end + d)%Z) t
      | None => acc
      end
  end.

Definition sampleParseInt (s : string) : option Z :=
  match s with
  | String c t =>
      if Ascii.eqb c "-"%char then option_map Z.opp (digitsOf None t)
      else if Ascii.eqb c "+"%char then digitsOf None t
      else digitsOf None s
  | EmptyString => None
  end.

(** The limits of a store for the examples: table ids of fewer than 2040
    characters, and records whose state and notifications together hold
    fewer than 65536 characters, counting 8 for a number. *)
Fixpoint jsonSize (j : Api.json) : Z :=
  match j with
  | Api.JNull | Api.JBool _ => 1
  | Api.JNum _ => 8
  | Api.JStr s => Z.of_nat (String.length s)
  | Api.JArr items =>
      (fix sizes (l : list Api.json) : Z :=
         match l with
         | [] => 0
         | x :: t => jsonSize x + sizes t
         end) items
  | Api.JObj fields =>
      (fix sizes (l : list (string * Api.json)) : Z :=
         match l with
         | [] => 0
         | (k, x) :: t => Z.of_nat (String.length k) + jsonSize x + sizes t
         end) fields
  end%Z.

Definition sampleTakesKey (k : Api.keyPart) : bool :=
  match k with
  | Api.KStr s => (Z.of_nat (String.length s) <? 2040)%Z
  | Api.KNum _ | Api.KBool _ => true
  end.

Definition sampleTakesValue (r : Api.record) : bool :=
  (jsonSize (Api.state r) + jsonSize (Api.notifications r) <? 65536)%Z.

(** The handler on the store and the [parseInt] of the examples. *)
Definition sampleServe : Api.request -> string -> Api.store
                         -> Api.response * Api.store :=
  Api.serve sampleTakesKey sampleTakesValue sampleParseInt.

(** A POST of [state] for the table [tableId], with and without
    notifications, and a GET of the table. *)
Definition postState (tableId : string) (state : Api.json) : Api.request :=
  Api.mkRequest "/state" [] "POST"
    (Some (Api.JObj [("tableId", Api.JStr tableId); ("state", state)]%string)).

Definition postNotified (tableId : string) (state notes : Api.json)
  : Api.request :=
  Api.mkRequest "/state" [] "POST"
    (Some (Api.JObj [("tableId", Api.JStr tableId); ("state", state);
                     ("notifications", notes)]%string)).

Definition getSince (tableId since : string) : Api.request :=
  Api.mkRequest "/state"
    [("tableId", tableId); ("sinceVersion", since)]%string "GET" None.

Definition pot (n : Z) : Api.json :=
  Api.JObj [("pot", Api.JNum (inject_Z n))]%string.

(** A page that only counts the states applied to it, and a text of
    [lastVersion] for the examples: the decimal digits of a whole number. *)
Definition countApplied (payload : Api.json) (d : nat) : nat * bool :=
  (Datatypes.S d, false).

Definition sampleShow (v : Api.value) : string :=
  match v with
  | Some (Api.JNum n) => NilZero.string_of_int (Z.to_int (Qfloor n))
  | Some _ => "null"
  | None => "undefined"
  end.

(** A visible page: the first poll finds nothing new, the timer fires, the
    page is hidden during the second poll, which brings version 3, and
    shown again. *)
Definition session : list View.event :=
  [View.Settles View.NoContent; View.TimerFires 0;
   View.VisibilityChange false;
   View.Settles
     (View.Ok (Some (Api.JObj [("version", Api.JNum 3)]%string)));
   View.VisibilityChange true].

(** The store after a POST for the table [t1]. *)
Definition storeWithT1 : Api.store :=
  snd (sampleServe (postState "t1" (pot 50)) "2024-05-01T10:00:00.000Z"
         Api.empty).

(** A table id of 2040 characters. *)
Fixpoint repeatChar (n : nat) : string :=
  match n with
  | O => EmptyString
  | Datatypes.S n' => String "t"%char (repeatChar n')
  end.

Definition longTableId : string := repeatChar 2040.

(* ================================================================== *)
(** * Properties *)

(** ** Preflop hand score *)

Lemma Suit_eqb_sym (a b : Suit) : Suit_eqb a b = Suit_eqb b a.
Proof. destruct a, b; reflexivity. Qed.

Lemma Rank_eqb_eq (a b : Rank) : Rank_eqb a b = true <-> a = b.
Proof. destruct a, b; simpl; split; congruence. Qed.

Lemma orderIndex_inj (a b : Rank) : orderIndex a = orderIndex b -> a = b.
Proof. destruct a, b; simpl; intros E; try reflexivity; discriminate E. Qed.

(** C7: swapping the two hole cards leaves the preflop score unchanged. *)
Theorem preflopHandScore_symmetric (cardA cardB : card) :
  preflopHandScore cardA cardB = preflopHandScore cardB cardA.
Proof.
  destruct cardA as [ra sa], cardB as [rb sb].
  unfold preflopHandScore; simpl rankOf; simpl suitOf.
  destruct (Z.ltb_spec (orderIndex ra) (orderIndex rb)) as [Hab | Hab];
    destruct (Z.ltb_spec (orderIndex rb) (orderIndex ra)) as [Hba | Hba].
  - lia.
  - reflexivity.
  - reflexivity.
  - assert (E : ra = rb) by (apply orderIndex_inj; lia).
    subst rb. rewrite (Suit_eqb_sym sb sa). reflexivity.
Qed.

(** ** The examples of the specification *)

Example pocket_aces_score :
  preflopHandScore (mkCard RA Club) (mkCard RA Diamond) = 10.
Proof. reflexivity. Qed.

Example dry_board_texture : evaluateBoardTexture dryFlop = 0.
Proof. reflexivity. Qed.

Example wet_board_texture : evaluateBoardTexture wetFlop == 2 # 3.
Proof. reflexivity. Qed.

Example four_hearts_flush_draw :
  Draws.flushDraw (analyzeDrawPotential cardRank aceKingHearts twoHeartFlop) = true.
Proof. reflexivity. Qed.

Example made_flush_no_draw :
  Draws.flushDraw (analyzeDrawPotential cardRank aceKingHearts heartFlop) = false.
Proof. reflexivity. Qed.

(** ** Comparisons on numbers *)

Lemma Qleb_le (x y : Q) : (x <=? y) = true <-> x <= y.
Proof. unfold Qleb. apply Qle_bool_iff. Qed.

Lemma Qltb_lt (x y : Q) : (x <? y) = true <-> x < y.
Proof.
  unfold Qltb. rewrite negb_true_iff. split.
  - intros E. apply Qnot_le_lt. intros L. apply Qle_bool_iff in L. congruence.
  - intros L. destruct (Qle_bool y x) eqn:E; [|reflexivity].
    apply Qle_bool_iff in E. exfalso. apply (Qlt_not_le _ _ L E).
Qed.

Lemma Qltb_ge (x y : Q) : (x <? y) = false <-> y <= x.
Proof.
  unfold Qltb. rewrite negb_false_iff. apply Qle_bool_iff.
Qed.

Lemma Qgtb_gt (x y : Q) : (x >? y) = true <-> y < x.
Proof. apply (Qltb_lt y x). Qed.

Lemma Qgtb_le (x y : Q) : (x >? y) = false <-> x <= y.
Proof. apply (Qltb_ge y x). Qed.

Lemma Qgeb_ge (x y : Q) : (x >=? y) = true <-> y <= x.
Proof. apply (Qleb_le y x). Qed.

Lemma Math_max_spec (x y : Q) :
  x <= Math_max x y /\ y <= Math_max x y /\ (Math_max x y = x \/ Math_max x y = y).
Proof.
  unfold Math_max. destruct (x <? y) eqn:E.
  - apply Qltb_lt in E. repeat split; [lra | lra | now right].
  - apply Qltb_ge in E. repeat split; [lra | lra | now left].
Qed.

Lemma Math_min_spec (x y : Q) :
  Math_min x y <= x /\ Math_min x y <= y /\ (Math_min x y = x \/ Math_min x y = y).
Proof.
  unfold Math_min. destruct (y <? x) eqn:E.
  - apply Qltb_lt in E. repeat split; [lra | lra | now right].
  - apply Qltb_ge in E. repeat split; [lra | lra | now left].
Qed.

Lemma clamp01_id (x : Q) : 0 <= x -> x <= 1 -> Math_max 0 (Math_min 1 x) == x.
Proof.
  intros H0 H1. unfold Math_max, Math_min.
  destruct (x <? 1) eqn:E1.
  - destruct (0 <? x) eqn:E0; [reflexivity|]. apply Qltb_ge in E0. lra.
  - apply Qltb_ge in E1. change (0 <? 1) with true. cbv iota. lra.
Qed.

(** ** Counter objects, sets and sorting *)

Section Counting.

Context {A K : Type} (eqb : K -> K -> bool) (key : A -> K).
Hypothesis eqb_sound : forall a b, eqb a b = true -> a = b.

Local Open Scope Z_scope.

Lemma bump_total (k : K) (m : list (K * Z)) :
  total (bump eqb k m) = total m + 1.
Proof.
  unfold total, values. induction m as [|[k' v] t IH]; simpl.
  - reflexivity.
  - destruct (eqb k' k); simpl; lia.
Qed.

Lemma bump_positive (k : K) (m : list (K * Z)) :
  Forall (fun v => 1 <= v) (values m) ->
  Forall (fun v => 1 <= v) (values (bump eqb k m)).
Proof.
  induction m as [|[k' v] t IH]; simpl; intros F.
  - repeat constructor. lia.
  - inversion F; subst. destruct (eqb k' k); simpl; constructor; auto. lia.
Qed.

Lemma bump_nonempty (k : K) (m : list (K * Z)) : bump eqb k m <> [].
Proof. destruct m as [|[k' v] t]; simpl; [|destruct (eqb k' k)]; discriminate. Qed.

Lemma bump_fresh (k : K) (m : list (K * Z)) :
  ~ In k (map fst m) -> bump eqb k m = m ++ [(k, 1)].
Proof.
  induction m as [|[k' v] t IH]; simpl; intros N.
  - reflexivity.
  - destruct (eqb k' k) eqn:E.
    + apply eqb_sound in E. tauto.
    + rewrite IH; tauto.
Qed.

Lemma count_fold_total (l : list A) (m : list (K * Z)) :
  total (fold_left (fun m a => bump eqb (key a) m) l m) = total m + lengthZ l.
Proof.
  revert m. induction l as [|a l IH]; intros m; simpl.
  - unfold lengthZ. simpl. lia.
  - rewrite IH, bump_total. unfold lengthZ. simpl List.length. lia.
Qed.

Lemma count_fold_positive (l : list A) (m : list (K * Z)) :
  Forall (fun v => 1 <= v) (values m) ->
  Forall (fun v => 1 <= v) (values (fold_left (fun m a => bump eqb (key a) m) l m)).
Proof.
  revert m. induction l as [|a l IH]; intros m F; simpl; auto using bump_positive.
Qed.

Lemma count_fold_nonempty (l : list A) (m : list (K * Z)) :
  m <> [] -> fold_left (fun m a => bump eqb (key a) m) l m <> [].
Proof.
  revert m. induction l as [|a l IH]; intros m F; simpl; auto using bump_nonempty.
Qed.

Lemma count_fold_distinct (l : list A) (m : list (K * Z)) :
  NoDup (map fst m ++ map key l) ->
  Forall (fun v => v = 1) (values m) ->
  Forall (fun v => v = 1) (values (fold_left (fun m a => bump eqb (key a) m) l m)).
Proof.
  revert m. induction l as [|a l IH]; intros m N F; simpl; auto.
  simpl in N. pose proof (NoDup_remove_2 _ _ _ N) as Nk.
  assert (Hfresh : ~ In (key a) (map fst m)).
  { intros I. apply Nk. apply in_or_app. now left. }
  rewrite (bump_fresh _ _ Hfresh). apply IH.
  - rewrite map_app. simpl. rewrite <- app_assoc. simpl.
    exact N.
  - unfold values. rewrite map_app. apply Forall_app. split; auto.
    simpl. repeat constructor.
Qed.

End Counting.

Lemma fold_max_bounds (l : list Z) (x : Z) :
  (x <= fold_left Z.max l x)%Z /\
  Forall (fun y => y <= fold_left Z.max l x)%Z l /\
  (fold_left Z.max l x = x \/ In (fold_left Z.max l x) l).
Proof.
  revert x. induction l as [|y l IH]; intros x; simpl.
  - split; [lia | split; [constructor | now left]].
  - destruct (IH (Z.max x y)) as (H1 & H2 & H3). split; [|split].
    + lia.
    + constructor; [lia | exact H2].
    + destruct H3 as [E | I]; [|now right; right].
      rewrite E. destruct (Z.max_spec x y) as [[_ M] | [_ M]]; rewrite M; auto.
Qed.

Lemma member_le_sum (vs : list Z) (v : Z) :
  Forall (fun x => 1 <= x)%Z vs -> In v vs -> (v <= fold_right Z.add 0 vs)%Z.
Proof.
  induction 1 as [|x vs Hx F IH]; simpl; intros I; [contradiction|].
  assert (0 <= fold_right Z.add 0 vs)%Z.
  { clear -F. induction F; simpl; lia. }
  destruct I as [-> | I]; [lia | specialize (IH I); lia].
Qed.

Lemma maxCount_in (vs : list Z) : vs <> [] -> In (maxCount vs) vs.
Proof.
  destruct vs as [|x t]; [congruence|]. intros _.
  unfold maxCount, maxOf.
  destruct (fold_max_bounds t x) as (_ & _ & [E | I]); [left; auto | right; auto].
Qed.

Section CountBounds.

Context {A K : Type} (eqb : K -> K -> bool) (key : A -> K).
Hypothesis eqb_sound : forall a b, eqb a b = true -> a = b.

Lemma countBy_nonempty (l : list A) : l <> [] -> values (countBy eqb key l) <> [].
Proof.
  destruct l as [|a l]; [congruence|]. intros _ E.
  unfold countBy, values in E. simpl in E. apply map_eq_nil in E.
  revert E. apply count_fold_nonempty. discriminate.
Qed.

Lemma maxCount_countBy_bounds (l : list A) :
  l <> [] ->
  (1 <= maxCount (values (countBy eqb key l)) <= lengthZ l)%Z.
Proof.
  intros N. pose proof (maxCount_in _ (countBy_nonempty l N)) as I.
  assert (P : Forall (fun v => 1 <= v)%Z (values (countBy eqb key l))).
  { apply count_fold_positive. constructor. }
  split.
  - rewrite Forall_forall in P. apply P, I.
  - pose proof (member_le_sum _ _ P I) as L.
    fold (total (countBy eqb key l)) in L.
    unfold countBy in L. rewrite count_fold_total in L. exact L.
Qed.

Lemma maxCount_countBy_distinct (l : list A) :
  l <> [] -> NoDup (map key l) -> maxCount (values (countBy eqb key l)) = 1%Z.
Proof.
  intros N D. pose proof (maxCount_in _ (countBy_nonempty l N)) as I.
  assert (P : Forall (fun v => v = 1)%Z (values (countBy eqb key l))).
  { apply (count_fold_distinct eqb key eqb_sound); [exact D | constructor]. }
  rewrite Forall_forall in P. apply P, I.
Qed.

End CountBounds.

Lemma setOf_In (l : list Z) (x : Z) : In x (setOf l) <-> In x l.
Proof.
  induction l as [|y t IH]; simpl; [tauto|].
  rewrite filter_In, IH, negb_true_iff, Z.eqb_neq.
  destruct (Z.eq_dec y x); intuition congruence.
Qed.

Lemma filter_length_all {A : Type} (f : A -> bool) (l : list A) :
  List.length (filter f l) = List.length l -> forall y, In y l -> f y = true.
Proof.
  induction l as [|a t IH]; simpl; intros E y I; [contradiction|].
  pose proof (filter_length_le f t) as L.
  destruct (f a) eqn:Fa; simpl in E.
  - destruct I as [-> | I]; [exact Fa | apply IH; [lia | exact I]].
  - lia.
Qed.

Lemma setOf_length (l : list Z) : (List.length (setOf l) <= List.length l)%nat.
Proof.
  induction l as [|x t IH]; simpl; [lia|].
  pose proof (filter_length_le (fun y => negb (y =? x)%Z) (setOf t)). lia.
Qed.

Lemma setOf_length_NoDup (l : list Z) :
  List.length (setOf l) = List.length l -> NoDup l.
Proof.
  induction l as [|x t IH]; simpl; intros E; [constructor|].
  pose proof (filter_length_le (fun y => negb (y =? x)%Z) (setOf t)) as L1.
  pose proof (setOf_length t) as L2.
  constructor.
  - intros I. apply setOf_In in I.
    pose proof (filter_length_all (fun y => negb (y =? x)%Z) (setOf t)
                  ltac:(lia) x I) as F.
    simpl in F. rewrite Z.eqb_refl in F. discriminate.
  - apply IH. lia.
Qed.

Lemma insertSorted_length (x : Z) (l : list Z) :
  List.length (insertSorted x l) = Datatypes.S (List.length l).
Proof.
  induction l as [|y t IH]; simpl; [reflexivity|].
  destruct (x <=? y)%Z; simpl; [reflexivity | now rewrite IH].
Qed.

Lemma sortNum_length (l : list Z) : List.length (sortNum l) = List.length l.
Proof.
  induction l as [|x t IH]; simpl; [reflexivity|].
  now rewrite insertSorted_length, IH.
Qed.

Lemma insertSorted_In (x y : Z) (l : list Z) :
  In y (insertSorted x l) <-> y = x \/ In y l.
Proof.
  induction l as [|z t IH]; simpl; [intuition|].
  destruct (x <=? z)%Z; simpl; [intuition | rewrite IH; intuition].
Qed.

Lemma sortNum_In (y : Z) (l : list Z) : In y (sortNum l) <-> In y l.
Proof.
  induction l as [|x t IH]; simpl; [tauto|].
  rewrite insertSorted_In, IH. intuition.
Qed.

Lemma longestRun_bounds (l : list Z) (prev cur mx : Z) :
  (1 <= cur)%Z ->
  (mx <= longestRun prev l cur mx <= Z.max mx (cur + lengthZ l))%Z.
Proof.
  revert prev cur mx. induction l as [|x t IH]; intros prev cur mx Hcur; simpl.
  - unfold lengthZ; simpl. lia.
  - match goal with |- (_ <= longestRun x t ?c ?m <= _)%Z =>
      specialize (IH x c m); revert IH end.
    unfold lengthZ. simpl List.length. rewrite Nat2Z.inj_succ.
    destruct (x =? prev + 1)%Z;
      match goal with |- context [(?a >? ?b)%Z] =>
        destruct (Z.gtb_spec a b) end; lia.
Qed.

Lemma maxConsecutiveOf_bounds (u : list Z) :
  (1 <= maxConsecutiveOf u <= Z.max 1 (lengthZ u))%Z.
Proof.
  destruct u as [|x t]; simpl.
  - unfold lengthZ; simpl. lia.
  - pose proof (longestRun_bounds t x 1 1 ltac:(lia)) as B.
    unfold lengthZ in *. simpl List.length. rewrite Nat2Z.inj_succ. lia.
Qed.

(** ** Board texture *)

Lemma ZQ_div_le (a b k : Z) :
  (0 < b)%Z -> (a <= k * b)%Z -> ZQ a / ZQ b <= ZQ k.
Proof.
  intros Hb H. unfold ZQ. apply Qle_shift_div_r.
  - change 0 with (inject_Z 0). rewrite <- Zlt_Qlt. exact Hb.
  - rewrite <- inject_Z_mult, <- Zle_Qle. exact H.
Qed.

Lemma ZQ_div_nonneg (a b : Z) :
  (0 <= a)%Z -> (0 < b)%Z -> 0 <= ZQ a / ZQ b.
Proof.
  intros Ha Hb. unfold ZQ. apply Qle_shift_div_l.
  - change 0 with (inject_Z 0). rewrite <- Zlt_Qlt. exact Hb.
  - rewrite Qmult_0_l. change 0 with (inject_Z 0). rewrite <- Zle_Qle. exact Ha.
Qed.

Lemma Rank_eqb_sound (a b : Rank) : Rank_eqb a b = true -> a = b.
Proof. apply Rank_eqb_eq. Qed.

Lemma Suit_eqb_sound (a b : Suit) : Suit_eqb a b = true -> a = b.
Proof. destruct a, b; simpl; congruence. Qed.

Lemma rankMap_inj (a b : Rank) : rankMap a = rankMap b -> a = b.
Proof. destruct a, b; simpl; intros E; try reflexivity; discriminate E. Qed.

Section TextureBounds.

Variable board : list card.
Hypothesis enough : (3 <= lengthZ board)%Z.

Let nonempty : board <> [].
Proof. intros ->. unfold lengthZ in enough. simpl in enough. lia. Qed.

Lemma pairRisk_bounds : 0 <= pairRisk board <= 1.
Proof.
  unfold pairRisk.
  pose proof (maxCount_countBy_bounds Rank_eqb rankOf board nonempty) as B.
  destruct (Z.gtb_spec (maxCount (values (countBy Rank_eqb rankOf board))) 1).
  - split.
    + apply ZQ_div_nonneg; lia.
    + apply (ZQ_div_le _ _ 1); lia.
  - split; [apply Qle_refl | discriminate].
Qed.

Lemma suitRisk_bounds : 0 <= suitRisk board <= 1.
Proof.
  unfold suitRisk.
  pose proof (maxCount_countBy_bounds Suit_eqb suitOf board nonempty) as B.
  split.
  - apply ZQ_div_nonneg; lia.
  - apply (ZQ_div_le _ _ 1); lia.
Qed.

Lemma boardUnique_length :
  (lengthZ (boardUnique board) <= lengthZ board + 1)%Z /\
  ((lengthZ board < lengthZ (boardUnique board))%Z ->
   NoDup (map rankOf board)).
Proof.
  unfold boardUnique, lengthZ. rewrite sortNum_length.
  set (ranks := map (fun c => rankMap (rankOf c)) board).
  assert (Lr : List.length ranks = List.length board) by apply length_map.
  destruct (includes 14 ranks).
  - pose proof (setOf_length (ranks ++ [1%Z])) as L.
    rewrite length_app in L. simpl in L. split; [lia|].
    intros G. assert (E : List.length (setOf (ranks ++ [1%Z]))
                          = List.length (ranks ++ [1%Z])).
    { rewrite length_app. simpl. lia. }
    apply setOf_length_NoDup in E. apply NoDup_app_remove_r in E.
    unfold ranks in E. rewrite <- (map_map rankOf rankMap) in E.
    apply NoDup_map_inv in E. exact E.
  - pose proof (setOf_length ranks) as L. split; lia.
Qed.

Lemma connectedness_nonneg : 0 <= connectedness board.
Proof.
  unfold connectedness.
  destruct (maxConsecutiveOf (boardUnique board) >=? 3)%Z;
    [apply Math_max_spec | apply Qle_refl].
Qed.

Lemma texture_sum_le_3 :
  connectedness board + suitRisk board + pairRisk board <= 3.
Proof.
  pose proof suitRisk_bounds as [_ Hs].
  pose proof pairRisk_bounds as [_ Hp].
  pose proof (maxConsecutiveOf_bounds (boardUnique board)) as [_ Hc].
  destruct boardUnique_length as [Hu Hd].
  pose proof enough as Hn.
  unfold connectedness.
  destruct (Z.geb_spec (maxConsecutiveOf (boardUnique board)) 3) as [G | G];
    [| lra].
  set (c := maxConsecutiveOf (boardUnique board)) in *.
  set (n := lengthZ board) in *.
  clearbody c n.
  destruct (Math_max_spec 0 (ZQ (c - 2) / ZQ (n - 2))) as (_ & _ & [E | E]);
    rewrite E; [lra|].
  destruct (Z_le_gt_dec c n) as [Le | Gt].
  - assert (ZQ (c - 2) / ZQ (n - 2) <= ZQ 1)
      by (apply ZQ_div_le; clear - Hn Le; lia).
    change (ZQ 1) with 1 in *. lra.
  - assert (Hc2 : ZQ (c - 2) / ZQ (n - 2) <= ZQ 2)
      by (apply ZQ_div_le; clear - Hn Hc Hu; lia).
    change (ZQ 2) with 2 in *.
    assert (D : NoDup (map rankOf board)) by (apply Hd; clear - Hc Gt Hn; lia).
    assert (P0 : pairRisk board = 0).
    { unfold pairRisk.
      rewrite (maxCount_countBy_distinct Rank_eqb rankOf Rank_eqb_sound
                 board nonempty D). reflexivity. }
    rewrite P0. lra.
Qed.

Lemma evaluateBoardTexture_average :
  evaluateBoardTexture board
    == (connectedness board + suitRisk board + pairRisk board) / 3
  /\ 0 <= evaluateBoardTexture board <= 1.
Proof.
  pose proof suitRisk_bounds as [Hs0 _].
  pose proof pairRisk_bounds as [Hp0 _].
  pose proof connectedness_nonneg as Hc0.
  pose proof texture_sum_le_3 as H3.
  assert (H0 : 0 <= connectedness board + suitRisk board + pairRisk board)
    by lra.
  unfold evaluateBoardTexture.
  destruct (Z.ltb_spec (lengthZ board) 3) as [L | _]; [lia|].
  set (sum := connectedness board + suitRisk board + pairRisk board) in *.
  clearbody sum.
  assert (A0 : 0 <= sum / 3) by (apply Qle_shift_div_l; lra).
  assert (A1 : sum / 3 <= 1) by (apply Qle_shift_div_r; lra).
  assert (E : Math_max 0 (Math_min 1 (sum / 3)) == sum / 3)
    by (apply clamp01_id; assumption).
  split; [exact E | rewrite E; split; assumption].
Qed.

End TextureBounds.

(** ** The decision engine *)

Lemma roundTo10_nonpos (x : Q) : x <= 0 -> roundTo10 x <= 0.
Proof.
  intros H. unfold roundTo10, Math_round.
  assert (L : x / 10 + (1 # 2) <= 1 # 2).
  { assert (x / 10 <= 0); [|lra].
    apply Qle_shift_div_r; lra. }
  apply Qfloor_resp_le in L. change (Qfloor (1 # 2)) with 0%Z in L.
  rewrite Zle_Qle in L. change (inject_Z 0) with 0 in L. lra.
Qed.

Lemma sized_nonpos (chips x : Q) : chips <= 0 -> sized chips x -> x <= 0.
Proof.
  intros H [y ->]. apply roundTo10_nonpos.
  destruct (Math_min_spec chips y) as (L & _). lra.
Qed.

Lemma bind_run {A B : Type} (m : Rand A) (f : A -> Rand B) (n : nat) :
  bind m f n = f (fst (m n)) (snd (m n)).
Proof. unfold bind. destruct (m n); reflexivity. Qed.

Section EngineProperties.

Variable Card_rank : card -> Z.
Variable Hand_solve : list card -> Hand.t.
Variable Math_exp : Q -> Q.
Variable random : nat -> Q.
Variable player : Player.t.
Variable ctx : Ctx.t.
Variable board : list card.

Let chips := Player.chips player.
Let currentBet := Ctx.currentBet ctx.
Let lastRaise := Ctx.lastRaise ctx.
Let toCall := needToCall player ctx.
Let preflop_ := preflop board.
Let canRaise_ := canRaise player ctx.
Let shove_ := shove Hand_solve player ctx board.
Let branch := branchDecision Card_rank Hand_solve Math_exp random player ctx board.
Let first := firstDecision Card_rank Hand_solve Math_exp random player ctx board.
Let defend := allInDefense Hand_solve player ctx board.
Let bluff := bluffInjection Card_rank Hand_solve Math_exp random player ctx board.
Let overbet := overbetUpsize Card_rank Hand_solve random player ctx board.
Let slow := slowPlay Hand_solve random player board.
Let protect := protectBet Card_rank Hand_solve random player ctx board.
Let enforce := enforceMinRaise player ctx.
Let adjusted := adjustedDecision Card_rank Hand_solve Math_exp random player ctx board.
Let choose := chooseBotAction Card_rank Hand_solve Math_exp random player ctx board.

(** The stages of one decision, with the number of draws made. *)
Lemma adjusted_stages (n : nat) :
  exists d0 n0 d2 n2 d3 n3 d4 n4,
    first n = (d0, n0)
    /\ bluff (defend d0) n0 = (d2, n2)
    /\ overbet d2 n2 = (d3, n3)
    /\ slow d3 n3 = (d4, n4)
    /\ adjusted n = protect d4 n4.
Proof.
  unfold adjusted, first, bluff, defend, overbet, slow, protect,
    adjustedDecision, bind.
  destruct (firstDecision _ _ _ _ _ _ _ n) as [d0 n0].
  exists d0, n0.
  destruct (bluffInjection _ _ _ _ _ _ _ _ n0) as [d2 n2].
  exists d2, n2.
  destruct (overbetUpsize _ _ _ _ _ _ d2 n2) as [d3 n3].
  exists d3, n3.
  destruct (slowPlay _ _ _ _ d3 n3) as [d4 n4].
  exists d4, n4. repeat split.
Qed.

Lemma choose_final (n : nat) : fst (choose n) = enforce (fst (adjusted n)).
Proof.
  unfold choose, chooseBotAction, bind, ret. fold adjusted.
  destruct (adjusted n) as [d m]. reflexivity.
Qed.

Lemma enforce_raise (d : Decision) (a : Q) :
  enforce d = Raise a -> d = Raise a /\ toCall + lastRaise <= a.
Proof.
  unfold enforce, enforceMinRaise. fold toCall lastRaise.
  destruct d as [| | c | r]; try discriminate.
  destruct (r <? toCall + lastRaise) eqn:E.
  - destruct (toCall >? 0); discriminate.
  - intros H. inversion H; subst. split; [reflexivity|].
    apply Qltb_ge. exact E.
Qed.

Lemma enforce_downgrade (a : Q) :
  a < toCall + lastRaise ->
  enforce (Raise a)
  = if toCall >? 0 then Call (Math_min chips toCall) else Check.
Proof.
  intros L. unfold enforce, enforceMinRaise. fold toCall lastRaise chips.
  apply Qltb_lt in L. rewrite L. reflexivity.
Qed.

(** C1: a raise returned by [chooseBotAction] is at least the legal minimum
    [needToCall + lastRaise]; a raise chosen below it by the stages before
    is turned, as the last step, into a call, or into a check when nothing
    is owed. *)
Theorem returned_raise_meets_minimum (n : nat) :
  (forall a, fst (choose n) = Raise a -> toCall + lastRaise <= a)
  /\ (forall a, fst (adjusted n) = Raise a -> a < toCall + lastRaise ->
      fst (choose n)
      = if toCall >? 0 then Call (Math_min chips toCall) else Check).
Proof.
  split; intros a H.
  - rewrite choose_final in H. apply enforce_raise in H. apply H.
  - intros L. rewrite choose_final, H. apply enforce_downgrade, L.
Qed.

(** *** The shape of each stage *)

Let sized_ := sized chips.

Lemma valueBetSize_sized (n : nat) :
  sized_ (fst (valueBetSize Card_rank Hand_solve random player ctx board n)).
Proof. unfold valueBetSize, bind, ret, Math_random. simpl. eexists. reflexivity. Qed.

Lemma bluffBetSize_sized (n : nat) :
  sized_ (fst (bluffBetSize Card_rank Hand_solve random player ctx board n)).
Proof. unfold bluffBetSize, bind, ret, Math_random. simpl. eexists. reflexivity. Qed.

Lemma protectionBetSize_sized (n : nat) :
  sized_ (fst (protectionBetSize Card_rank Hand_solve random player ctx board n)).
Proof. unfold protectionBetSize, bind, ret, Math_random. simpl. eexists. reflexivity. Qed.

Lemma overBetSize_sized (n : nat) :
  sized_ (fst (overBetSize Card_rank Hand_solve random player ctx board n)).
Proof. unfold overBetSize, bind, ret, Math_random. simpl. eexists. reflexivity. Qed.

(** The branches return a check only when nothing is owed, a call of
    [min(chips, needToCall)], a fold, or, when raising is allowed, a raise
    floored at [currentBet + lastRaise]. *)
Lemma branch_shape (n : nat) :
  (fst (branch n) = Check /\ toCall <= 0)
  \/ (fst (branch n) = Call (Math_min chips toCall) /\ 0 < toCall)
  \/ (fst (branch n) = Fold /\ 0 < toCall)
  \/ (canRaise_ = true /\
      exists b, sized_ b /\
                fst (branch n) = Raise (Math_max (currentBet + lastRaise) b)).
Proof.
  unfold branch, branchDecision. fold toCall canRaise_.
  destruct (toCall <=? 0) eqn:N.
  - apply Qleb_le in N.
    destruct canRaise_; cbn [andb]; [|left; auto].
    destruct (strength Hand_solve player board >=? _); [|left; auto].
    rewrite bind_run.
    pose proof (valueBetSize_sized n) as Hs.
    destruct (Math_abs _ <=? _).
    + rewrite bind_run. unfold ret, Math_random; cbn [fst snd].
      destruct (random _ <? 0.5); [left; auto|].
      right; right; right. split; [reflexivity|]. eexists. split; [exact Hs|].
      reflexivity.
    + unfold ret; cbn [fst].
      right; right; right. split; [reflexivity|]. eexists. split; [exact Hs|].
      reflexivity.
  - assert (P : 0 < toCall).
    { apply Qnot_le_lt. intros L. apply Qleb_le in L. congruence. }
    clear N. fold (callAmt player ctx). unfold callAmt. fold chips toCall.
    destruct (canRaise_ && _ && _) eqn:R.
    + apply andb_prop in R. destruct R as [R _].
      apply andb_prop in R. destruct R as [R _].
      rewrite bind_run.
      pose proof (protectionBetSize_sized n) as Hs.
      destruct (Math_abs _ <=? _).
      * rewrite bind_run. unfold ret, Math_random; cbn [fst snd].
        destruct (random _ <? 0.5).
        -- right; right; right. split; [exact R|]. eexists.
           split; [exact Hs | reflexivity].
        -- destruct (oddsJustified _ _ _ _ _ _); auto.
      * unfold ret; cbn [fst].
        right; right; right. split; [exact R|]. eexists.
        split; [exact Hs | reflexivity].
    + destruct (oddsJustified _ _ _ _ _ _); [|unfold ret; cbn [fst]; auto].
      destruct (abs_diff_leb _ _ _); [|unfold ret; cbn [fst]; auto].
      rewrite bind_run. unfold ret, Math_random; cbn [fst snd].
      destruct (random n <? 0.5); auto.
Qed.

Lemma shove_shape : shove_ = None \/ shove_ = Some (Raise chips).
Proof.
  unfold shove_, shove. fold chips.
  destruct (_ && _); [now right|]. destruct (_ && _); [now right | now left].
Qed.

Lemma first_shape (n : nat) :
  (shove_ = Some (Raise chips) /\ fst (first n) = Raise chips)
  \/ (shove_ = None /\ fst (first n) = fst (branch n)).
Proof.
  unfold first, firstDecision. fold shove_ branch.
  destruct shove_shape as [E | E]; rewrite E; [right | left]; auto.
Qed.

Lemma defend_shape (d : Decision) :
  defend d = d \/ (d = Fold /\ defend d = Call (Math_min chips toCall)).
Proof.
  unfold defend, allInDefense. fold chips toCall.
  destruct d; cbn [isFold andb]; auto.
  destruct (facingAllIn player ctx); auto.
  destruct (_ >=? _); auto.
Qed.

Lemma bluff_shape (d : Decision) (n : nat) :
  fst (bluff d n) = d
  \/ (canRaise_ = true /\ (d = Check \/ d = Fold) /\
      exists b, sized_ b /\
                fst (bluff d n) = Raise (Math_max (currentBet + lastRaise) b)).
Proof.
  unfold bluff, bluffInjection. fold canRaise_.
  destruct (_ && canRaise_ && _ && _) eqn:G; [|now left].
  apply andb_prop in G. destruct G as [G _].
  apply andb_prop in G. destruct G as [G K].
  apply andb_prop in G. destruct G as [_ R].
  rewrite bind_run. unfold Math_random; cbn [fst snd].
  destruct (random n <? _); [|now left].
  rewrite bind_run. unfold ret; cbn [fst].
  right. split; [exact R|]. split.
  - destruct d; simpl in K; try discriminate; auto.
  - eexists. split; [apply bluffBetSize_sized | reflexivity].
Qed.

Lemma overbet_shape (d : Decision) (n : nat) :
  fst (overbet d n) = d
  \/ (preflop_ = false /\
      exists a o, sized_ o /\ d = Raise a /\
                  fst (overbet d n) = Raise (Math_max a o)).
Proof.
  unfold overbet, overbetUpsize. fold preflop_.
  destruct d as [| | c | a]; try (now left).
  destruct (negb preflop_ && _ && _) eqn:G; [|now left].
  apply andb_prop in G. destruct G as [G _].
  apply andb_prop in G. destruct G as [G _].
  apply negb_true_iff in G.
  rewrite bind_run. unfold Math_random; cbn [fst snd].
  destruct (random n <? _); [|now left].
  rewrite bind_run. unfold ret; cbn [fst].
  right. split; [exact G|]. exists a. eexists.
  split; [apply overBetSize_sized | split; reflexivity].
Qed.

Lemma slow_shape (d : Decision) (n : nat) :
  fst (slow d n) = d
  \/ (preflop_ = false /\ isRaise d = true
      /\ (strengthRatio Hand_solve player board >=? 0.9) = true
      /\ fst (slow d n) = Check).
Proof.
  unfold slow, slowPlay. fold preflop_.
  destruct (negb preflop_ && _ && _) eqn:G; [|now left].
  apply andb_prop in G. destruct G as [G R].
  apply andb_prop in G. destruct G as [G T].
  apply negb_true_iff in G.
  rewrite bind_run. unfold ret, Math_random; cbn [fst snd].
  destruct (random n <? _); [|now left].
  right. auto.
Qed.

Lemma protect_shape (d : Decision) (n : nat) :
  fst (protect d n) = d
  \/ (preflop_ = false /\ currentBet == 0 /\ d = Check /\
      exists b, sized_ b /\ fst (protect d n) = Raise (Math_max lastRaise b)).
Proof.
  unfold protect, protectBet. fold preflop_ currentBet lastRaise.
  destruct (negb preflop_ && _ && _) eqn:G; [|now left].
  apply andb_prop in G. destruct G as [G K].
  apply andb_prop in G. destruct G as [G Z].
  apply negb_true_iff in G. apply Qeq_bool_iff in Z.
  rewrite bind_run. unfold Math_random; cbn [fst snd].
  destruct (random n <? _); [|now left].
  rewrite bind_run. unfold ret; cbn [fst].
  right. repeat split; auto.
  - destruct d; simpl in K; try discriminate; reflexivity.
  - eexists. split; [apply protectionBetSize_sized | reflexivity].
Qed.

(** *** Where a returned raise comes from *)

Ltac stages n :=
  let d0 := fresh "d0" in let n0 := fresh "n0" in
  let d2 := fresh "d2" in let n2 := fresh "n2" in
  let d3 := fresh "d3" in let n3 := fresh "n3" in
  let d4 := fresh "d4" in let n4 := fresh "n4" in
  let E0 := fresh "E0" in let E2 := fresh "E2" in
  let E3 := fresh "E3" in let E4 := fresh "E4" in
  let EA := fresh "EA" in
  destruct (adjusted_stages n)
    as (d0 & n0 & d2 & n2 & d3 & n3 & d4 & n4 & E0 & E2 & E3 & E4 & EA);
  pose proof (first_shape n) as S0; rewrite E0 in S0; cbn [fst] in S0;
  pose proof (branch_shape n) as SB;
  pose proof (defend_shape d0) as S1;
  pose proof (bluff_shape (defend d0) n0) as S2; rewrite E2 in S2;
  cbn [fst] in S2;
  pose proof (overbet_shape d2 n2) as S3; rewrite E3 in S3; cbn [fst] in S3;
  pose proof (slow_shape d3 n3) as S4; rewrite E4 in S4; cbn [fst] in S4;
  pose proof (protect_shape d4 n4) as S5; rewrite <- EA in S5.

(** A raise is returned only when raising is allowed, or by the shove
    rule, or by the post-flop bet on a table without a bet. *)
Lemma raise_origin (n : nat) (a : Q) :
  fst (choose n) = Raise a ->
  canRaise_ = true
  \/ shove_ = Some (Raise chips)
  \/ (preflop_ = false /\ currentBet == 0).
Proof.
  intros H. rewrite choose_final in H. apply enforce_raise in H.
  destruct H as [H _]. stages n.
  destruct S5 as [S5 | (P & Z & _)]; [|now right; right].
  rewrite H in S5. subst d4.
  destruct S4 as [S4 | (_ & _ & _ & S4)]; [|discriminate].
  subst d3.
  assert (R2 : isRaise d2 = true).
  { destruct S3 as [S3 | (_ & x & o & _ & S3 & _)]; subst; reflexivity. }
  destruct S2 as [S2 | (C & _)]; [|now left].
  rewrite S2 in R2.
  assert (R0 : isRaise d0 = true).
  { destruct S1 as [S1 | (_ & S1)]; rewrite S1 in R2; [exact R2 | discriminate]. }
  destruct S0 as [(S & _) | (_ & S0)]; [now right; left|].
  rewrite S0 in R0.
  destruct SB as [(B & _) | [(B & _) | [(B & _) | (C & _)]]];
    try (rewrite B in R0; discriminate).
  now left.
Qed.

(** A check is returned only when nothing is owed, or by the slow-play
    of a post-flop raise. *)
Lemma check_origin (n : nat) :
  fst (choose n) = Check ->
  toCall <= 0
  \/ (preflop_ = false
      /\ (strengthRatio Hand_solve player board >=? 0.9) = true).
Proof.
  intros H. rewrite choose_final in H. stages n.
  destruct (fst (adjusted n)) as [| | c | r] eqn:D; try discriminate.
  - destruct S5 as [S5 | (_ & _ & _ & b & _ & S5)]; [|discriminate].
    subst d4.
    destruct S4 as [S4 | (P & _ & T & _)]; [|now right].
    subst d3.
    destruct S3 as [S3 | (_ & x & o & _ & _ & S3)]; [|discriminate].
    subst d2.
    destruct S2 as [S2 | (_ & _ & b & _ & S2)]; [|discriminate].
    destruct S1 as [S1 | (_ & S1)]; [|congruence].
    rewrite S1 in S2. subst d0.
    destruct S0 as [(_ & S0) | (_ & S0)]; [discriminate|].
    destruct SB as [(_ & B) | [(B & _) | [(B & _) | (_ & b & _ & B)]]];
      try congruence.
    now left.
  - left. unfold enforce, enforceMinRaise in H. fold toCall in H.
    destruct (r <? _); [|discriminate].
    destruct (toCall >? 0) eqn:G; [discriminate|].
    apply Qgtb_le in G. exact G.
Qed.

(** Every call returned is a call of [min(chips, needToCall)]. *)
Lemma call_origin (n : nat) (a : Q) :
  fst (choose n) = Call a -> a = Math_min chips toCall.
Proof.
  intros H. rewrite choose_final in H. stages n.
  destruct (fst (adjusted n)) as [| | c | r] eqn:D; try discriminate.
  - cbn in H. inversion H; subst c. clear H.
    destruct S5 as [S5 | (_ & _ & _ & b & _ & S5)]; [|discriminate].
    subst d4.
    destruct S4 as [S4 | (_ & _ & _ & S4)]; [|discriminate].
    subst d3.
    destruct S3 as [S3 | (_ & x & o & _ & _ & S3)]; [|discriminate].
    subst d2.
    destruct S2 as [S2 | (_ & _ & b & _ & S2)]; [|discriminate].
    destruct S1 as [S1 | (_ & S1)]; [|congruence].
    rewrite S1 in S2. subst d0.
    destruct S0 as [(_ & S0) | (_ & S0)]; [discriminate|].
    destruct SB as [(B & _) | [(B & _) | [(B & _) | (_ & b & _ & B)]]];
      congruence.
  - unfold enforce, enforceMinRaise in H. fold toCall chips in H.
    destruct (r <? _); [|discriminate].
    destruct (toCall >? 0); [|discriminate].
    congruence.
Qed.

(** Call amounts never exceed the stack. *)
Lemma call_capped_at_stack (n : nat) (a : Q) :
  fst (choose n) = Call a -> a <= chips.
Proof.
  intros H. rewrite (call_origin n a H). apply Math_min_spec.
Qed.

(** The raise decided before the last step, when raising is not
    allowed, commits the stack, possibly raised to an overbet size, or is
    the post-flop bet floored at [lastRaise]. *)
Lemma adjusted_raise_without_permission (n : nat) (a : Q) :
  canRaise_ = false ->
  fst (adjusted n) = Raise a ->
  a = chips
  \/ (exists o, sized_ o /\ a = Math_max chips o)
  \/ (exists b, sized_ b /\ a = Math_max lastRaise b).
Proof.
  intros NR D. stages n. rewrite NR in *.
  destruct S5 as [S5 | (_ & _ & _ & b & Hb & S5)];
    [| right; right; exists b; split; [exact Hb | congruence]].
  rewrite D in S5. subst d4.
  destruct S4 as [S4 | (_ & _ & _ & S4)]; [|discriminate].
  subst d3.
  assert (R2 : isRaise d2 = true).
  { destruct S3 as [S3 | (_ & x & o & _ & S3 & _)];
      [rewrite <- S3 | rewrite S3]; reflexivity. }
  assert (R0 : d2 = Raise chips).
  { destruct S2 as [S2 | (C & _)]; [|discriminate].
    rewrite S2 in R2 |- *.
    destruct S1 as [S1 | (_ & S1)]; [|rewrite S1 in R2; discriminate].
    rewrite S1 in R2 |- *.
    destruct S0 as [(_ & S0) | (_ & S0)]; [exact S0|].
    rewrite S0 in R2.
    destruct SB as [(B & _) | [(B & _) | [(B & _) | (C & _)]]];
      try (rewrite B in R2; discriminate). discriminate. }
  destruct S3 as [S3 | (_ & x & o & Ho & S3 & S3')].
  - left. congruence.
  - right; left. exists o. split; [exact Ho|]. congruence.
Qed.

(** *** Raising without permission *)

Lemma canRaise_short_stack : chips <= Ctx.bigBlind ctx -> canRaise_ = false.
Proof.
  intros H. unfold canRaise_, canRaise, blindLevel_big. fold chips.
  apply Qgtb_le in H. rewrite H. apply andb_false_r.
Qed.

Lemma canRaise_cap_reached :
  (MAX_RAISES_PER_ROUND <= Ctx.raisesThisRound ctx)%Z -> canRaise_ = false.
Proof.
  intros H. unfold canRaise_, canRaise.
  apply Z.ltb_ge in H. rewrite H. reflexivity.
Qed.

Lemma without_permission :
  canRaise_ = false ->
  (forall n, isRaise (fst (branch n)) = false)
  /\ (forall d n, fst (bluff d n) = d)
  /\ (forall n a, fst (choose n) = Raise a ->
      shove_ = Some (Raise chips) \/ (preflop_ = false /\ currentBet == 0)).
Proof.
  intros NR. repeat split.
  - intros n.
    destruct (branch_shape n)
      as [(B & _) | [(B & _) | [(B & _) | (C & _)]]];
      try (rewrite B; reflexivity). congruence.
  - intros d n. destruct (bluff_shape d n) as [B | (C & _)]; congruence.
  - intros n a H. destruct (raise_origin n a H) as [C | R]; [congruence | exact R].
Qed.

(** C10: a player whose stack does not exceed the big blind is not
    allowed to raise: the branches of the decision logic return no raise
    and bluff injection leaves the decision unchanged; a raise can only
    come from the shove rule or from the post-flop bet on a table without
    a bet. *)
Theorem short_stack_raises_only_by_shove_or_protect :
  chips <= Ctx.bigBlind ctx ->
  canRaise_ = false
  /\ (forall n, isRaise (fst (branch n)) = false)
  /\ (forall d n, fst (bluff d n) = d)
  /\ (forall n a, fst (choose n) = Raise a ->
      shove_ = Some (Raise chips) \/ (preflop_ = false /\ currentBet == 0)).
Proof.
  intros H. pose proof (canRaise_short_stack H) as NR.
  split; [exact NR | apply without_permission, NR].
Qed.

(** With the raise cap reached, the only raises left are those of the
    shove rule and of the post-flop bet. *)
Lemma capped_round_raise_origin (n : nat) (a : Q) :
  (MAX_RAISES_PER_ROUND <= Ctx.raisesThisRound ctx)%Z ->
  fst (choose n) = Raise a ->
  shove_ = Some (Raise chips) \/ (preflop_ = false /\ currentBet == 0).
Proof.
  intros H. apply without_permission, canRaise_cap_reached, H.
Qed.

(** *** An empty stack facing a bet *)

(** With no chips and a bet to call the stack ratio is [Infinity], which
    fails the comparisons it enters.  The engine then folds or calls 0, the
    whole stack; the only other action it can return is the check that the
    slow-play step puts in the place of a post-flop raise. *)
Lemma empty_stack_facing_bet :
  chips == 0 -> 0 < toCall -> 0 <= lastRaise -> 0 <= Ctx.bigBlind ctx ->
  stackRatio player ctx = PInf
  /\ oddsJustified Card_rank Hand_solve Math_exp player ctx board = false
  /\ forall n,
      foldOrAllIn chips (fst (choose n))
      \/ (fst (choose n) = Check
          /\ preflop_ = false
          /\ (strengthRatio Hand_solve player board >=? 0.9) = true).
Proof.
  intros Hc Hn Hl Hb.
  assert (SR : stackRatio player ctx = PInf).
  { unfold stackRatio, jsdiv. fold toCall chips.
    assert (E1 : (chips =? 0) = true) by (apply Qeq_bool_iff; exact Hc).
    assert (E2 : (toCall =? 0) = false).
    { destruct (toCall =? 0) eqn:E; [|reflexivity].
      apply Qeq_bool_iff in E. lra. }
    assert (E3 : (0 <? toCall) = true) by (apply Qltb_lt; exact Hn).
    rewrite E1, E2, E3. reflexivity. }
  split; [exact SR|]. split.
  { unfold oddsJustified. rewrite SR. cbn [ratio_leb]. apply andb_false_r. }
  assert (NR : canRaise_ = false) by (apply canRaise_short_stack; lra).
  intros n. destruct (fst (choose n)) as [| | c | a] eqn:H.
  - left. exact I.
  - right. split; [reflexivity|].
    destruct (check_origin n H) as [L | Q]; [lra | exact Q].
  - left. cbn [foldOrAllIn]. rewrite (call_origin n c H).
    unfold Math_min.
    assert (E : (toCall <? chips) = false) by (apply Qltb_ge; lra).
    rewrite E. reflexivity.
  - exfalso.
    pose proof H as H'. rewrite choose_final in H'.
    apply enforce_raise in H'. destruct H' as [D M].
    destruct (adjusted_raise_without_permission n a NR D)
      as [E | [(o & Ho & E) | (b & Hb' & E)]].
    + rewrite E in M. lra.
    + apply (sized_nonpos chips) in Ho; [|lra].
      destruct (Math_max_spec chips o) as (_ & _ & [X | X]);
        rewrite E, X in M; lra.
    + apply (sized_nonpos chips) in Hb'; [|lra].
      destruct (Math_max_spec lastRaise b) as (_ & _ & [X | X]);
        rewrite E, X in M; lra.
Qed.

End EngineProperties.

(* ================================================================== *)
(** ** The action queue *)

Section SchedulerProperties.

Import Scheduler.
Local Open Scope Z_scope.

Let D := BOT_ACTION_DELAY.

Lemma spaced_last_le (d a b : Z) (ts : list Z) :
  spaced d (ts ++ [a]) -> a <= b -> spaced d (ts ++ [b]).
Proof.
  intros H L. induction ts as [|t [|t' r] IH]; simpl in *.
  - auto.
  - destruct H as [H _]. repeat split; auto. lia.
  - destruct H as [H H']. split; [exact H | apply IH, H'].
Qed.

Lemma spaced_snoc (d a b : Z) (ts : list Z) :
  spaced d (ts ++ [a]) -> a + d <= b -> spaced d ((ts ++ [a]) ++ [b]).
Proof.
  intros H L. induction ts as [|t [|t' r] IH]; simpl in *.
  - repeat split; auto.
  - destruct H as [H _]. repeat split; auto.
  - destruct H as [H H']. split; [exact H | apply IH, H'].
Qed.

Lemma spaced_init (d a : Z) (ts : list Z) :
  spaced d (ts ++ [a]) -> spaced d ts.
Proof.
  intros H. induction ts as [|t [|t' r] IH]; simpl in *.
  - exact I.
  - auto.
  - destruct H as [H H']. split; [exact H | apply IH, H'].
Qed.

Lemma spaced_after (d n : Z) (ts : list Z) :
  spaced d ts -> Forall (fun t => t <= n) ts -> spaced d (ts ++ [n + d]).
Proof.
  intros H F. induction ts as [|t [|t' r] IH]; simpl in *.
  - auto.
  - inversion F; subst. repeat split; auto. lia.
  - destruct H as [H H']. inversion F; subst.
    split; [exact H | apply IH; assumption].
Qed.

Lemma enqueue_while_processing (fn : callback) (s : state) :
  processingBotActions s = true ->
  enqueueBotAction fn s
  = mkState (botActionQueue s ++ [fn]) true (timers s) (now s)
            (enqueued s ++ [(now s, label fn)]) (executed s).
Proof.
  intros P. unfold enqueueBotAction. simpl. rewrite P. reflexivity.
Qed.

Lemma spawn_while_processing (cs : list callback) (s : state) :
  processingBotActions s = true ->
  fold_left (fun s c => enqueueBotAction c s) cs s
  = mkState (botActionQueue s ++ cs) true (timers s) (now s)
            (enqueued s ++ map (fun c => (now s, label c)) cs) (executed s).
Proof.
  revert s. induction cs as [|c cs IH]; intros s P; simpl.
  - rewrite !app_nil_r. destruct s; simpl in *. congruence.
  - rewrite (enqueue_while_processing c s P). rewrite IH by reflexivity.
    simpl. rewrite <- !app_assoc. reflexivity.
Qed.


Lemma init_invariant (t0 : Z) : invariant (init t0) /\ live (init t0).
Proof.
  split.
  - exists [], []. simpl. repeat split; auto; constructor.
  - split; [reflexivity | discriminate].
Qed.

(** Assembling the invariant from its parts. *)
Lemma invariant_intro (s : state) (done pend : list (Z * nat)) :
  enqueued s = done ++ pend ->
  Forall2 delayed done (executed s) ->
  map snd pend = map label (botActionQueue s) ->
  Forall (fun e => fst e <= now s) pend ->
  Forall (fun x => fst x <= now s) (executed s) ->
  timerInvariant s pend ->
  invariant s.
Proof. intros. exists done, pend. auto 10. Qed.

Lemma enqueue_invariant (t : Z) (fn : callback) (s : state) :
  invariant s -> now s <= t ->
  invariant (enqueueBotAction fn (at_time t s)).
Proof.
  destruct s as [q p tm nw enq exe].
  intros (done & pend & E & F2 & M & Fp & Fx & TI) L. simpl in *.
  assert (Fp' : Forall (fun e => fst e <= t) pend).
  { eapply Forall_impl; [|exact Fp]. simpl. intros; lia. }
  assert (Fx' : Forall (fun x => fst x <= t) exe).
  { eapply Forall_impl; [|exact Fx]. simpl. intros; lia. }
  unfold timerInvariant in TI. simpl in TI.
  unfold enqueueBotAction, at_time, setTimeout. simpl.
  destruct p; simpl.
  - apply (invariant_intro _ done (pend ++ [(t, label fn)])); simpl; auto.
    + rewrite E, app_assoc. reflexivity.
    + rewrite !map_app, M. reflexivity.
    + apply Forall_app. split; [exact Fp'|]. repeat constructor. simpl. lia.
    + unfold timerInvariant. simpl.
      destruct tm as [|due [|? ?]]; [| |contradiction].
      * destruct TI as [TI _]. split; [exact TI | discriminate].
      * destruct TI as (TP & TS & TH). repeat split; auto.
        destruct pend; [contradiction | exact TH].
  - assert (tm = [] /\ q = [] /\ spaced D (map fst exe)) as (-> & -> & SP).
    { destruct tm as [|due [|? ?]]; [| |contradiction].
      - destruct TI as [TS TQ]. auto.
      - destruct TI as (TP & _). discriminate. }
    destruct pend; [|discriminate].
    apply (invariant_intro _ done [(t, label fn)]); simpl; auto.
    + rewrite E, app_nil_r. reflexivity.
    + repeat constructor. simpl. lia.
    + unfold timerInvariant. simpl. repeat split; [|lia].
      apply spaced_after; [exact SP|].
      rewrite Forall_map. exact Fx'.
Qed.

Lemma timeout_invariant (t due : Z) (rest : list Z) (s : state) :
  invariant s -> timers s = due :: rest -> now s <= t -> due <= t ->
  invariant (processBotQueue
               (mkState (botActionQueue s) (processingBotActions s) rest t
                        (enqueued s) (executed s))).
Proof.
  destruct s as [q p tm nw enq exe].
  intros (done & pend & E & F2 & M & Fp & Fx & TI) T L Ld. simpl in *.
  subst tm. unfold timerInvariant in TI. simpl in TI.
  destruct rest as [|? ?]; [|contradiction].
  destruct TI as (-> & SP & TH).
  destruct pend as [|e pend]; [contradiction|].
  destruct q as [|fn q]; [discriminate|].
  simpl in M. inversion M as [[Ml Mq]]. clear M.
  inversion Fp as [|? ? Fe Fp']; subst.
  unfold processBotQueue. simpl.
  rewrite spawn_while_processing by reflexivity. simpl.
  set (pend' := pend ++ map (fun c => (t, label c)) (spawns fn)).
  assert (E' : (done ++ e :: pend) ++ map (fun c => (t, label c)) (spawns fn)
               = (done ++ [e]) ++ pend').
  { unfold pend'. rewrite <- !app_assoc. reflexivity. }
  assert (F2' : Forall2 delayed (done ++ [e]) (exe ++ [(t, label fn)])).
  { apply Forall2_app; [exact F2|]. repeat constructor; simpl; [exact Ml | lia]. }
  assert (M' : map snd pend' = map label (q ++ spawns fn)).
  { unfold pend'. rewrite !map_app, Mq, map_map. reflexivity. }
  assert (P' : Forall (fun x => fst x <= t) pend').
  { unfold pend'. apply Forall_app. split.
    - eapply Forall_impl; [|exact Fp']. simpl. intros; lia.
    - rewrite Forall_map. apply Forall_forall. simpl. intros; lia. }
  assert (X' : Forall (fun x => fst x <= t) (exe ++ [(t, label fn)])).
  { apply Forall_app. split.
    - eapply Forall_impl; [|exact Fx]. simpl. intros; lia.
    - repeat constructor. simpl. lia. }
  assert (SP' : spaced D (map fst (exe ++ [(t, label fn)]))).
  { rewrite map_app. simpl. apply (spaced_last_le _ due); assumption. }
  destruct (throws fn).
  - apply (invariant_intro _ (done ++ [e]) pend'); simpl; auto.
    unfold timerInvariant. simpl. split; [exact SP' | discriminate].
  - destruct (Z.ltb_spec 0 (lengthZ (q ++ spawns fn))) as [G | G].
    + apply (invariant_intro _ (done ++ [e]) pend'); simpl; auto.
      unfold timerInvariant, setTimeout. simpl. repeat split.
      * rewrite map_app in *. simpl in *. apply spaced_snoc; [exact SP' | lia].
      * destruct pend' as [|e' ?].
        -- simpl in M'. symmetry in M'. apply map_eq_nil in M'.
           rewrite M' in G. unfold lengthZ in G. simpl in G. lia.
        -- inversion P'; subst. lia.
    + assert (Q0 : q ++ spawns fn = []).
      { destruct (q ++ spawns fn); [reflexivity|].
        unfold lengthZ in G. simpl in G. lia. }
      rewrite Q0 in *.
      apply (invariant_intro _ (done ++ [e]) pend'); simpl; auto.
      unfold timerInvariant. simpl. split; [exact SP' | reflexivity].
Qed.

Lemma step_invariant (s s' : state) (e : event) :
  invariant s -> step s e = Some s' -> invariant s'.
Proof.
  intros I. destruct e as [t fn | t]; simpl.
  - destruct (Z.ltb_spec t (now s)); [discriminate|].
    intros Hs. inversion Hs. apply enqueue_invariant; assumption.
  - destruct (timers s) as [|due rest] eqn:T; [discriminate|].
    destruct (Z.ltb_spec t (now s)); [discriminate|].
    destruct (Z.ltb_spec t due); [discriminate|]. simpl.
    intros Hs. inversion Hs. apply (timeout_invariant t due); assumption.
Qed.





(** Safety does not need the callbacks to return. *)
Lemma run_invariant_any (es : list event) (s s' : state) :
  invariant s -> run s es = Some s' -> invariant s'.
Proof.
  revert s. induction es as [|e es IH]; intros s I; simpl.
  - intros Hs. inversion Hs; subst. auto.
  - destruct (step s e) as [s1|] eqn:St; [|discriminate].
    apply IH. eapply step_invariant; eauto.
Qed.

Lemma delayed_labels (done exe : list (Z * nat)) :
  Forall2 delayed done exe -> map snd done = map snd exe.
Proof.
  induction 1 as [|e x done exe [L _] F IH]; simpl; [reflexivity|].
  now rewrite L, IH.
Qed.

Lemma invariant_fifo (s : state) :
  invariant s ->
  map snd (executed s) ++ map label (botActionQueue s) = map snd (enqueued s)
  /\ Forall2 delayed (firstn (List.length (executed s)) (enqueued s))
                     (executed s)
  /\ spaced D (map fst (executed s)).
Proof.
  intros (done & pend & E & F2 & M & Fp & Fx & TI). repeat split.
  - rewrite E, map_app, M, (delayed_labels _ _ F2). reflexivity.
  - rewrite E, <- (Forall2_length F2), firstn_app, firstn_all, Nat.sub_diag.
    simpl. rewrite app_nil_r. exact F2.
  - unfold timerInvariant in TI.
    destruct (timers s) as [|due [|? ?]]; [| |contradiction].
    + apply TI.
    + destruct TI as (_ & SP & _). apply (spaced_init _ due), SP.
Qed.





(** *** Exact times *)



Lemma paced_length (d : Z) (enq exe : list (Z * nat)) :
  forall prev, paced d prev enq exe -> List.length enq = List.length exe.
Proof.
  revert exe. induction enq as [|e enq IH]; intros [|x exe] prev H;
    simpl in *; try contradiction; [reflexivity|].
  destruct H as (_ & _ & H). f_equal. apply (IH _ _ H).
Qed.


Lemma paced_labels (d : Z) (enq exe : list (Z * nat)) :
  forall prev, paced d prev enq exe -> map snd enq = map snd exe.
Proof.
  revert exe. induction enq as [|e enq IH]; intros [|x exe] prev H;
    simpl in *; try contradiction; [reflexivity|].
  destruct H as (L & _ & H). rewrite L, (IH _ _ H). reflexivity.
Qed.












End SchedulerProperties.


(** Once the queue is marked as processing with no timer pending, nothing
    is executed any more, whatever happens next. *)
Lemma stalled_forever (es : list Scheduler.event) (s s' : Scheduler.state) :
  Scheduler.processingBotActions s = true ->
  Scheduler.timers s = [] ->
  Scheduler.run s es = Some s' ->
  Scheduler.executed s' = Scheduler.executed s
  /\ Scheduler.processingBotActions s' = true
  /\ Scheduler.timers s' = [].
Proof.
  revert s. induction es as [|e es IH]; intros s P T; simpl.
  - intros H. inversion H; subst. auto.
  - destruct e as [t fn | t]; simpl.
    + destruct (t <? Scheduler.now s)%Z; [discriminate|].
      intros H. apply IH in H.
      * rewrite (proj1 H). split; [|apply H].
        unfold Scheduler.enqueueBotAction; simpl. rewrite P. reflexivity.
      * unfold Scheduler.enqueueBotAction; simpl. rewrite P. reflexivity.
      * unfold Scheduler.enqueueBotAction; simpl. rewrite P. exact T.
    + rewrite T. discriminate.
Qed.

(** A callback enqueued from inside a callback waits its turn behind the
    queue: 1 (which enqueues 9), 2, then 9. *)
Example nested_enqueue_order :
  Scheduler.executed
    (finalState [Scheduler.Enqueue 0 (chained 1); Scheduler.Enqueue 0 (action 2);
                 Scheduler.Timeout 1500; Scheduler.Timeout 3000;
                 Scheduler.Timeout 4500])
  = [(1500, 1%nat); (3000, 2%nat); (4500, 9%nat)]%Z.
Proof. vm_compute. reflexivity. Qed.


(* ================================================================== *)
(** ** The engine on the sample hands *)

Ltac qdec :=
  match goal with
  | |- _ <= _ => apply Qle_bool_iff; vm_compute; reflexivity
  | |- _ < _ => apply Qlt_alt; vm_compute; reflexivity
  | |- _ == _ => apply Qeq_bool_iff; vm_compute; reflexivity
  end.

(** A shove of 100 over the minimum raise of 60 is returned as it is; a
    shove of 20 under it is returned as a call of 20. *)
Lemma returned_raise_meets_minimum_witness :
  (sampleAction [] acesShort (acesShortTable 0) [] = Raise 100
   /\ needToCall acesShort (acesShortTable 0)
      + Ctx.lastRaise (acesShortTable 0) <= 100)
  /\ sampleAction [] acesTiny acesTinyTable [] = Call 20.
Proof.
  split.
  - split; [vm_compute; reflexivity|].
    apply (proj1 (returned_raise_meets_minimum cardRank sampleSolve sampleExp
                    (draws []) acesShort (acesShortTable 0) [] 0%nat) 100).
    vm_compute. reflexivity.
  - unfold sampleAction.
    rewrite (proj2 (returned_raise_meets_minimum cardRank sampleSolve sampleExp
                      (draws []) acesTiny acesTinyTable [] 0%nat) 20).
    + vm_compute. reflexivity.
    + vm_compute. reflexivity.
    + qdec.
Defined.

(** C2 on the code: in the big blind with 30 chips behind and nothing to
    call, king-ten raises; the sized bet of 30 is floored at
    [currentBet + lastRaise = 40] and the engine returns a raise of 40, more
    than the stack. *)
Lemma raise_exceeds_stack :
  sampleAction [0.5] kingTenBlind kingTenTable [] = Raise 40
  /\ Player.chips kingTenBlind < 40
  /\ fst (valueBetSize cardRank sampleSolve (draws [0.5])
                        kingTenBlind kingTenTable [] 0%nat) == 30.
Proof.
  split; [vm_compute; reflexivity|]. split; qdec.
Qed.

(** Rounding after the cap can also leave the stack behind: a stack of 25
    capped against a bet of 27.6 rounds to 30. *)
Lemma rounding_can_exceed_cap : roundTo10 (Math_min 25 27.6) == 30.
Proof. reflexivity. Qed.

(** C3 on the code: with three raises already made this round, pocket aces
    with 100 chips behind still shove. *)
Lemma shove_ignores_raise_cap :
  Ctx.raisesThisRound (acesShortTable 3) = MAX_RAISES_PER_ROUND
  /\ canRaise acesShort (acesShortTable 3) = false
  /\ sampleAction [] acesShort (acesShortTable 3) [] = Raise 100.
Proof. repeat split; vm_compute; reflexivity. Qed.

(** The post-flop bet is not stopped by the raise cap either. *)
Lemma protect_bet_ignores_raise_cap :
  canRaise rags (table rags 0 40 3 1) = false
  /\ sampleAction [0.1; 0.5] rags (table rags 0 40 3 1) dryFlop = Raise 20.
Proof. split; vm_compute; reflexivity. Qed.

(** C4 on the code: facing a bet of 40 with a royal flush, the protection
    raise is slow-played into a check. *)
Lemma slow_play_checks_facing_bet :
  0 < needToCall nutsDeep nutsDeepTable
  /\ fst (adjustedDecision cardRank sampleSolve sampleExp (draws [0.5; 0.9])
                            nutsDeep nutsDeepTable heartFlop 0%nat) = Raise 90
  /\ sampleAction [0.5; 0.1] nutsDeep nutsDeepTable heartFlop = Check.
Proof.
  split; [qdec|]. split; vm_compute; reflexivity.
Qed.

(** ** Straight draws *)

(** What the loop over the windows computes: the draw flag is raised when
    the first window holding four or five of the ranks holds exactly four,
    whatever the later windows hold. *)
Lemma scanStraights_first_window (unique : list Z) (seqs : list (list Z)) :
  scanStraights unique seqs false = true <->
  exists pre seq post,
    seqs = pre ++ seq :: post
    /\ windowCount unique seq = 4%Z
    /\ Forall (fun w => windowCount unique w <> 4%Z /\ windowCount unique w <> 5%Z) pre.
Proof.
  induction seqs as [|w seqs IH]; simpl.
  - split; [discriminate|]. intros (pre & seq & post & E & _).
    destruct pre; discriminate.
  - destruct (Z.eqb_spec (windowCount unique w) 5) as [E5 | N5].
    + split; [discriminate|]. intros (pre & seq & post & E & C & F).
      destruct pre as [|p pre]; simpl in E; inversion E; subst.
      * lia.
      * inversion F as [|? ? [_ Hp] _]; subst. contradiction.
    + destruct (Z.eqb_spec (windowCount unique w) 4) as [E4 | N4].
      * split; [|reflexivity]. intros _. exists [], w, seqs. auto.
      * rewrite IH. split.
        -- intros (pre & seq & post & E & C & F).
           exists (w :: pre), seq, post. subst. repeat split; auto.
        -- intros (pre & seq & post & E & C & F).
           destruct pre as [|p pre]; simpl in E; inversion E; subst.
           ++ contradiction.
           ++ inversion F; subst. exists pre, seq, post. auto.
Qed.

(** C5 on the code: with 3-4 in hand on the flop 5-6-7 the window 3..7 is
    complete, a made straight; the loop stops before it, at the window 2..6,
    which holds four ranks, and reports a straight draw. *)
Lemma made_straight_reported_as_draw :
  Draws.straightDraw (analyzeDrawPotential cardRank threeFour fiveSixSeven) = true
  /\ windowCount (uniqueRanks cardRank (fst threeFour :: snd threeFour :: fiveSixSeven))
                 [3; 4; 5; 6; 7]%Z = 5%Z
  /\ In [3; 4; 5; 6; 7]%Z straights
  /\ straightDrawSpec
       (uniqueRanks cardRank (fst threeFour :: snd threeFour :: fiveSixSeven))
     = false.
Proof.
  split; [vm_compute; reflexivity|]. split; [vm_compute; reflexivity|].
  split; [|vm_compute; reflexivity].
  unfold straights. simpl. tauto.
Qed.

(** The report of [made_straight_reported_as_draw] does not depend on how
    the evaluator numbers the ranks, as long as 3, 4, 5, 6, 7 are numbered
    consecutively from some [k] in 2..10: the window starting at [k - 1]
    holds four ranks and comes first. *)
Lemma made_straight_any_numbering (Card_rank : card -> Z) (k : Z) :
  (2 <= k <= 10)%Z ->
  map Card_rank (fst threeFour :: snd threeFour :: fiveSixSeven)
  = [k; k + 1; k + 2; k + 3; k + 4]%Z ->
  Draws.straightDraw (analyzeDrawPotential Card_rank threeFour fiveSixSeven) = true.
Proof.
  intros K E. unfold analyzeDrawPotential, uniqueRanks. cbn [Draws.straightDraw].
  rewrite E.
  assert (C : (k = 2 \/ k = 3 \/ k = 4 \/ k = 5 \/ k = 6 \/ k = 7 \/ k = 8
               \/ k = 9 \/ k = 10)%Z) by lia.
  repeat destruct C as [C | C]; subst k; vm_compute; reflexivity.
Qed.

(** ** The properties on the sample tables *)

(** Without chips and facing a bet of 40, pocket aces shove 0 before the
    flop, which the last step turns into a call of 0. *)
Lemma empty_stack_facing_bet_witness :
  stackRatio acesBroke acesBrokeTable = PInf
  /\ sampleAction [] acesBroke acesBrokeTable [] = Call 0
  /\ foldOrAllIn (Player.chips acesBroke)
       (sampleAction [] acesBroke acesBrokeTable []).
Proof.
  destruct (empty_stack_facing_bet cardRank sampleSolve sampleExp (draws [])
              acesBroke acesBrokeTable [])
    as (SR & _ & K); try qdec.
  split; [exact SR|]. split; [vm_compute; reflexivity|].
  destruct (K 0%nat) as [F | (C & _)]; [exact F|].
  vm_compute in C. discriminate.
Defined.

(** C6: without chips, facing a bet of 40 with a royal flush on the flop,
    the engine returns a check, which is neither a fold nor an all-in: the
    shove of 0 is replaced by the slow-play step, which does not look at
    the bet owed. *)
Theorem empty_stack_can_check :
  Player.chips nutsBroke == 0
  /\ 0 < needToCall nutsBroke nutsBrokeTable
  /\ stackRatio nutsBroke nutsBrokeTable = PInf
  /\ sampleAction [0.1] nutsBroke nutsBrokeTable heartFlop = Check
  /\ ~ foldOrAllIn (Player.chips nutsBroke)
        (sampleAction [0.1] nutsBroke nutsBrokeTable heartFlop)
  /\ sampleAction [0.9] nutsBroke nutsBrokeTable heartFlop = Call 0.
Proof.
  split; [qdec|]. split; [qdec|]. split; [vm_compute; reflexivity|].
  assert (E : sampleAction [0.1] nutsBroke nutsBrokeTable heartFlop = Check)
    by (vm_compute; reflexivity).
  split; [exact E|]. split; [rewrite E; simpl; tauto|].
  vm_compute. reflexivity.
Qed.

(** One big blind behind: raising is not allowed, and the raise returned
    with pocket aces is the shove. *)
Lemma short_stack_raises_only_by_shove_or_protect_witness :
  Player.chips acesBlind <= Ctx.bigBlind acesBlindTable
  /\ canRaise acesBlind acesBlindTable = false
  /\ sampleAction [] acesBlind acesBlindTable [] = Raise 20
  /\ (shove sampleSolve acesBlind acesBlindTable [] = Some (Raise 20)
      \/ (preflop [] = false /\ Ctx.currentBet acesBlindTable == 0)).
Proof.
  assert (H : Player.chips acesBlind <= Ctx.bigBlind acesBlindTable) by qdec.
  destruct (short_stack_raises_only_by_shove_or_protect
              cardRank sampleSolve sampleExp (draws [])
              acesBlind acesBlindTable [] H) as (C & _ & _ & R).
  split; [exact H|]. split; [exact C|]. split; [vm_compute; reflexivity|].
  apply (R 0%nat 20). vm_compute. reflexivity.
Defined.

(** The other raise left to such a player: the post-flop bet, here with
    seven-deuce on a dry flop. *)
Lemma short_stack_protect_bet :
  Player.chips rags <= Ctx.bigBlind ragsTable
  /\ shove sampleSolve rags ragsTable dryFlop = None
  /\ sampleAction [0.1; 0.5] rags ragsTable dryFlop = Raise 20.
Proof.
  split; [qdec|]. split; vm_compute; reflexivity.
Qed.

(* ================================================================== *)
(** * Further properties of the engine *)

(** ** Preflop scores *)

Lemma clamp_0_10 (s : Q) : 0 <= Math_min 10 (if s <? 0 then 0 else s) <= 10.
Proof.
  destruct (Math_min_spec 10 (if s <? 0 then 0 else s)) as (L1 & L2 & [E | E]);
    destruct (s <? 0) eqn:N; rewrite E in L1, L2 |- *; split;
    try lra; try apply Qle_refl.
  apply Qltb_ge in N. exact N.
Qed.

(** X1: the preflop score lies between 0 and 10, and a pocket pair scores
    at least 6 (its doubled base is floored at 5, and a pair is "connected"). *)
Theorem preflopHandScore_range (cardA cardB : card) :
  (0 <= preflopHandScore cardA cardB <= 10)
  /\ (rankOf cardA = rankOf cardB -> 6 <= preflopHandScore cardA cardB).
Proof.
  split.
  - unfold preflopHandScore.
    destruct (orderIndex (rankOf cardA) <? orderIndex (rankOf cardB))%Z;
      cbv zeta beta iota; apply clamp_0_10.
  - destruct cardA as [ra sa], cardB as [rb sb]. simpl. intros ->.
    destruct rb; unfold preflopHandScore; simpl;
      destruct (Suit_eqb sa sb); apply Qle_bool_iff; reflexivity.
Qed.

Lemma preflopHandScore_range_witness :
  6 <= preflopHandScore (mkCard R2 Club) (mkCard R2 Diamond).
Proof.
  apply (proj2 (preflopHandScore_range (mkCard R2 Club) (mkCard R2 Diamond))).
  reflexivity.
Defined.

(** X2: two cards of one suit score at least as much as the same ranks in
    two different suits. *)
Theorem suited_scores_at_least_offsuit (r1 r2 : Rank) (s s1 s2 : Suit) :
  preflopHandScore (mkCard r1 s1) (mkCard r2 s2)
  <= preflopHandScore (mkCard r1 s) (mkCard r2 s).
Proof.
  assert (Es : Suit_eqb s s = true) by (destruct s; reflexivity).
  destruct r1, r2; unfold preflopHandScore; simpl; rewrite Es;
    destruct (Suit_eqb s1 s2); destruct (Suit_eqb s2 s1);
    apply Qle_bool_iff; reflexivity.
Qed.

(** ** Rounding and bet sizes *)

Lemma tenth_times_10 (x : Q) : x / 10 * 10 == x.
Proof. field. Qed.

Lemma Math_round_bounds (y : Q) :
  y - (1 # 2) < Math_round y /\ Math_round y <= y + (1 # 2).
Proof.
  unfold Math_round.
  pose proof (Qfloor_le (y + (1 # 2))) as L.
  pose proof (Qlt_floor (y + (1 # 2))) as U.
  rewrite inject_Z_plus in U. change (inject_Z 1) with 1 in U. split; lra.
Qed.

Lemma Math_round_Z (k : Z) : Math_round (inject_Z k) = inject_Z k.
Proof.
  unfold Math_round. f_equal.
  pose proof (Qfloor_le (inject_Z k + (1 # 2))) as L.
  pose proof (Qlt_floor (inject_Z k + (1 # 2))) as U.
  set (f := Qfloor (inject_Z k + (1 # 2))) in *.
  assert (L' : inject_Z f < inject_Z (k + 1)).
  { rewrite inject_Z_plus. change (inject_Z 1) with 1. lra. }
  assert (U' : inject_Z k < inject_Z (f + 1)) by lra.
  rewrite <- Zlt_Qlt in L', U'. lia.
Qed.

Lemma roundTo10_facts (x : Q) :
  (exists k : Z, roundTo10 x = inject_Z k * 10)
  /\ (x - 5 < roundTo10 x /\ roundTo10 x <= x + 5)
  /\ (forall y, x <= y -> roundTo10 x <= roundTo10 y)
  /\ (forall k : Z, roundTo10 (inject_Z k * 10) == inject_Z k * 10).
Proof.
  repeat split.
  - eexists. reflexivity.
  - unfold roundTo10. pose proof (Math_round_bounds (x / 10)) as [L _].
    pose proof (tenth_times_10 x). lra.
  - unfold roundTo10. pose proof (Math_round_bounds (x / 10)) as [_ U].
    pose proof (tenth_times_10 x). lra.
  - intros y H. unfold roundTo10, Math_round.
    assert (L : x / 10 + (1 # 2) <= y / 10 + (1 # 2)).
    { pose proof (tenth_times_10 x). pose proof (tenth_times_10 y). lra. }
    apply Qfloor_resp_le in L. rewrite Zle_Qle in L. lra.
  - intros k. unfold roundTo10.
    assert (E : inject_Z k * 10 / 10 == inject_Z k) by field.
    unfold Math_round. rewrite E. fold (Math_round (inject_Z k)).
    rewrite Math_round_Z. reflexivity.
Qed.

(** X3: [roundTo10] returns a multiple of 10 at most 5 away from its
    argument (halves go up), is monotone, and leaves multiples of 10
    unchanged. *)
Theorem roundTo10_nearest (x : Q) :
  (exists k : Z, roundTo10 x = inject_Z k * 10)
  /\ (x - 5 < roundTo10 x /\ roundTo10 x <= x + 5)
  /\ (forall y, x <= y -> roundTo10 x <= roundTo10 y)
  /\ (forall k : Z, roundTo10 (inject_Z k * 10) == inject_Z k * 10).
Proof. exact (roundTo10_facts x). Qed.

Lemma roundTo10_nearest_witness : roundTo10 14 <= roundTo10 26.
Proof.
  apply (proj1 (proj2 (proj2 (roundTo10_nearest 14)))). lra.
Defined.

Lemma clamp_min_max (lo hi e : Q) :
  lo <= hi -> lo <= Math_min hi (Math_max lo e) <= hi.
Proof.
  intros H. destruct (Math_max_spec lo e) as (A & _ & _).
  destruct (Math_min_spec hi (Math_max lo e)) as (B & _ & [E | E]);
    rewrite E in B |- *; split; lra.
Qed.

Lemma clamp_max_min (lo hi e : Q) :
  lo <= hi -> lo <= Math_max lo (Math_min hi e) <= hi.
Proof.
  intros H. destruct (Math_min_spec hi e) as (A & _ & _).
  destruct (Math_max_spec lo (Math_min hi e)) as (B & _ & [E | E]);
    rewrite E in B |- *; split; lra.
Qed.

Lemma sizedWithin_bounds (chips base lo hi x : Q) :
  sizedWithin chips base lo hi x ->
  (exists k : Z, x = inject_Z k * 10)
  /\ x <= chips + 5
  /\ (0 <= chips -> 0 <= base -> 0 <= lo -> 0 <= x)
  /\ (forall m : Z, chips == inject_Z m * 10 -> x <= chips).
Proof.
  intros (f & [Lf Hf] & ->).
  destruct (Math_min_spec chips (base * f)) as (M1 & M2 & M3).
  destruct (roundTo10_facts (Math_min chips (base * f)))
    as (K & [N1 N2] & Mono & _).
  repeat split.
  - exact K.
  - lra.
  - intros C B L.
    assert (P : 0 <= base * f) by (apply Qmult_le_0_compat; lra).
    assert (Z0 : 0 <= Math_min chips (base * f)).
    { destruct M3 as [E | E]; rewrite E; assumption. }
    destruct (roundTo10_facts 0) as (_ & _ & Mono0 & Fix0).
    specialize (Mono0 _ Z0). specialize (Fix0 0%Z).
    assert (R0 : roundTo10 0 == 0) by reflexivity.
    lra.
  - intros m E.
    destruct (roundTo10_facts (inject_Z m * 10)) as (_ & _ & _ & Fix).
    specialize (Fix m).
    assert (L : Math_min chips (base * f) <= inject_Z m * 10) by lra.
    apply Mono in L. lra.
Qed.

Section SizingProperties.

Variable Card_rank : card -> Z.
Variable Hand_solve : list card -> Hand.t.
Variable random : nat -> Q.
Variable player : Player.t.
Variable ctx : Ctx.t.
Variable board : list card.

Let chips := Player.chips player.
Let stake := Ctx.pot ctx + needToCall player ctx.

Lemma sizing_ranges (n : nat) :
  sizedWithin chips stake 0.35 1
    (fst (valueBetSize Card_rank Hand_solve random player ctx board n))
  /\ sizedWithin chips stake 0.2 0.45
       (fst (bluffBetSize Card_rank Hand_solve random player ctx board n))
  /\ sizedWithin chips stake 0.35 0.8
       (fst (protectionBetSize Card_rank Hand_solve random player ctx board n))
  /\ sizedWithin chips stake 1.1 1.5
       (fst (overBetSize Card_rank Hand_solve random player ctx board n)).
Proof.
  repeat split.
  - unfold valueBetSize, bind, ret, Math_random. cbn [fst].
    eexists. split; [|reflexivity]. apply clamp_min_max. lra.
  - unfold bluffBetSize, bind, ret, Math_random. cbn [fst].
    eexists. split; [|reflexivity]. apply clamp_min_max. lra.
  - unfold protectionBetSize, bind, ret, Math_random. cbn [fst].
    eexists. split; [|reflexivity]. apply clamp_min_max. lra.
  - unfold overBetSize, bind, ret, Math_random. cbn [fst].
    eexists. split; [|reflexivity]. apply clamp_max_min. lra.
Qed.

(** X4: each sizing function bets a share of [pot + needToCall] inside its
    own range, capped at the stack and rounded: 0.35..1 for a value bet,
    0.2..0.45 for a bluff, 0.35..0.8 for a protection bet and 1.1..1.5 for
    an overbet. *)
Theorem bet_sizes_within_their_ranges (n : nat) :
  sizedWithin chips stake 0.35 1
    (fst (valueBetSize Card_rank Hand_solve random player ctx board n))
  /\ sizedWithin chips stake 0.2 0.45
       (fst (bluffBetSize Card_rank Hand_solve random player ctx board n))
  /\ sizedWithin chips stake 0.35 0.8
       (fst (protectionBetSize Card_rank Hand_solve random player ctx board n))
  /\ sizedWithin chips stake 1.1 1.5
       (fst (overBetSize Card_rank Hand_solve random player ctx board n)).
Proof. exact (sizing_ranges n). Qed.

(** X5: every sized bet is a multiple of 10 and at most 5 above the stack;
    with a non-negative stack and a non-negative [pot + needToCall] it is not
    negative, and when the stack is itself a multiple of 10 it does not
    exceed the stack. *)
Theorem sized_bets_and_the_stack (n : nat) (size : Rand Q) :
  In size [valueBetSize Card_rank Hand_solve random player ctx board;
           bluffBetSize Card_rank Hand_solve random player ctx board;
           protectionBetSize Card_rank Hand_solve random player ctx board;
           overBetSize Card_rank Hand_solve random player ctx board] ->
  (exists k : Z, fst (size n) = inject_Z k * 10)
  /\ fst (size n) <= chips + 5
  /\ (0 <= chips -> 0 <= stake -> 0 <= fst (size n))
  /\ (forall m : Z, chips == inject_Z m * 10 -> fst (size n) <= chips).
Proof.
  intros I. destruct (sizing_ranges n) as (V & B & P & O).
  simpl in I.
  destruct I as [<- | [<- | [<- | [<- | []]]]];
    match goal with
    | H : sizedWithin _ _ ?lo _ (fst (?f n)) |- context [fst (?f n)] =>
        destruct (sizedWithin_bounds _ _ _ _ _ H) as (K & U & N & M);
        repeat split; auto; intros; apply N; auto; lra
    end.
Qed.

End SizingProperties.

Lemma sized_bets_and_the_stack_witness :
  fst (valueBetSize cardRank sampleSolve (draws [0.5])
         kingTenBlind kingTenTable [] 0%nat)
  <= Player.chips kingTenBlind.
Proof.
  refine (proj2 (proj2 (proj2
    (sized_bets_and_the_stack cardRank sampleSolve (draws [0.5])
       kingTenBlind kingTenTable [] 0%nat _ _))) 3%Z _).
  - simpl. left. reflexivity.
  - reflexivity.
Defined.

(** ** Seats and position *)

Lemma findIndexFrom_bounds {A : Type} (pred : A -> bool) (l : list A) (i : Z) :
  findIndexFrom pred l i = (-1)%Z
  \/ (i <= findIndexFrom pred l i < i + lengthZ l)%Z.
Proof.
  revert i. induction l as [|x t IH]; intros i; simpl; [now left|].
  unfold lengthZ. simpl List.length. rewrite Nat2Z.inj_succ.
  destruct (pred x); [right; lia|].
  destruct (IH (i + 1)%Z) as [E | B]; [now left | right].
  unfold lengthZ in B. lia.
Qed.

Lemma indexOf_bounds (l : list Player.t) (x : option Player.t) :
  (-1 <= indexOf l x < lengthZ l)%Z \/ (l = [] /\ indexOf l x = (-1)%Z).
Proof.
  destruct x as [p|]; simpl.
  - unfold findIndex. destruct (findIndexFrom_bounds (Player.same p) l 0) as [E | B].
    + rewrite E. destruct l; [now right | left].
      unfold lengthZ. simpl List.length. lia.
    + left. lia.
  - destruct l; [now right | left]. unfold lengthZ. simpl List.length. lia.
Qed.

Lemma positionFactor_bounds (player : Player.t) (ctx : Ctx.t) :
  ((0 < lengthZ (active ctx))%Z ->
     (0 <= pos player ctx < lengthZ (active ctx))%Z)
  /\ 0 <= positionFactor player ctx <= 1.
Proof.
  assert (P : (0 < lengthZ (active ctx))%Z ->
              (0 <= pos player ctx < lengthZ (active ctx))%Z).
  { intros L. unfold pos.
    destruct (indexOf_bounds (active ctx) (Some player)) as [S | [E _]];
      [|rewrite E in L; unfold lengthZ in L; simpl in L; lia].
    destruct (indexOf_bounds (active ctx) (firstToAct ctx)) as [R | [E _]];
      [|rewrite E in L; unfold lengthZ in L; simpl in L; lia].
    fold (seatIdx player ctx) in S. fold (refIdx ctx) in R.
    apply Z.rem_bound_pos; lia. }
  split; [exact P|].
  unfold positionFactor.
  destruct (Z.gtb_spec (lengthZ (active ctx)) 1) as [G | G].
  - specialize (P ltac:(lia)). split.
    + apply ZQ_div_nonneg; lia.
    + apply (ZQ_div_le _ _ 1); lia.
  - split; [apply Qle_refl | discriminate].
Qed.

(** X6: the position of the bot among the active players lies in
    [0, active.length), and the position factor between 0 and 1. *)
Theorem positionFactor_between_0_and_1 (player : Player.t) (ctx : Ctx.t) :
  ((0 < lengthZ (active ctx))%Z ->
     (0 <= pos player ctx < lengthZ (active ctx))%Z)
  /\ 0 <= positionFactor player ctx <= 1.
Proof. exact (positionFactor_bounds player ctx). Qed.

Lemma positionFactor_between_0_and_1_witness :
  (0 <= pos kingTenBlind kingTenTable < 2)%Z.
Proof.
  apply (proj1 (positionFactor_between_0_and_1 kingTenBlind kingTenTable)).
  reflexivity.
Defined.

Section NextActive.

Variable ctx : Ctx.t.
Let players := Ctx.players ctx.

Lemma nextActiveLoop_finds (startIdx : Z) (steps : list nat) :
  (exists i q, In i steps
     /\ at_ players (Z.rem (startIdx + Z.of_nat i) (lengthZ players)) = Some q
     /\ Player.folded q = false) ->
  exists p, nextActiveLoop ctx startIdx steps = Some p
            /\ In p players /\ Player.folded p = false.
Proof.
  induction steps as [|i rest IH]; intros (j & q & I & A & F).
  - destruct I.
  - simpl. fold players.
    destruct (at_ players (Z.rem (startIdx + Z.of_nat i) (lengthZ players)))
      as [p|] eqn:E.
    + destruct (Player.folded p) eqn:Fp; simpl.
      * apply IH. destruct I as [-> | I]; [congruence|].
        exists j, q. auto.
      * exists p. repeat split; auto.
        unfold at_ in E. destruct (_ <? 0)%Z; [discriminate|].
        eapply nth_error_In; eauto.
    + apply IH. destruct I as [-> | I]; [congruence|].
      exists j, q. auto.
Qed.

(** X7: started from the index of a seat, or from -1, [nextActive] returns
    a player of the table who has not folded, whenever there is one. *)
Theorem nextActive_finds_an_active_player (startIdx : Z) :
  (-1 <= startIdx < lengthZ players)%Z ->
  (exists q, In q players /\ Player.folded q = false) ->
  exists p, nextActive ctx startIdx = Some p
            /\ In p players /\ Player.folded p = false.
Proof.
  intros B (q & I & F). unfold nextActive. fold players.
  apply nextActiveLoop_finds.
  apply In_nth_error in I. destruct I as [k K].
  assert (Kn : (k < List.length players)%nat).
  { apply nth_error_Some. congruence. }
  set (n := lengthZ players) in *.
  assert (Hn : n = Z.of_nat (List.length players)) by reflexivity.
  set (i := ((Z.of_nat k - startIdx - 1) mod n + 1)%Z).
  assert (Bi : (1 <= i <= n)%Z).
  { unfold i. pose proof (Z.mod_pos_bound (Z.of_nat k - startIdx - 1) n). lia. }
  exists (Z.to_nat i), q. repeat split; auto.
  - apply in_seq. lia.
  - rewrite Z2Nat.id by lia.
    assert (R : Z.rem (startIdx + i) n = Z.of_nat k).
    { rewrite Z.rem_mod_nonneg by lia. unfold i.
      replace (startIdx + ((Z.of_nat k - startIdx - 1) mod n + 1))%Z
        with ((startIdx + 1) + (Z.of_nat k - startIdx - 1) mod n)%Z by lia.
      rewrite Zplus_mod_idemp_r.
      replace (startIdx + 1 + (Z.of_nat k - startIdx - 1))%Z
        with (Z.of_nat k) by lia.
      apply Z.mod_small. lia. }
    rewrite R. unfold at_.
    destruct (Z.ltb_spec (Z.of_nat k) 0); [lia|].
    rewrite Nat2Z.id. exact K.
Qed.

End NextActive.

Lemma nextActive_finds_an_active_player_witness :
  exists p, nextActive kingTenTable 0 = Some p
            /\ In p (Ctx.players kingTenTable) /\ Player.folded p = false.
Proof.
  apply nextActive_finds_an_active_player.
  - vm_compute. split; [discriminate | reflexivity].
  - exists kingTenBlind. split; [left; reflexivity | reflexivity].
Defined.

(** ** What the engine returns, and when *)

Section EngineOutcomes.

Variable Card_rank : card -> Z.
Variable Hand_solve : list card -> Hand.t.
Variable Math_exp : Q -> Q.
Variable random : nat -> Q.
Variable player : Player.t.
Variable ctx : Ctx.t.
Variable board : list card.

Let chips := Player.chips player.
Let toCall := needToCall player ctx.
Let choose := chooseBotAction Card_rank Hand_solve Math_exp random player ctx board.
Let adjusted := adjustedDecision Card_rank Hand_solve Math_exp random player ctx board.
Let defend := allInDefense Hand_solve player ctx board.
Let goodThreshold :=
  if preflop board then ALLIN_HAND_PREFLOP else ALLIN_HAND_POSTFLOP.

Ltac outcome_stages n :=
  destruct (adjusted_stages Card_rank Hand_solve Math_exp random player ctx board n)
    as (d0 & n0 & d2 & n2 & d3 & n3 & d4 & n4 & E0 & E2 & E3 & E4 & EA);
  pose proof (first_shape Card_rank Hand_solve Math_exp random player ctx board n)
    as S0; rewrite E0 in S0; cbn [fst] in S0;
  pose proof (branch_shape Card_rank Hand_solve Math_exp random player ctx board n)
    as SB;
  pose proof (defend_shape Hand_solve player ctx board d0) as S1;
  pose proof (bluff_shape Card_rank Hand_solve Math_exp random player ctx board
                (allInDefense Hand_solve player ctx board d0) n0) as S2;
  rewrite E2 in S2; cbn [fst] in S2;
  pose proof (overbet_shape Card_rank Hand_solve random player ctx board d2 n2)
    as S3; rewrite E3 in S3; cbn [fst] in S3;
  pose proof (slow_shape Hand_solve random player board d3 n3) as S4;
  rewrite E4 in S4; cbn [fst] in S4;
  pose proof (protect_shape Card_rank Hand_solve random player ctx board d4 n4)
    as S5; rewrite <- EA in S5.

Lemma enforce_keeps_others (d r : Decision) :
  enforceMinRaise player ctx d = r -> isRaise d = false -> d = r.
Proof. destruct d; simpl; intros; congruence. Qed.

(** The decision after the all-in defence that ends as a fold, or as a
    call. *)
Lemma fold_backwards (n : nat) :
  fst (choose n) = Fold ->
  exists d0, fst (firstDecision Card_rank Hand_solve Math_exp random
                    player ctx board n) = d0
             /\ defend d0 = Fold.
Proof.
  intros H. unfold choose in H. rewrite choose_final in H. outcome_stages n.
  fold adjusted in H, S5, EA.
  assert (D5 : fst (adjusted n) = Fold).
  { destruct (fst (adjusted n)) eqn:D; try discriminate; [reflexivity|].
    simpl in H. destruct (_ <? _); [destruct (_ >? _)|]; discriminate. }
  rewrite D5 in S5.
  destruct S5 as [S5 | (_ & _ & _ & b & _ & S5)]; [|discriminate]. subst d4.
  destruct S4 as [S4 | (_ & _ & _ & S4)]; [|discriminate]. subst d3.
  destruct S3 as [S3 | (_ & x & o & _ & _ & S3)]; [|discriminate]. subst d2.
  destruct S2 as [S2 | (_ & _ & b & _ & S2)]; [|discriminate].
  exists d0. rewrite E0. split; [reflexivity|]. symmetry. exact S2.
Qed.

Lemma first_fold_owed (n : nat) :
  fst (firstDecision Card_rank Hand_solve Math_exp random player ctx board n)
  = Fold -> 0 < toCall.
Proof.
  intros H.
  destruct (first_shape Card_rank Hand_solve Math_exp random player ctx board n)
    as [(_ & S) | (_ & S)]; rewrite S in H; [discriminate|].
  destruct (branch_shape Card_rank Hand_solve Math_exp random player ctx board n)
    as [(B & _) | [(B & _) | [(B & P) | (_ & b & _ & B)]]];
    rewrite B in H; try discriminate. exact P.
Qed.

(** X8: the engine folds only when a bet is owed. *)
Theorem fold_only_when_a_bet_is_owed (n : nat) :
  fst (choose n) = Fold -> 0 < toCall.
Proof.
  intros H. destruct (fold_backwards n H) as (d0 & E & D).
  apply (first_fold_owed n). rewrite E.
  destruct (defend_shape Hand_solve player ctx board d0) as [S | (_ & S)];
    fold defend in S; congruence.
Qed.

(** X9: while an opponent is all-in the engine does not fold a hand whose
    strength ratio reaches the all-in threshold (0.85 before the flop, 0.5
    after it). *)
Theorem no_fold_to_an_all_in_with_a_good_hand (n : nat) :
  facingAllIn player ctx = true ->
  goodThreshold <= strengthRatio Hand_solve player board ->
  fst (choose n) <> Fold.
Proof.
  intros A G H. destruct (fold_backwards n H) as (d0 & _ & D).
  unfold defend, allInDefense in D. rewrite A in D.
  apply Qgeb_ge in G. fold goodThreshold in D.
  destruct d0; simpl in D; try discriminate.
  rewrite G in D. discriminate.
Qed.

(** X10: the engine calls only when a bet is owed, and then for
    [min(chips, needToCall)]: a call never exceeds the stack nor the bet. *)
Theorem call_only_what_is_owed (n : nat) (a : Q) :
  fst (choose n) = Call a ->
  0 < toCall /\ a = Math_min chips toCall /\ a <= chips /\ a <= toCall.
Proof.
  intros H.
  pose proof (call_origin Card_rank Hand_solve Math_exp random player ctx board
                n a H) as E. fold chips toCall in E.
  assert (P : 0 < toCall).
  { unfold choose in H. rewrite choose_final in H. outcome_stages n.
    fold adjusted in H, S5, EA.
    destruct (fst (adjusted n)) as [| | c | r] eqn:D5; try discriminate.
    - destruct S5 as [S5 | (_ & _ & _ & b & _ & S5)]; [|discriminate]. subst d4.
      destruct S4 as [S4 | (_ & _ & _ & S4)]; [|discriminate]. subst d3.
      destruct S3 as [S3 | (_ & x & o & _ & _ & S3)]; [|discriminate]. subst d2.
      destruct S2 as [S2 | (_ & _ & b & _ & S2)]; [|discriminate].
      destruct S1 as [S1 | (F & _)].
      + rewrite S1 in S2. subst d0.
        destruct S0 as [(_ & S0) | (_ & S0)]; [discriminate|].
        destruct SB as [(B & _) | [(B & P) | [(B & _) | (_ & b & _ & B)]]];
          rewrite B in S0; try discriminate. exact P.
      + apply (first_fold_owed n). rewrite E0. exact F.
    - simpl in H. fold toCall in H.
      destruct (r <? _); [|discriminate].
      destruct (toCall >? 0) eqn:G; [|discriminate].
      apply Qgtb_gt in G. exact G. }
  split; [exact P|]. split; [exact E|].
  rewrite E. destruct (Math_min_spec chips toCall) as (A & B & _). auto.
Qed.

(** X11: a check is returned only when nothing is owed, or after the flop
    with a strength ratio of at least 0.9 (the slow-play of a raise); before
    the flop the engine never checks a bet that is owed. *)
Theorem check_only_when_free_or_slow_played (n : nat) :
  fst (choose n) = Check ->
  (toCall <= 0
   \/ (preflop board = false /\ 0.9 <= strengthRatio Hand_solve player board))
  /\ (preflop board = true -> toCall <= 0).
Proof.
  intros H.
  destruct (check_origin Card_rank Hand_solve Math_exp random player ctx board n H)
    as [L | [P S]].
  - split; [left; exact L | intros _; exact L].
  - apply Qgeb_ge in S. split; [right; auto | congruence].
Qed.

(** X12: a raise is returned only to a player allowed to raise (fewer than
    three raises this round and a stack above the big blind), or by the
    shove rule, or after the flop on a table without a bet. *)
Theorem raise_only_with_a_reason (n : nat) (a : Q) :
  fst (choose n) = Raise a ->
  ((Ctx.raisesThisRound ctx < MAX_RAISES_PER_ROUND)%Z
   /\ Ctx.bigBlind ctx < chips)
  \/ shove Hand_solve player ctx board = Some (Raise chips)
  \/ (preflop board = false /\ Ctx.currentBet ctx == 0).
Proof.
  intros H.
  destruct (raise_origin Card_rank Hand_solve Math_exp random player ctx board
              n a H) as [C | R]; [left | right; exact R].
  unfold canRaise, blindLevel_big in C. apply andb_prop in C.
  destruct C as [C1 C2]. apply Z.ltb_lt in C1. apply Qgtb_gt in C2. auto.
Qed.

End EngineOutcomes.

Lemma fold_only_when_a_bet_is_owed_witness :
  sampleAction [] ragsDeep ragsDeepTable [] = Fold
  /\ 0 < needToCall ragsDeep ragsDeepTable.
Proof.
  assert (E : sampleAction [] ragsDeep ragsDeepTable [] = Fold)
    by (vm_compute; reflexivity).
  split; [exact E|].
  exact (fold_only_when_a_bet_is_owed cardRank sampleSolve sampleExp (draws [])
           ragsDeep ragsDeepTable [] 0%nat E).
Defined.

Lemma no_fold_to_an_all_in_with_a_good_hand_witness :
  sampleAction [] acesDeep allInTable [] <> Fold.
Proof.
  apply no_fold_to_an_all_in_with_a_good_hand.
  - vm_compute. reflexivity.
  - apply Qle_bool_iff. vm_compute. reflexivity.
Defined.

Lemma call_only_what_is_owed_witness :
  0 < needToCall acesTiny acesTinyTable
  /\ 20 <= Player.chips acesTiny.
Proof.
  destruct (call_only_what_is_owed cardRank sampleSolve sampleExp (draws [])
              acesTiny acesTinyTable [] 0%nat 20) as (P & _ & C & _).
  - vm_compute. reflexivity.
  - split; assumption.
Defined.

Lemma check_only_when_free_or_slow_played_witness :
  needToCall ragsBlind ragsBlindTable <= 0.
Proof.
  apply (proj2 (check_only_when_free_or_slow_played cardRank sampleSolve
                  sampleExp (draws []) ragsBlind ragsBlindTable [] 0%nat
                  ltac:(vm_compute; reflexivity))).
  reflexivity.
Defined.

Lemma raise_only_with_a_reason_witness :
  ((Ctx.raisesThisRound (acesShortTable 0) < MAX_RAISES_PER_ROUND)%Z
   /\ Ctx.bigBlind (acesShortTable 0) < Player.chips acesShort)
  \/ shove sampleSolve acesShort (acesShortTable 0) [] = Some (Raise 100)
  \/ (preflop [] = false /\ Ctx.currentBet (acesShortTable 0) == 0).
Proof.
  apply (raise_only_with_a_reason cardRank sampleSolve sampleExp (draws [])
           acesShort (acesShortTable 0) [] 0%nat 100).
  vm_compute. reflexivity.
Defined.

(** ** The opponent model *)

Section OpponentModel.

Variable Card_rank : card -> Z.
Variable Hand_solve : list card -> Hand.t.
Variable Math_exp : Q -> Q.
Variable player : Player.t.
Variable ctx : Ctx.t.
Variable board : list card.

Let w := opponentWeight Math_exp player ctx.
Let base := boardTuning Card_rank Hand_solve player ctx board.
Let tex := textureRisk Card_rank Hand_solve player board.

(** Trying the possible shifts of a running value. *)
Ltac shift_with d := exists d; split; [split; lra | lra].
Ltac shift_by_weight :=
  first
    [ shift_with 0 | shift_with (1 # 10) | shift_with (- (1 # 10))
    | shift_with (2 # 10) | shift_with (- (2 # 10))
    | shift_with (1 # 2) | shift_with (- (1 # 2)) ].

Lemma tuning_by_weight :
  (exists da, - (2 # 10) <= da <= 2 # 10
     /\ aggressiveness Card_rank Hand_solve Math_exp player ctx board
        == fst base + da * w)
  /\ (exists dt, - (1 # 2) <= dt <= 1 # 2
     /\ raiseThreshold Card_rank Hand_solve Math_exp player ctx board
        == snd base + dt * w)
  /\ bluffChance Card_rank Hand_solve Math_exp player ctx board
     = if (lengthZ (opponents player ctx) >? 0)%Z
       then Math_min 0.3 (avgFoldRate (opponents player ctx)) * w
            * (1 - tex * 0.5)
       else 0.
Proof.
  unfold aggressiveness, raiseThreshold, bluffChance, tuning, base, boardTuning.
  fold (opponentAvgHands player ctx).
  fold (opponentWeight Math_exp player ctx). fold w. fold tex.
  generalize w; intros W.
  destruct (preflop board); cbn [negb];
    [| destruct (overPair _ _ _ _); [| destruct (topPair _ _ _ _)];
       destruct (drawChance _ _ _ _) ];
    cbv zeta beta iota;
    (destruct (lengthZ (opponents player ctx) >? 0)%Z;
     [ destruct (_ <? 0.25); [| destruct (_ >? 0.5)];
       (destruct (_ >? 1.5); [| destruct (_ <? 0.7)])
     | ]);
    cbn [fst snd];
    (split; [shift_by_weight | split; [shift_by_weight | reflexivity]]).
Qed.


Lemma weight_small_sample :
  opponentAvgHands player ctx < MIN_HANDS_FOR_WEIGHT -> w = 0.
Proof.
  intros H. unfold w, opponentWeight. apply Qltb_lt in H. rewrite H. reflexivity.
Qed.

(** X13: while the opponents have been observed for fewer than 10 hands on
    average, their statistics change nothing: aggressiveness and raise
    threshold keep their values, the bluff chance is 0 and bluff injection
    leaves every decision as it is, without drawing a random number. *)
Theorem small_samples_have_no_influence :
  opponentAvgHands player ctx < MIN_HANDS_FOR_WEIGHT ->
  aggressiveness Card_rank Hand_solve Math_exp player ctx board == fst base
  /\ raiseThreshold Card_rank Hand_solve Math_exp player ctx board == snd base
  /\ bluffChance Card_rank Hand_solve Math_exp player ctx board == 0
  /\ forall random d n,
       bluffInjection Card_rank Hand_solve Math_exp random player ctx board d n
       = (d, n).
Proof.
  intros H. pose proof (weight_small_sample H) as W0.
  destruct tuning_by_weight as ((da & _ & A) & (dt & _ & T) & B).
  rewrite W0 in A, T, B.
  assert (B0 : bluffChance Card_rank Hand_solve Math_exp player ctx board == 0).
  { rewrite B. destruct (_ >? _)%Z; [ring | reflexivity]. }
  split; [rewrite A; ring|]. split; [rewrite T; ring|]. split; [exact B0|].
  intros random d n. unfold bluffInjection.
  assert (G : (bluffChance Card_rank Hand_solve Math_exp player ctx board >? 0)
              = false).
  { apply Qgtb_le. rewrite B0. apply Qle_refl. }
  rewrite G. reflexivity.
Qed.

Lemma sumOver_nonneg {A : Type} (f : A -> Q) (l : list A) :
  (forall a, 0 <= f a) -> 0 <= sumOver f l.
Proof.
  intros F. unfold sumOver.
  assert (G : forall acc, 0 <= acc -> 0 <= fold_left (fun s p => s + f p) l acc).
  { induction l as [|a l IH]; intros acc Ha; simpl; [exact Ha|].
    apply IH. specialize (F a). lra. }
  apply G. apply Qle_refl.
Qed.

Lemma NQ_nonneg (n : N) : 0 <= NQ n.
Proof.
  unfold NQ. change 0 with (inject_Z 0). rewrite <- Zle_Qle. lia.
Qed.

Lemma calcFoldRate_nonneg (p : Player.t) : 0 <= calcFoldRate p.
Proof.
  unfold calcFoldRate. destruct (N.ltb_spec 0 (Stats.hands (Player.stats p))).
  - apply Qle_shift_div_l.
    + unfold NQ. change 0 with (inject_Z 0). rewrite <- Zlt_Qlt. lia.
    + rewrite Qmult_0_l. apply NQ_nonneg.
  - apply Qle_refl.
Qed.

Lemma avgFoldRate_nonneg (l : list Player.t) : 0 <= avgFoldRate l.
Proof.
  unfold avgFoldRate. destruct (Z.eqb_spec (lengthZ l) 0); [apply Qle_refl|].
  apply Qle_shift_div_l.
  - unfold ZQ. change 0 with (inject_Z 0). rewrite <- Zlt_Qlt.
    unfold lengthZ in *. lia.
  - rewrite Qmult_0_l. apply sumOver_nonneg, calcFoldRate_nonneg.
Qed.

Lemma evaluateBoardTexture_01 (b : list card) : 0 <= evaluateBoardTexture b <= 1.
Proof.
  unfold evaluateBoardTexture. destruct (_ <? 3)%Z; [split; lra|].
  apply clamp_max_min. lra.
Qed.

Lemma textureRisk_01 : 0 <= tex <= 1.
Proof.
  unfold tex, textureRisk, boardContext.
  destruct (_ && _); cbn [snd]; [apply evaluateBoardTexture_01 | split; lra].
Qed.

Lemma weight_and_bluff_range :
  (forall x, x <= 0 -> 0 <= Math_exp x <= 1) ->
  0 <= w <= 1
  /\ 0 <= bluffChance Card_rank Hand_solve Math_exp player ctx board <= 0.3.
Proof.
  intros E.
  assert (W : 0 <= w <= 1).
  { unfold w, opponentWeight.
    destruct (_ <? MIN_HANDS_FOR_WEIGHT) eqn:L; [split; lra|].
    apply Qltb_ge in L.
    assert (X : - (opponentAvgHands player ctx - MIN_HANDS_FOR_WEIGHT)
                / WEIGHT_GROWTH <= 0).
    { apply Qle_shift_div_r; [reflexivity|]. lra. }
    specialize (E _ X). split; lra. }
  split; [exact W|].
  destruct tuning_by_weight as (_ & _ & B). rewrite B.
  destruct (_ >? _)%Z; [|split; lra].
  pose proof textureRisk_01 as T.
  pose proof (avgFoldRate_nonneg (opponents player ctx)) as F.
  destruct (Math_min_spec 0.3 (avgFoldRate (opponents player ctx)))
    as (M1 & M2 & M3).
  set (m := Math_min 0.3 (avgFoldRate (opponents player ctx))) in *.
  assert (M0 : 0 <= m) by (destruct M3 as [X | X]; rewrite X; lra).
  clearbody m. clear M3.
  set (t := 1 - tex * 0.5). assert (Tt : (1 # 2) <= t <= 1) by (unfold t; lra).
  clearbody t.
  assert (P1 : 0 <= m * w) by (apply Qmult_le_0_compat; lra).
  assert (P2 : m * w <= 0.3).
  { assert (m * w <= 0.3 * 1); [|lra].
    apply Qmult_le_compat_nonneg; split; lra. }
  split.
  - apply Qmult_le_0_compat; lra.
  - assert (m * w * t <= 0.3 * 1); [|lra].
    apply Qmult_le_compat_nonneg; split; lra.
Qed.

(** X14: with [Math.exp] between 0 and 1 on arguments that are not
    positive, the weight of the opponent statistics lies between 0 and 1 and
    the bluff chance between 0 and 0.3. *)
Theorem bluff_chance_at_most_30_percent :
  (forall x, x <= 0 -> 0 <= Math_exp x <= 1) ->
  0 <= w <= 1
  /\ 0 <= bluffChance Card_rank Hand_solve Math_exp player ctx board <= 0.3.
Proof. exact weight_and_bluff_range. Qed.

End OpponentModel.

Lemma small_samples_have_no_influence_witness :
  bluffChance cardRank sampleSolve sampleExp kingTenBlind kingTenTable [] == 0.
Proof.
  apply (small_samples_have_no_influence cardRank sampleSolve sampleExp
           kingTenBlind kingTenTable []).
  apply Qlt_alt. vm_compute. reflexivity.
Defined.

Lemma rationalExp_range (x : Q) : x <= 0 -> 0 <= rationalExp x <= 1.
Proof.
  intros H. unfold rationalExp. split.
  - apply Qle_shift_div_l; lra.
  - apply Qle_shift_div_r; lra.
Defined.

Lemma bluff_chance_at_most_30_percent_witness :
  bluffChance cardRank sampleSolve rationalExp kingTenBlind seasonedTable []
  == 2 # 10
  /\ 0 <= bluffChance cardRank sampleSolve rationalExp kingTenBlind
             seasonedTable [] <= 0.3.
Proof.
  split; [vm_compute; reflexivity|].
  apply (bluff_chance_at_most_30_percent cardRank sampleSolve rationalExp
           kingTenBlind seasonedTable [] rationalExp_range).
Defined.

(** ** Premium hands before the flop *)

Section PremiumHands.

Variable Card_rank : card -> Z.
Variable Hand_solve : list card -> Hand.t.
Variable Math_exp : Q -> Q.
Variable random : nat -> Q.
Variable player : Player.t.
Variable ctx : Ctx.t.

Let chips := Player.chips player.
Let toCall := needToCall player ctx.
Let lastRaise := Ctx.lastRaise ctx.
Let currentBet := Ctx.currentBet ctx.
Let thr := raiseThreshold Card_rank Hand_solve Math_exp player ctx [].

Lemma thresholdAdj_nonneg : 0 <= thresholdAdj ctx.
Proof.
  unfold thresholdAdj.
  destruct (Z.ltb_spec (activeOpponents ctx) OPPONENT_THRESHOLD);
    [|apply Qle_refl].
  apply Qmult_le_0_compat; [|unfold THRESHOLD_FACTOR; lra].
  unfold ZQ. change 0 with (inject_Z 0). rewrite <- Zle_Qle. lia.
Qed.

(** Before the flop the raise threshold never exceeds 8.5. *)
Lemma preflop_threshold_at_most (exp_range : forall x, x <= 0 -> 0 <= Math_exp x <= 1) :
  thr <= 8.5.
Proof.
  destruct (tuning_by_weight Card_rank Hand_solve Math_exp
              player ctx []) as (_ & (dt & Bd & T) & _).
  destruct (weight_and_bluff_range Card_rank Hand_solve Math_exp
              player ctx [] exp_range) as (W & _).
  fold thr in T. rewrite T.
  assert (B : snd (boardTuning Card_rank Hand_solve player ctx []) <= 8).
  { unfold boardTuning. change (preflop []) with true. cbn [negb snd].
    pose proof (proj2 (positionFactor_bounds player ctx)) as [P _].
    pose proof thresholdAdj_nonneg as A.
    destruct (Math_max_spec 1 (8 - 2 * positionFactor player ctx
                               - thresholdAdj ctx)) as (_ & _ & [E | E]);
      rewrite E; lra. }
  set (w := opponentWeight Math_exp player ctx) in *. clearbody w.
  assert (dt * w <= 1 # 2).
  { destruct (Qlt_le_dec dt 0) as [N | N].
    - assert (dt * w <= 0); [|lra].
      setoid_replace (dt * w) with (- ((- dt) * w)) by ring.
      assert (0 <= (- dt) * w) by (apply Qmult_le_0_compat; lra). lra.
    - assert (dt * w <= (1 # 2) * 1); [|lra].
      apply Qmult_le_compat_nonneg; split; lra. }
  lra.
Qed.

(** X15: before the flop, with nothing to call, a hand of score 10 (such as
    pocket aces) held by a player who is allowed to raise and can afford the
    minimum raise is always raised, never checked: the engine returns the
    shove of the stack, or a value raise of at least
    [currentBet + lastRaise]. *)
Theorem premium_hand_is_always_raised (n : nat) :
  (forall x, x <= 0 -> 0 <= Math_exp x <= 1) ->
  strength Hand_solve player [] == 10 ->
  toCall <= 0 ->
  canRaise player ctx = true ->
  0 <= Player.roundBet player ->
  toCall + lastRaise <= chips ->
  exists a,
    fst (chooseBotAction Card_rank Hand_solve Math_exp random player ctx [] n)
    = Raise a
    /\ (a = chips \/ currentBet + lastRaise <= a).
Proof.
  intros exp_range S N C R A.
  pose proof (preflop_threshold_at_most exp_range) as T.
  assert (D0 : exists a,
             fst (firstDecision Card_rank Hand_solve Math_exp random
                    player ctx [] n) = Raise a
             /\ (a = chips \/ currentBet + lastRaise <= a)).
  { destruct (first_shape Card_rank Hand_solve Math_exp random player ctx [] n)
      as [(_ & F) | (_ & F)]; rewrite F.
    - exists chips. auto.
    - unfold branchDecision. fold toCall thr.
      assert (E1 : (toCall <=? 0) = true) by (apply Qleb_le; exact N).
      assert (E2 : (strength Hand_solve player [] >=? thr) = true).
      { apply Qgeb_ge. rewrite S. lra. }
      assert (E3 : (Math_abs (strength Hand_solve player [] - thr)
                    <=? STRENGTH_TIE_DELTA) = false).
      { unfold Math_abs.
        assert (P : (strength Hand_solve player [] - thr <? 0) = false).
        { apply Qltb_ge. rewrite S. lra. }
        rewrite P. unfold Qleb. destruct (Qle_bool _ _) eqn:L; [|reflexivity].
        apply Qle_bool_iff in L. rewrite S in L.
        unfold STRENGTH_TIE_DELTA in L. lra. }
      rewrite E1, C, E2. cbn [andb]. rewrite bind_run, E3.
      unfold ret; cbn [fst]. eexists. split; [reflexivity|].
      right. apply Math_max_spec. }
  destruct D0 as (a & D0 & Ha). exists a. split; [|exact Ha].
  rewrite choose_final.
  destruct (adjusted_stages Card_rank Hand_solve Math_exp random player ctx [] n)
    as (d0 & n0 & d2 & n2 & d3 & n3 & d4 & n4 & E0 & E2 & E3 & E4 & EA).
  rewrite E0 in D0. cbn [fst] in D0. subst d0.
  assert (X1 : allInDefense Hand_solve player ctx [] (Raise a) = Raise a)
    by reflexivity.
  rewrite X1 in E2.
  destruct (bluff_shape Card_rank Hand_solve Math_exp random player ctx []
              (Raise a) n0) as [B | (_ & [B | B] & _)]; try discriminate.
  rewrite E2 in B. cbn [fst] in B. subst d2.
  destruct (overbet_shape Card_rank Hand_solve random player ctx [] (Raise a) n2)
    as [B | (B & _)]; [|discriminate].
  rewrite E3 in B. cbn [fst] in B. subst d3.
  destruct (slow_shape Hand_solve random player [] (Raise a) n3)
    as [B | (B & _)]; [|discriminate].
  rewrite E4 in B. cbn [fst] in B. subst d4.
  destruct (protect_shape Card_rank Hand_solve random player ctx [] (Raise a) n4)
    as [B | (B & _)]; [|discriminate].
  rewrite EA, B. unfold enforceMinRaise. fold toCall lastRaise.
  assert (G : (a <? toCall + lastRaise) = false).
  { apply Qltb_ge. destruct Ha as [-> | Ha]; [exact A|].
    unfold toCall, needToCall, currentBet in *. lra. }
  rewrite G. reflexivity.
Qed.

End PremiumHands.

(** Pocket aces in the big blind with 1000 chips and nothing to call. *)
Lemma premium_hand_is_always_raised_witness :
  exists a,
    fst (chooseBotAction cardRank sampleSolve rationalExp (draws [0.5])
           (hero 1000 20 pocketAces) (table (hero 1000 20 pocketAces) 20 40 0 0)
           [] 0%nat) = Raise a
    /\ (a = 1000 \/ 20 + 20 <= a).
Proof.
  apply (premium_hand_is_always_raised cardRank sampleSolve rationalExp
           (draws [0.5]) (hero 1000 20 pocketAces)
           (table (hero 1000 20 pocketAces) 20 40 0 0) 0%nat rationalExp_range).
  - reflexivity.
  - apply Qle_bool_iff. reflexivity.
  - reflexivity.
  - apply Qle_bool_iff. reflexivity.
  - apply Qle_bool_iff. reflexivity.
Defined.

(** ** Counting suits and ranks *)

Section CountByCorrect.

Context {A K : Type} (eqb : K -> K -> bool) (key : A -> K).
Hypothesis eqb_spec : forall a b, eqb a b = true <-> a = b.

Local Open Scope Z_scope.

Lemma countOf_snoc (k : K) (l : list A) (a : A) :
  countOf eqb key k (l ++ [a])
  = countOf eqb key k l + (if eqb (key a) k then 1 else 0).
Proof.
  unfold countOf, lengthZ. rewrite filter_app, length_app. simpl.
  destruct (eqb (key a) k); simpl; lia.
Qed.

Lemma countOf_nonneg (k : K) (l : list A) : 0 <= countOf eqb key k l.
Proof. unfold countOf, lengthZ. lia. Qed.

(** A counter object that holds, for each key met, its count. *)
Let counts (m : list (K * Z)) (seen : list A) : Prop :=
  NoDup (map fst m)
  /\ forall k v, In (k, v) m <-> (v = countOf eqb key k seen /\ 1 <= v).

Lemma bump_In (k : K) (m : list (K * Z)) :
  NoDup (map fst m) ->
  (forall k' v,
     In (k', v) (bump eqb k m) <->
     (k' <> k /\ In (k', v) m)
     \/ (k' = k /\ ((exists u, In (k, u) m /\ v = u + 1)
                    \/ (~ In k (map fst m) /\ v = 1))))
  /\ NoDup (map fst (bump eqb k m)).
Proof.
  induction m as [|[k0 v0] t IH]; intros N; simpl.
  - split; [|repeat constructor; auto]. intros k' v. split.
    + intros [E | []]. inversion E; subst. right. split; auto.
    + intros [[_ []] | [-> [(u & [] & _) | [_ ->]]]]. now left.
  - inversion N as [|? ? N0 Nt]; subst. specialize (IH Nt).
    destruct IH as [IH IHN].
    destruct (eqb k0 k) eqn:E.
    + apply eqb_spec in E. subst k0. split; [|simpl; constructor; auto].
      intros k' v. simpl. split.
      * intros [X | X].
        -- inversion X; subst. right. split; auto. left. exists v0. auto.
        -- left. split; [|auto]. intros ->. apply N0.
           change k with (fst (k, v)). apply in_map, X.
      * intros [[Nk [X | X]] | [-> [(u & [X | X] & ->) | [Nk _]]]].
        -- inversion X; subst. contradiction.
        -- now right.
        -- inversion X; subst. now left.
        -- exfalso. apply N0. change k with (fst (k, u)). apply in_map, X.
        -- exfalso. apply Nk. now left.
    + assert (Ne : k0 <> k).
      { intros ->. assert (eqb k k = true) by (apply eqb_spec; reflexivity).
        congruence. }
      split.
      * intros k' v. simpl. rewrite IH. split.
        -- intros [X | [[Nk X] | [-> [(u & X & ->) | [Nk ->]]]]].
           ++ inversion X; subst. left. auto.
           ++ left. auto.
           ++ right. split; auto. left. exists u. auto.
           ++ right. split; auto. right. split; auto.
              intros [X | X]; [congruence | contradiction].
        -- intros [[Nk [X | X]] | [-> [(u & [X | X] & ->) | [Nk ->]]]].
           ++ now left.
           ++ right. left. auto.
           ++ inversion X; subst. contradiction.
           ++ right. right. split; auto. left. exists u. auto.
           ++ right. right. split; auto. right. split; auto.
      * simpl. constructor; [|exact IHN].
        intros X. apply in_map_iff in X. destruct X as ([k1 v1] & E1 & X).
        simpl in E1. subst k1. apply (proj1 (IH k0 v1)) in X.
        destruct X as [[_ X] | [E0 _]]; [|congruence].
        apply N0. change k0 with (fst (k0, v1)). apply in_map, X.
Qed.

Lemma counts_step (m : list (K * Z)) (seen : list A) (a : A) :
  counts m seen -> counts (bump eqb (key a) m) (seen ++ [a]).
Proof.
  intros [N C]. destruct (bump_In (key a) m N) as [B N'].
  split; [exact N'|]. intros k v. rewrite B, countOf_snoc.
  pose proof (countOf_nonneg k seen) as P.
  split.
  - intros [[Ne X] | [-> [(u & X & ->) | [Nk ->]]]].
    + apply C in X. destruct (eqb (key a) k) eqn:E.
      * apply eqb_spec in E. congruence.
      * lia.
    + apply C in X.
      assert (E : eqb (key a) (key a) = true) by (apply eqb_spec; reflexivity).
      rewrite E. lia.
    + assert (E : eqb (key a) (key a) = true) by (apply eqb_spec; reflexivity).
      rewrite E.
      assert (Z0 : countOf eqb key (key a) seen = 0).
      { pose proof (countOf_nonneg (key a) seen).
        destruct (Z.eq_dec (countOf eqb key (key a) seen) 0); [assumption|].
        exfalso. apply Nk.
        change (key a) with (fst (key a, countOf eqb key (key a) seen)).
        apply in_map, C. lia. }
      lia.
  - intros [-> L]. destruct (eqb (key a) k) eqn:E.
    + apply eqb_spec in E. subst k. right. split; auto.
      destruct (Z.eq_dec (countOf eqb key (key a) seen) 0) as [Z0 | Z0].
      * right. split; [|lia]. intros X. apply in_map_iff in X.
        destruct X as ([k1 v1] & E1 & X). simpl in E1. subst k1.
        apply C in X. lia.
      * left. exists (countOf eqb key (key a) seen). split; [|reflexivity].
        apply C. lia.
    + left. split.
      * intros ->. assert (eqb (key a) (key a) = true)
          by (apply eqb_spec; reflexivity). congruence.
      * apply C. lia.
Qed.

Lemma counts_fold (l : list A) (m : list (K * Z)) (seen : list A) :
  counts m seen ->
  counts (fold_left (fun m a => bump eqb (key a) m) l m) (seen ++ l).
Proof.
  revert m seen. induction l as [|a l IH]; intros m seen C; simpl.
  - rewrite app_nil_r. exact C.
  - replace (seen ++ a :: l) with ((seen ++ [a]) ++ l)
      by (rewrite <- app_assoc; reflexivity).
    apply IH, counts_step, C.
Qed.

Lemma countBy_spec (l : list A) :
  NoDup (map fst (countBy eqb key l))
  /\ forall k v,
       In (k, v) (countBy eqb key l) <-> (v = countOf eqb key k l /\ 1 <= v).
Proof.
  apply (counts_fold l [] []). split; [constructor|].
  intros k v. simpl. split; [intros [] | intros [-> L]].
  unfold countOf, lengthZ in L. simpl in L. lia.
Qed.

(** X16: the counter object built over an array holds exactly one entry
    per key that occurs, with the number of its occurrences. *)
Theorem countBy_counts_occurrences (l : list A) :
  NoDup (map fst (countBy eqb key l))
  /\ forall k v,
       In (k, v) (countBy eqb key l) <-> (v = countOf eqb key k l /\ 1 <= v).
Proof. exact (countBy_spec l). Qed.

End CountByCorrect.

Lemma Suit_eqb_eq (a b : Suit) : Suit_eqb a b = true <-> a = b.
Proof. destruct a, b; simpl; split; congruence. Qed.

Lemma countBy_counts_occurrences_witness :
  In (Heart, 2%Z) (countBy Suit_eqb suitOf twoHeartFlop).
Proof.
  apply (proj2 (countBy_counts_occurrences Suit_eqb suitOf Suit_eqb_eq
                  twoHeartFlop)).
  vm_compute. split; [reflexivity | discriminate].
Defined.

(** ** Draws *)

Section DrawProperties.

Variable Card_rank : card -> Z.
Variable hole : card * card.
Variable board : list card.

Let allCards := fst hole :: snd hole :: board.
Let unique := uniqueRanks Card_rank allCards.
Let suited (s : Suit) : Z := countOf Suit_eqb suitOf s allCards.

Local Open Scope Z_scope.

(** X17: a flush draw is reported exactly when some suit is held four
    times, hole cards and board together, and no suit five times or more. *)
Theorem flush_draw_is_four_of_a_suit :
  Draws.flushDraw (analyzeDrawPotential Card_rank hole board) = true
  <-> (exists s, suited s = 4) /\ (forall s, suited s < 5).
Proof.
  unfold analyzeDrawPotential. cbn [Draws.flushDraw]. fold allCards.
  destruct (countBy_spec Suit_eqb suitOf Suit_eqb_eq allCards) as [_ C].
  assert (Some_ : forall f : Z -> bool,
            existsb f (values (countBy Suit_eqb suitOf allCards)) = true
            <-> exists s, 1 <= suited s /\ f (suited s) = true).
  { intros f. unfold values. rewrite existsb_exists. split.
    - intros (v & I & F). apply in_map_iff in I.
      destruct I as ([s v'] & E & I). simpl in E. subst v'.
      apply C in I. destruct I as [-> L]. exists s. auto.
    - intros (s & L & F). exists (suited s). split; [|exact F].
      apply in_map_iff. exists (s, suited s). split; [reflexivity|].
      apply C. auto. }
  destruct (existsb (fun c => c >=? 5) _) eqn:F; cbn [negb].
  - apply Some_ in F. destruct F as (s & _ & F).
    split; [discriminate|]. intros [_ N]. specialize (N s). lia.
  - rewrite Some_. split.
    + intros (s & _ & E). split; [exists s; lia|].
      intros s'. destruct (Z.ltb_spec (suited s') 5) as [L | G]; [exact L|].
      assert (X : existsb (fun c => c >=? 5)
                    (values (countBy Suit_eqb suitOf allCards)) = true).
      { apply Some_. exists s'. split; lia. }
      congruence.
    + intros [(s & E) _]. exists s. rewrite E. split; [lia | reflexivity].
Qed.

Lemma insertSorted_sorted (x : Z) (l : list Z) :
  ~ In x l -> StronglySorted Z.lt l -> StronglySorted Z.lt (insertSorted x l).
Proof.
  induction l as [|y t IH]; intros N S_; simpl.
  - constructor; constructor.
  - inversion S_ as [|? ? St Ft]; subst.
    destruct (Z.leb_spec x y) as [L | G].
    + assert (x < y) by (assert (x <> y) by (intros ->; apply N; now left); lia).
      constructor; [exact S_|]. constructor; [assumption|].
      rewrite Forall_forall in *. intros z I. specialize (Ft z I). lia.
    + constructor.
      * apply IH; [|exact St]. intros I. apply N. now right.
      * rewrite Forall_forall in *. intros z I.
        apply insertSorted_In in I. destruct I as [-> | I]; [lia | auto].
Qed.

Lemma setOf_NoDup (l : list Z) : NoDup (setOf l).
Proof.
  induction l as [|x t IH]; simpl; constructor.
  - rewrite filter_In, negb_true_iff, Z.eqb_neq. intros [_ N]. now apply N.
  - apply NoDup_filter, IH.
Qed.

Lemma sortNum_sorted (l : list Z) :
  NoDup l -> StronglySorted Z.lt (sortNum l).
Proof.
  induction l as [|x t IH]; intros N; simpl; [constructor|].
  inversion N; subst. apply insertSorted_sorted; [|auto].
  rewrite sortNum_In. assumption.
Qed.

Lemma includes_In (x : Z) (l : list Z) : includes x l = true <-> In x l.
Proof.
  unfold includes. rewrite existsb_exists. split.
  - intros (y & I & E). apply Z.eqb_eq in E. now subst.
  - intros I. exists x. split; [exact I | apply Z.eqb_refl].
Qed.

(** The array [unique] holds the ranks of the cards, and 1 besides when an
    ace is among them, each once and in ascending order. *)
Lemma unique_ranks_ascending :
  StronglySorted Z.lt unique
  /\ forall r, In r unique
       <-> In r (map Card_rank allCards)
           \/ (r = 1 /\ In 14 (map Card_rank allCards)).
Proof.
  unfold unique, uniqueRanks. split.
  - apply sortNum_sorted, setOf_NoDup.
  - intros r. rewrite sortNum_In, setOf_In.
    destruct (includes 14 (map Card_rank allCards)) eqn:I.
    + apply includes_In in I. rewrite in_app_iff. simpl. intuition.
    + assert (N : ~ In 14 (map Card_rank allCards)).
      { intros X. apply includes_In in X. congruence. }
      intuition.
Qed.

Lemma scan_finds_draw (seqs : list (list Z)) :
  (exists seq, In seq seqs /\ windowCount unique seq = 4) ->
  (forall seq, In seq seqs -> windowCount unique seq <> 5) ->
  scanStraights unique seqs false = true.
Proof.
  induction seqs as [|w seqs IH]; intros (seq & I & E) N; simpl in *;
    [contradiction|].
  destruct (Z.eqb_spec (windowCount unique w) 5) as [E5 | _].
  - exfalso. apply (N w); auto.
  - destruct (Z.eqb_spec (windowCount unique w) 4) as [_ | N4]; [reflexivity|].
    apply IH; [|auto]. destruct I as [-> | I]; [contradiction|].
    exists seq. auto.
Qed.

(** X18: a straight draw is reported exactly when the first window, from
    the lowest, that holds four or five of the ranks holds four of them.
    So a reported draw has a window with exactly four ranks, and the draw is
    reported whenever such a window exists and no window is complete. *)
Theorem straight_draw_is_decided_by_first_window :
  (Draws.straightDraw (analyzeDrawPotential Card_rank hole board) = true
   <-> exists pre seq post,
         straights = pre ++ seq :: post
         /\ windowCount unique seq = 4
         /\ Forall (fun w => windowCount unique w <> 4
                             /\ windowCount unique w <> 5) pre)
  /\ (Draws.straightDraw (analyzeDrawPotential Card_rank hole board) = true ->
      exists seq, In seq straights /\ windowCount unique seq = 4)
  /\ ((exists seq, In seq straights /\ windowCount unique seq = 4) ->
      (forall seq, In seq straights -> windowCount unique seq <> 5) ->
      Draws.straightDraw (analyzeDrawPotential Card_rank hole board) = true).
Proof.
  unfold analyzeDrawPotential. cbn [Draws.straightDraw].
  fold allCards. fold unique.
  split; [apply scanStraights_first_window|]. split.
  - intros T. apply scanStraights_first_window in T.
    destruct T as (pre & seq & post & E & C & _).
    exists seq. split; [|exact C]. rewrite E. apply in_elt.
  - apply scan_finds_draw.
Qed.

End DrawProperties.

Lemma straight_draw_is_decided_by_first_window_witness :
  Draws.straightDraw
    (analyzeDrawPotential cardRank (mkCard R5 Club, mkCard R6 Diamond)
       [mkCard R7 Heart; mkCard R8 Spade; mkCard RK Club]) = true.
Proof.
  apply (proj2 (proj2 (straight_draw_is_decided_by_first_window cardRank
                         (mkCard R5 Club, mkCard R6 Diamond)
                         [mkCard R7 Heart; mkCard R8 Spade; mkCard RK Club]))).
  - exists [4; 5; 6; 7; 8]%Z. split; [vm_compute; tauto | reflexivity].
  - intros seq I. vm_compute in I.
    repeat (destruct I as [<- | I]; [vm_compute; discriminate|]).
    contradiction.
Defined.

(** ** The texture sub-scores *)

Lemma fold_max_spec (l : list Z) :
  (Forall (fun x => x <= fold_right Z.max 0 l) l
   /\ 0 <= fold_right Z.max 0 l
   /\ (fold_right Z.max 0 l = 0 \/ In (fold_right Z.max 0 l) l))%Z.
Proof.
  induction l as [|x l (F & P & I)]; simpl.
  - split; [constructor | split; [lia | now left]].
  - split; [|split].
    + constructor; [lia|]. rewrite Forall_forall in *. intros y Hy.
      specialize (F y Hy). lia.
    + lia.
    + destruct (Z.max_spec x (fold_right Z.max 0%Z l)) as [[_ E] | [_ E]];
        rewrite E; [|right; now left].
      destruct I as [I | I]; [left; exact I | right; right; exact I].
Qed.

Lemma maxCount_upper (vs : list Z) (v : Z) :
  In v vs -> (v <= maxCount vs)%Z.
Proof.
  destruct vs as [|x t]; [intros []|]. unfold maxCount, maxOf.
  destruct (fold_max_bounds t x) as (B & F & _). rewrite Forall_forall in F.
  intros [<- | I]; [exact B | apply F, I].
Qed.

Section MostAlike.

Context {A K : Type} (eqb : K -> K -> bool) (key : A -> K).
Hypothesis eqb_spec : forall a b, eqb a b = true <-> a = b.

Local Open Scope Z_scope.

Lemma countOf_positive (k : K) (l : list A) :
  1 <= countOf eqb key k l <-> exists a, In a l /\ key a = k.
Proof.
  unfold countOf, lengthZ. split.
  - intros H. destruct (filter (fun a => eqb (key a) k) l) as [|a t] eqn:E;
      [simpl in H; lia|].
    assert (I : In a (filter (fun a => eqb (key a) k) l))
      by (rewrite E; now left).
    apply filter_In in I. destruct I as [I Ek].
    exists a. split; [exact I | apply eqb_spec, Ek].
  - intros (a & I & Ek).
    assert (F : In a (filter (fun a => eqb (key a) k) l)).
    { apply filter_In. split; [exact I | apply eqb_spec, Ek]. }
    destruct (filter (fun a => eqb (key a) k) l); [contradiction|].
    simpl. lia.
Qed.

(** The largest count of the counter object is the largest number of
    elements sharing a key. *)
Lemma maxCount_mostAlike (l : list A) :
  maxCount (values (countBy eqb key l)) = mostAlike eqb key l.
Proof.
  destruct l as [|a0 l0]; [reflexivity|].
  set (l := a0 :: l0).
  destruct (countBy_spec eqb key eqb_spec l) as [_ C].
  assert (Ne : values (countBy eqb key l) <> []).
  { intros E.
    assert (I : In (key a0, countOf eqb key (key a0) l) (countBy eqb key l)).
    { apply C. split; [reflexivity|]. apply countOf_positive.
      exists a0. split; [now left | reflexivity]. }
    unfold values in E. apply map_eq_nil in E. rewrite E in I. contradiction. }
  pose proof (maxCount_in _ Ne) as I1.
  destruct (fold_max_spec (map (fun a => countOf eqb key (key a) l) l))
    as (F2 & P2 & I2).
  fold (mostAlike eqb key l) in F2, P2, I2. rewrite Forall_forall in F2.
  assert (L1 : maxCount (values (countBy eqb key l)) <= mostAlike eqb key l).
  { unfold values in I1 at 2. apply in_map_iff in I1.
    destruct I1 as ([k v] & E & I1). simpl in E. apply C in I1.
    destruct I1 as [Ev P]. rewrite <- E, Ev in *.
    apply countOf_positive in P. destruct P as (a & Ia & Ek).
    apply F2. apply in_map_iff. exists a. rewrite Ek. auto. }
  assert (G1 : 1 <= maxCount (values (countBy eqb key l))).
  { unfold values in I1 at 2. apply in_map_iff in I1.
    destruct I1 as ([k v] & E & I1). simpl in E. apply C in I1.
    destruct I1 as [_ P]. rewrite <- E. exact P. }
  assert (L2 : mostAlike eqb key l <= maxCount (values (countBy eqb key l))).
  { destruct I2 as [Z0 | I2]; [lia|].
    apply in_map_iff in I2. destruct I2 as (a & E & Ia).
    apply maxCount_upper. unfold values. apply in_map_iff.
    exists (key a, countOf eqb key (key a) l). split; [exact E|].
    apply C. split; [reflexivity|]. apply countOf_positive.
    exists a. auto. }
  lia.
Qed.

End MostAlike.

Section TextureSpec.

Variable board : list card.
Hypothesis enough : (3 <= lengthZ board)%Z.

Local Open Scope Z_scope.

Let mem := rankOnBoard board.
Let run (r : Z) : Z := runEndingAt board (Z.to_nat r).

Lemma rankMap_range (r : Rank) : 2 <= rankMap r <= 14.
Proof. destruct r; simpl; lia. Qed.

Lemma rankOnBoard_unique (r : Z) : mem r = true <-> In r (boardUnique board).
Proof.
  unfold mem, rankOnBoard, boardUnique.
  rewrite sortNum_In, setOf_In, existsb_exists.
  set (ranks := map (fun c => rankMap (rankOf c)) board).
  assert (M : forall y, In y ranks <-> exists c, In c board /\ rankMap (rankOf c) = y).
  { intros y. unfold ranks. rewrite in_map_iff. split.
    - intros (c & E & I). exists c. auto.
    - intros (c & I & E). exists c. auto. }
  split.
  - intros (c & I & H). apply orb_true_iff in H.
    destruct H as [H | H].
    + apply Z.eqb_eq in H.
      assert (X : In r ranks) by (apply M; exists c; auto).
      destruct (includes 14 ranks); [apply in_or_app; now left | exact X].
    + apply andb_true_iff in H. destruct H as [H1 H14].
      apply Z.eqb_eq in H1. apply Z.eqb_eq in H14. subst r.
      assert (X : In 14 ranks) by (apply M; exists c; auto).
      apply includes_In in X. rewrite X. apply in_or_app. right. now left.
  - intros H.
    assert (X : In r ranks \/ (r = 1 /\ In 14 ranks)).
    { destruct (includes 14 ranks) eqn:E; [|now left].
      apply includes_In in E. apply in_app_or in H.
      destruct H as [H | [H | []]]; [now left | right; auto]. }
    destruct X as [X | [-> X]]; apply M in X; destruct X as (c & I & E);
      exists c; (split; [exact I|]); rewrite E; simpl.
    + rewrite Z.eqb_refl. reflexivity.
    + reflexivity.
Qed.

Lemma rankOnBoard_range (r : Z) : mem r = true -> 1 <= r <= 14.
Proof.
  unfold mem, rankOnBoard. rewrite existsb_exists.
  intros (c & _ & H). pose proof (rankMap_range (rankOf c)).
  apply orb_true_iff in H. destruct H as [H | H].
  - apply Z.eqb_eq in H. lia.
  - apply andb_true_iff in H. destruct H as [H _]. apply Z.eqb_eq in H. lia.
Qed.

Lemma run_step (r : Z) :
  1 <= r -> run r = if mem r then 1 + run (r - 1) else 0.
Proof.
  intros H. unfold run.
  replace (Z.to_nat r) with (Datatypes.S (Z.to_nat (r - 1))) by lia.
  cbn [runEndingAt].
  replace (Z.of_nat (Datatypes.S (Z.to_nat (r - 1)))) with r by lia.
  reflexivity.
Qed.

Lemma run_nonneg (r : Z) : 0 <= run r.
Proof.
  unfold run. induction (Z.to_nat r) as [|n IH]; cbn [runEndingAt]; [lia|].
  destruct (rankOnBoard board (Z.of_nat (Datatypes.S n))); lia.
Qed.

Lemma run_outside (r : Z) : mem r = false -> run r = 0.
Proof.
  intros H. destruct (Z.le_gt_cases 1 r) as [L | G].
  - rewrite (run_step r L), H. reflexivity.
  - unfold run. replace (Z.to_nat r) with 0%nat by lia. reflexivity.
Qed.

Lemma run_inside (r : Z) : mem r = true -> run r = 1 + run (r - 1).
Proof.
  intros H. rewrite (run_step r) by (apply rankOnBoard_range, H).
  rewrite H. reflexivity.
Qed.

(** The loop over the sorted ranks keeps in [currentRun] the run ending at
    the rank it is at, and in [maxConsecutive] the longest run so far. *)
Lemma longestRun_runs (t : list Z) :
  forall prev cur mx seen,
    StronglySorted Z.lt (prev :: t) ->
    (forall y, mem y = true <-> In y seen \/ y = prev \/ In y t) ->
    (forall y, In y seen -> y < prev) ->
    cur = run prev ->
    (forall y, In y seen \/ y = prev -> run y <= mx) ->
    (exists y, (In y seen \/ y = prev) /\ mx = run y) ->
    (forall y, mem y = true -> run y <= longestRun prev t cur mx)
    /\ exists y, mem y = true /\ longestRun prev t cur mx = run y.
Proof.
  induction t as [|x t IH]; intros prev cur mx seen S_ M Lt Ec Ub At.
  - simpl. split.
    + intros y H. apply M in H. apply Ub.
      destruct H as [H | [H | []]]; auto.
    + destruct At as (y & H & E). exists y. split; [|exact E].
      apply M. destruct H; auto.
  - subst cur. cbn [longestRun].
    inversion S_ as [|? ? St Ft]; subst.
    inversion Ft as [|? ? Px Ft']; subst.
    inversion St as [|? ? St' Fx]; subst.
    rewrite Forall_forall in Ft', Fx.
    assert (Mx : mem x = true) by (apply M; right; right; now left).
    assert (Ecur : (if x =? prev + 1 then run prev + 1 else 1) = run x).
    { rewrite (run_inside x Mx).
      destruct (Z.eqb_spec x (prev + 1)) as [E | N].
      - replace (x - 1) with prev by lia. lia.
      - rewrite (run_outside (x - 1)); [lia|].
        destruct (mem (x - 1)) eqn:Y; [|reflexivity].
        apply M in Y. destruct Y as [Y | [Y | [Y | Y]]].
        + specialize (Lt _ Y). lia.
        + lia.
        + lia.
        + specialize (Fx _ Y). lia. }
    set (mx' := if (if x =? prev + 1 then run prev + 1 else 1) >? mx
                then (if x =? prev + 1 then run prev + 1 else 1) else mx).
    assert (Emx : mx' = Z.max (run x) mx).
    { unfold mx'. rewrite Ecur.
      destruct (Z.gtb_spec (run x) mx); lia. }
    apply (IH x _ mx' (seen ++ [prev])).
    + exact St.
    + intros y. rewrite M, in_app_iff. simpl.
      split; intros H; intuition (subst; auto).
    + intros y Y. apply in_app_iff in Y.
      destruct Y as [Y | [<- | []]]; [specialize (Lt _ Y); lia | exact Px].
    + exact Ecur.
    + intros y Y. rewrite Emx.
      destruct Y as [Y | ->]; [|lia].
      apply in_app_iff in Y.
      assert (run y <= mx); [|lia].
      apply Ub. destruct Y as [Y | [<- | []]]; auto.
    + rewrite Emx. destruct (Z.max_spec (run x) mx) as [[_ E] | [_ E]];
        rewrite E.
      * destruct At as (y & Y & Ey). exists y. split; [|exact Ey].
        left. apply in_app_iff. destruct Y as [Y | ->]; [now left|].
        right. now left.
      * exists x. auto.
Qed.

(** The loop of the source finds the longest consecutive-rank run. *)
Lemma maxConsecutive_longestRun :
  maxConsecutiveOf (boardUnique board) = longestRunSpec board.
Proof.
  assert (Sd : StronglySorted Z.lt (boardUnique board))
    by (apply sortNum_sorted, setOf_NoDup).
  assert (N : exists c0, In c0 board).
  { destruct (nth_error board 0) as [c0|] eqn:E0.
    - exists c0. apply (nth_error_In _ _ E0).
    - apply nth_error_None in E0. unfold lengthZ in enough. lia. }
  destruct N as (c0 & I0).
  assert (M0 : mem (rankMap (rankOf c0)) = true).
  { unfold mem, rankOnBoard. apply existsb_exists. exists c0.
    split; [exact I0|]. rewrite Z.eqb_refl. reflexivity. }
  destruct (boardUnique board) as [|x t] eqn:U.
  - apply rankOnBoard_unique in M0. rewrite U in M0. contradiction.
  - cbn [maxConsecutiveOf].
    assert (Mem : forall y, mem y = true <-> In y (x :: t)).
    { intros y. rewrite <- U. apply rankOnBoard_unique. }
    inversion Sd as [|? ? St Fx]; subst. rewrite Forall_forall in Fx.
    assert (Mx : mem x = true) by (apply Mem; now left).
    assert (R1 : run x = 1).
    { rewrite (run_inside x Mx). rewrite (run_outside (x - 1)); [lia|].
      destruct (mem (x - 1)) eqn:Y; [|reflexivity].
      apply Mem in Y. destruct Y as [Y | Y]; [lia|].
      specialize (Fx _ Y). lia. }
    destruct (longestRun_runs t x 1 1 []) as (Ub & y & My & Ey).
    + exact Sd.
    + intros y. rewrite Mem. simpl.
      split; intros H; intuition (subst; auto).
    + intros y [].
    + symmetry. exact R1.
    + intros y [[] | ->]. lia.
    + exists x. split; [now right | symmetry; exact R1].
    + set (R := longestRun x t 1 1) in *.
      unfold longestRunSpec.
      destruct (fold_max_spec (map (runEndingAt board) (seq 1 14)))
        as (F & P & I).
      set (M := fold_right Z.max 0 (map (runEndingAt board) (seq 1 14))) in *.
      rewrite Forall_forall in F.
      assert (G : 1 <= R).
      { rewrite Ey, (run_inside y My). pose proof (run_nonneg (y - 1)). lia. }
      assert (L1 : R <= M).
      { rewrite Ey. apply F. apply in_map_iff. exists (Z.to_nat y).
        split; [reflexivity|]. apply in_seq.
        pose proof (rankOnBoard_range y My). lia. }
      assert (L2 : M <= R).
      { destruct I as [Z0 | I]; [lia|].
        apply in_map_iff in I. destruct I as (k & E & Ik).
        assert (Er : run (Z.of_nat k) = M).
        { unfold run. rewrite Nat2Z.id. exact E. }
        rewrite <- Er. destruct (mem (Z.of_nat k)) eqn:Y.
        - apply Ub, Y.
        - rewrite (run_outside _ Y). lia. }
      lia.
Qed.

Lemma pairRisk_spec : pairRisk board == pairingRiskSpec board.
Proof.
  unfold pairRisk, pairingRiskSpec.
  rewrite (maxCount_mostAlike Rank_eqb rankOf Rank_eqb_eq).
  assert (N : board <> []).
  { intros E. rewrite E in enough. unfold lengthZ in enough.
    simpl in enough. lia. }
  pose proof (maxCount_countBy_bounds Rank_eqb rankOf board N) as B.
  rewrite (maxCount_mostAlike Rank_eqb rankOf Rank_eqb_eq) in B.
  destruct (Z.gtb_spec (mostAlike Rank_eqb rankOf board) 1) as [G | L];
    [reflexivity|].
  replace (mostAlike Rank_eqb rankOf board) with 1 by lia.
  unfold Qdiv. change (ZQ (1 - 1)) with 0%Q. rewrite Qmult_0_l. reflexivity.
Qed.

Lemma suitRisk_spec : suitRisk board = suitednessRiskSpec board.
Proof.
  unfold suitRisk, suitednessRiskSpec.
  rewrite (maxCount_mostAlike Suit_eqb suitOf Suit_eqb_eq). reflexivity.
Qed.

Lemma connectedness_spec : connectedness board == connectednessRiskSpec board.
Proof.
  unfold connectedness, connectednessRiskSpec.
  rewrite maxConsecutive_longestRun.
  destruct (Z.geb_spec (longestRunSpec board) 3) as [G | L]; [|reflexivity].
  assert (P : (0 <= ZQ (longestRunSpec board - 2) / ZQ (lengthZ board - 2))%Q)
    by (apply ZQ_div_nonneg; lia).
  destruct (Math_max_spec 0 (ZQ (longestRunSpec board - 2)
                             / ZQ (lengthZ board - 2))) as (_ & U & [E | E]);
    rewrite E; [|reflexivity].
  rewrite E in U. apply Qle_antisym; assumption.
Qed.

Lemma evaluateBoardTexture_spec :
  (evaluateBoardTexture board == textureRiskSpec board)%Q.
Proof.
  destruct (evaluateBoardTexture_average board enough) as [A _].
  rewrite A. unfold textureRiskSpec.
  rewrite pairRisk_spec, connectedness_spec, suitRisk_spec.
  unfold Qdiv. ring.
Qed.

End TextureSpec.

(** C8: a board of fewer than three cards has texture 0 and leaves the
    board-context flags of the engine neutral (no top pair, no over pair, no
    draw, texture risk 0); on a board of three cards or more the texture is
    the average of the three sub-scores of the specification (the fraction
    of extra cards of the most frequent rank, the fraction of extra cards
    of the most frequent suit, and the longest consecutive-rank run, the
    ace also low, scaled over the board when it reaches 3), and lies
    between 0 and 1. *)
Theorem board_texture_contract
  (Card_rank : card -> Z) (Hand_solve : list card -> Hand.t)
  (player : Player.t) (board : list card) :
  ((List.length board < 3)%nat ->
     evaluateBoardTexture board = 0
     /\ topPair Card_rank Hand_solve player board = false
     /\ overPair Card_rank Hand_solve player board = false
     /\ drawChance Card_rank Hand_solve player board = false
     /\ textureRisk Card_rank Hand_solve player board = 0)
  /\
  ((3 <= List.length board)%nat ->
     evaluateBoardTexture board
       == (pairingRiskSpec board + suitednessRiskSpec board
           + connectednessRiskSpec board) / 3
     /\ 0 <= evaluateBoardTexture board <= 1).
Proof.
  split; intros L.
  - assert (Lz : (lengthZ board <? 3)%Z = true).
    { apply Z.ltb_lt. unfold lengthZ. lia. }
    assert (G : (lengthZ board >=? 3)%Z = false).
    { rewrite Z.geb_leb. apply Z.leb_gt. unfold lengthZ. lia. }
    unfold topPair, overPair, drawChance, textureRisk, boardContext,
      evaluateBoardTexture.
    rewrite Lz, G, andb_false_r. simpl. repeat split; reflexivity.
  - assert (E : (3 <= lengthZ board)%Z) by (unfold lengthZ; lia).
    split; [apply (evaluateBoardTexture_spec board E)|].
    apply (evaluateBoardTexture_average board E).
Qed.

Lemma board_texture_contract_witness :
  (evaluateBoardTexture twoCards = 0
   /\ textureRisk cardRank sampleSolve rags twoCards = 0)
  /\ (evaluateBoardTexture wetFlop == 2 # 3
      /\ evaluateBoardTexture wetFlop <= 1)
  /\ evaluateBoardTexture pairedAces == 5 # 18.
Proof.
  split; [|split].
  - destruct (proj1 (board_texture_contract cardRank sampleSolve rags twoCards))
      as (T & _ & _ & _ & R).
    + simpl. lia.
    + split; assumption.
  - destruct (proj2 (board_texture_contract cardRank sampleSolve rags wetFlop))
      as (A & _ & U).
    + simpl. lia.
    + split; [|exact U]. rewrite A. qdec.
  - destruct (proj2 (board_texture_contract cardRank sampleSolve rags
                       pairedAces)) as (A & _).
    + simpl. lia.
    + rewrite A. qdec.
Defined.

(** ** The action queue when callbacks throw *)

Section SchedulerFailures.

Import Scheduler.
Local Open Scope Z_scope.

Lemma reachable_invariant (t0 : Z) (es : list event) (s : state) :
  run (init t0) es = Some s -> invariant s.
Proof.
  apply run_invariant_any, init_invariant.
Qed.

(** X19: whether the callbacks return or throw, what has run is a prefix of
    what was enqueued, in the same order, each callback at least the delay
    after it was enqueued and after the execution before it; at most one
    timer is pending, and only while the queue is marked as processing and
    holds a callback. *)
Theorem scheduler_safe_with_any_callbacks (t0 : Z) (es : list event) (s : state) :
  run (init t0) es = Some s ->
  map snd (executed s) ++ map label (botActionQueue s) = map snd (enqueued s)
  /\ Forall2 delayed (firstn (List.length (executed s)) (enqueued s))
                     (executed s)
  /\ spaced BOT_ACTION_DELAY (map fst (executed s))
  /\ (List.length (timers s) <= 1)%nat
  /\ (timers s <> [] ->
      processingBotActions s = true /\ botActionQueue s <> [])
  /\ (processingBotActions s = false ->
      botActionQueue s = [] /\ timers s = []).
Proof.
  intros R. pose proof (reachable_invariant t0 es s R) as I.
  destruct (invariant_fifo s I) as (F1 & F2 & F3).
  repeat (split; [assumption|]).
  destruct I as (done & pend & E & G2 & M & Fp & Fx & TI).
  unfold timerInvariant in TI.
  destruct (timers s) as [|due [|? ?]]; [| |contradiction].
  - destruct TI as [_ Q]. split; [simpl; lia|]. split; [congruence|].
    intros P. split; [apply Q, P | reflexivity].
  - destruct TI as (P & _ & N). split; [simpl; lia|]. split.
    + intros _. split; [exact P|]. intros Q. rewrite Q in M.
      destruct pend; [contradiction | discriminate].
    + intros P'. congruence.
Qed.

(** With the queue marked as processing and no timer pending, later events
    only lengthen the queue. *)
Lemma stalled_queue_grows (es : list event) (s s' : state) :
  processingBotActions s = true -> timers s = [] ->
  run s es = Some s' ->
  exists more, botActionQueue s' = botActionQueue s ++ more.
Proof.
  revert s. induction es as [|e es IH]; intros s P T; simpl.
  - intros H. inversion H; subst. exists []. now rewrite app_nil_r.
  - destruct e as [t fn | t]; simpl.
    + destruct (t <? now s); [discriminate|].
      intros H. apply IH in H.
      * destruct H as (more & H). exists (fn :: more). rewrite H.
        unfold enqueueBotAction; simpl. rewrite P. simpl.
        rewrite <- app_assoc. reflexivity.
      * unfold enqueueBotAction; simpl. rewrite P. reflexivity.
      * unfold enqueueBotAction; simpl. rewrite P. exact T.
    + rewrite T. discriminate.
Qed.

(** X20: when the callback at the head of the queue throws, it is the last
    one that runs: the queue stays marked as processing with no timer
    pending, so no timer can fire, and the callbacks behind it, those it
    enqueued and all enqueued later stay in the queue. *)
Theorem queue_stalls_after_a_throw (t0 t : Z) (es es' : list event)
  (s s1 s2 : state) (fn : callback) (q : list callback) :
  run (init t0) es = Some s ->
  botActionQueue s = fn :: q -> throws fn = true ->
  step s (Timeout t) = Some s1 ->
  run s1 es' = Some s2 ->
  executed s2 = executed s ++ [(t, label fn)]
  /\ processingBotActions s2 = true
  /\ timers s2 = []
  /\ (forall t', step s2 (Timeout t') = None)
  /\ exists more, botActionQueue s2 = q ++ spawns fn ++ more.
Proof.
  intros R Q Th St R'. pose proof (reachable_invariant t0 es s R) as I.
  destruct I as (done & pend & _ & _ & _ & _ & _ & TI).
  unfold timerInvariant in TI. unfold step in St.
  destruct (timers s) as [|due [|? ?]]; [discriminate| |contradiction].
  destruct TI as (P & _). destruct (_ || _); [discriminate|].
  inversion St as [E1]. clear St.
  unfold processBotQueue in E1. cbn [botActionQueue] in E1. rewrite Q in E1.
  cbn [processingBotActions timers now enqueued executed] in E1.
  rewrite spawn_while_processing in E1 by (simpl; exact P).
  rewrite Th in E1. cbn [botActionQueue timers now enqueued executed] in E1.
  assert (P1 : processingBotActions s1 = true) by (subst s1; reflexivity).
  assert (T1 : timers s1 = []) by (subst s1; reflexivity).
  destruct (stalled_forever es' s1 s2 P1 T1 R') as (X & P2 & T2).
  destruct (stalled_queue_grows es' s1 s2 P1 T1 R') as (more & G).
  rewrite X, G. subst s1. cbn [executed botActionQueue].
  repeat split; try assumption.
  - intros t'. unfold step. rewrite T2. reflexivity.
  - exists more. rewrite <- app_assoc. reflexivity.
Qed.

End SchedulerFailures.

Lemma scheduler_safe_with_any_callbacks_witness :
  (List.length (Scheduler.timers (finalState stalled)) <= 1)%nat.
Proof.
  apply (scheduler_safe_with_any_callbacks 0 stalled (finalState stalled)).
  vm_compute. reflexivity.
Defined.

Lemma queue_stalls_after_a_throw_witness :
  Scheduler.executed (finalState stalled) = [(1500%Z, 1%nat)]
  /\ Scheduler.processingBotActions (finalState stalled) = true
  /\ Scheduler.timers (finalState stalled) = [].
Proof.
  refine ((fun H => conj (proj1 H) (conj (proj1 (proj2 H))
                                         (proj1 (proj2 (proj2 H))))) _).
  apply (queue_stalls_after_a_throw 0 1500
           [Scheduler.Enqueue 0 (failing 1); Scheduler.Enqueue 0 (action 2)] []
           (finalState [Scheduler.Enqueue 0 (failing 1);
                        Scheduler.Enqueue 0 (action 2)])
           (finalState stalled) (finalState stalled)
           (failing 1) [action 2]);
    vm_compute; reflexivity.
Defined.

(* ================================================================== *)
(** * The state server *)

Section ApiProperties.

Import Api.
Local Open Scope Z_scope.

Variable takesKey : keyPart -> bool.
Variable takesValue : record -> bool.
Variable Number_parseInt : string -> option Z.

Let serve := Api.serve takesKey takesValue Number_parseInt.

Lemma key_eqb_refl (k : keyPart) : key_eqb k k = true.
Proof.
  destruct k as [s | n | b]; simpl.
  - apply String.eqb_refl.
  - apply Qeq_bool_iff. reflexivity.
  - destruct b; reflexivity.
Qed.

(** A POST to [/state] with a state and a table id that is a key part: it
    is answered with 200 and stored when the store takes key and record,
    and with 500, nothing stored, when it does not. *)
Lemma post_result (req : request) (nowIso : string) (kv : store)
  (data st : json) (k : keyPart) :
  pathname req = "/state"%string -> method req = "POST"%string ->
  requestJson req = Some data ->
  optProp "state" data = Some st ->
  keyOf (orElse (prop "tableId" data) (JStr "default")) = Some k ->
  serve req nowIso kv
  = if takesKey k
       && takesValue (nextRecord (kv k) st (prop "notifications" data) nowIso)
    then
      (jsonResponse
         (JObj [("ok", JBool true);
                ("version",
                 JNum (inject_Z
                         (version (nextRecord (kv k) st
                                     (prop "notifications" data) nowIso))));
                ("updatedAt", JStr nowIso)]%string) 200,
       kv_set k (nextRecord (kv k) st (prop "notifications" data) nowIso) kv)
    else (textResponse "Internal error" 500, kv).
Proof.
  intros Pa Me Bo St K.
  unfold serve, Api.serve, routeRequest. rewrite Pa, Me.
  cbn [String.eqb Ascii.eqb Bool.eqb negb].
  unfold handlePost. rewrite Bo, St.
  unfold saveState, getState, writeState. rewrite K.
  destruct (takesKey k); [|reflexivity]. cbn [andb].
  destruct (takesValue _); reflexivity.
Qed.

(** What a request does: it leaves the store as it is, or it is a POST to
    [/state] with a state, a key and a record the store takes, answered
    with the new version. *)
Lemma serve_cases (req : request) (nowIso : string) (kv : store) :
  snd (serve req nowIso kv) = kv
  /\ status (fst (serve req nowIso kv)) <> 200
  \/ snd (serve req nowIso kv) = kv
     /\ pathname req = "/state"%string /\ method req = "GET"%string
  \/ exists data st k,
       pathname req = "/state"%string /\ method req = "POST"%string
       /\ requestJson req = Some data
       /\ optProp "state" data = Some st
       /\ keyOf (orElse (prop "tableId" data) (JStr "default")) = Some k
       /\ takesKey k = true
       /\ takesValue (nextRecord (kv k) st (prop "notifications" data) nowIso)
          = true
       /\ serve req nowIso kv
          = (jsonResponse
               (JObj [("ok", JBool true);
                      ("version",
                       JNum (inject_Z
                               (version (nextRecord (kv k) st
                                           (prop "notifications" data) nowIso))));
                      ("updatedAt", JStr nowIso)]%string) 200,
             kv_set k (nextRecord (kv k) st (prop "notifications" data) nowIso)
                    kv).
Proof.
  destruct (String.eqb_spec (pathname req) "/state") as [Pa | Pa];
    [|left; unfold serve, Api.serve, routeRequest;
      destruct (String.eqb_spec (pathname req) "/state"); [contradiction|];
      split; [reflexivity | discriminate]].
  destruct (String.eqb_spec (method req) "POST") as [Mp | Mp].
  - destruct (requestJson req) as [data|] eqn:Bo.
    + destruct (optProp "state" data) as [st|] eqn:St.
      * destruct (keyOf (orElse (prop "tableId" data) (JStr "default")))
          as [k|] eqn:K.
        -- rewrite (post_result req nowIso kv data st k Pa Mp Bo St K).
           destruct (takesKey k) eqn:Tk; cbn [andb];
             [|left; split; [reflexivity | discriminate]].
           destruct (takesValue _) eqn:Tv;
             [|left; split; [reflexivity | discriminate]].
           right. right. exists data, st, k. repeat split; auto.
        -- left. unfold serve, Api.serve, routeRequest. rewrite Pa, Mp.
           cbn [String.eqb Ascii.eqb Bool.eqb negb].
           unfold handlePost. rewrite Bo, St.
           unfold saveState, getState. rewrite K.
           split; [reflexivity | discriminate].
      * left. unfold serve, Api.serve, routeRequest. rewrite Pa, Mp.
        cbn [String.eqb Ascii.eqb Bool.eqb negb].
        unfold handlePost. rewrite Bo, St.
        split; [reflexivity | discriminate].
    + left. unfold serve, Api.serve, routeRequest. rewrite Pa, Mp.
      cbn [String.eqb Ascii.eqb Bool.eqb negb].
      unfold handlePost. rewrite Bo.
      split; [reflexivity | discriminate].
  - unfold serve, Api.serve, routeRequest. rewrite Pa.
    cbn [String.eqb Ascii.eqb Bool.eqb negb].
    destruct (String.eqb_spec (method req) "OPTIONS") as [Mo | Mo];
      [left; split; [reflexivity | discriminate]|].
    destruct (String.eqb_spec (method req) "GET") as [Mg | Mg].
    { right. left. split; [|auto].
      destruct (handleGet _ _ _ _); reflexivity. }
    destruct (String.eqb_spec (method req) "POST") as [Mp' | _];
      [contradiction|].
    left. split; [reflexivity | discriminate].
Qed.

(** X21: every answer, the 404, 405 and 500 ones too, carries the three
    CORS headers, and an answer with a JSON body the JSON content type. *)
Theorem every_response_allows_cross_origin
  (req : request) (nowIso : string) (kv : store) :
  Forall (fun h => lookup (fst h) (headers (fst (serve req nowIso kv)))
                   = Some (snd h)) corsHeaders
  /\ forall j, content (fst (serve req nowIso kv)) = Json j ->
       lookup "Content-Type" (headers (fst (serve req nowIso kv)))
       = Some "application/json"%string.
Proof.
  assert (H : (headers (fst (serve req nowIso kv)) = withCors []
               /\ forall j, content (fst (serve req nowIso kv)) <> Json j)
              \/ headers (fst (serve req nowIso kv))
                 = withCors [("Content-Type", "application/json")]%string).
  { unfold serve, Api.serve, routeRequest.
    destruct (negb _); [left; split; [reflexivity | discriminate]|].
    destruct (String.eqb (method req) "OPTIONS");
      [left; split; [reflexivity | discriminate]|].
    destruct (String.eqb (method req) "GET").
    { unfold handleGet.
      destruct (getState takesKey _ _) as [[r|]|];
        [|left; split; [reflexivity | discriminate]
         |left; split; [reflexivity | discriminate]].
      destruct (match sinceVersionOf _ _ with Some _ => _ | None => _ end);
        [left; split; [reflexivity | discriminate] | right; reflexivity]. }
    destruct (String.eqb (method req) "POST");
      [|left; split; [reflexivity | discriminate]].
    unfold handlePost.
    destruct (requestJson req) as [data|];
      [|left; split; [reflexivity | discriminate]].
    destruct (optProp "state" data) as [st|];
      [|left; split; [reflexivity | discriminate]].
    destruct (saveState takesKey takesValue _ _ _ _ _) as [[r kv']|];
      [right; reflexivity | left; split; [reflexivity | discriminate]]. }
  destruct H as [[H N] | H]; rewrite H; split.
  - repeat constructor.
  - intros j E. exfalso. exact (N j E).
  - repeat constructor.
  - intros j _. reflexivity.
Qed.

Lemma store_changes_only_on_accepted_post_core
  (req : request) (nowIso : string) (kv : store) :
  (status (fst (serve req nowIso kv)) <> 200
   \/ method req <> "POST"%string \/ pathname req <> "/state"%string) ->
  snd (serve req nowIso kv) = kv.
Proof.
  intros H.
  destruct (serve_cases req nowIso kv)
    as [[E _] | [[E _] | (data & st & k & Pa & Me & _ & _ & _ & _ & _ & E)]];
    [exact E | exact E |].
  exfalso. rewrite E in H. cbn [fst status jsonResponse] in H.
  destruct H as [H | [H | H]]; contradiction.
Qed.

(** X22: the store changes only with a POST to [/state] that is answered
    with 200; whatever is answered otherwise (204, 400, 404, 405, 500), and
    whatever a GET or OPTIONS request asks, the store is left as it is. *)
Theorem store_changes_only_on_accepted_post
  (req : request) (nowIso : string) (kv : store) :
  (status (fst (serve req nowIso kv)) <> 200
   \/ method req <> "POST"%string \/ pathname req <> "/state"%string) ->
  snd (serve req nowIso kv) = kv.
Proof. apply store_changes_only_on_accepted_post_core. Qed.

Section AcceptedPost.

Variables (req : request) (nowIso : string) (kv : store).
Variables (data st : json) (k : keyPart).

Hypothesis to_state : pathname req = "/state"%string.
Hypothesis is_post : method req = "POST"%string.
Hypothesis parsed : requestJson req = Some data.
Hypothesis has_state : optProp "state" data = Some st.
Hypothesis key_named :
  keyOf (orElse (prop "tableId" data) (JStr "default")) = Some k.

Let before : Z := match kv k with Some r => version r | None => 0 end.
Let next : record := nextRecord (kv k) st (prop "notifications" data) nowIso.
Let res := fst (serve req nowIso kv).
Let kv' := snd (serve req nowIso kv).

(** X23: a POST with a state whose table id is a key part is answered with
    200 exactly when the store takes the key and the record; the answer
    then carries the new version, one above the version stored for the
    table, 1 for a table without a record, the record stored holds the
    posted state, the version and the time, and the records of the other
    tables are left as they are.  When the store refuses, the answer is
    500 and nothing is stored. *)
Theorem accepted_post_stores_next_version :
  (status res = 200 <-> takesKey k = true /\ takesValue next = true)
  /\ (status res = 200 ->
      content res
      = Json (JObj [("ok", JBool true);
                    ("version", JNum (inject_Z (before + 1)));
                    ("updatedAt", JStr nowIso)]%string)
      /\ (exists r, kv' k = Some r
                    /\ state r = st /\ version r = before + 1
                    /\ updatedAt r = nowIso)
      /\ forall k', key_eqb k' k = false -> kv' k' = kv k')
  /\ (status res <> 200 -> status res = 500 /\ kv' = kv).
Proof.
  unfold res, kv'.
  rewrite (post_result req nowIso kv data st k to_state is_post parsed
             has_state key_named).
  fold next.
  destruct (takesKey k); cbn [andb]; [destruct (takesValue next)|];
    cbn [fst snd status content jsonResponse textResponse].
  - split; [split; auto|]. split; [|intros N; contradiction].
    intros _. repeat split.
    + eexists. unfold kv_set. rewrite key_eqb_refl. repeat split.
    + intros k' N. unfold kv_set. rewrite N. reflexivity.
  - split; [split; [discriminate | intros [_ X]; discriminate]|].
    split; [discriminate | auto].
  - split; [split; [discriminate | intros [X _]; discriminate]|].
    split; [discriminate | auto].
Qed.

(** X24: the notifications stored by a POST that is answered with 200 are
    never [null]: they are those posted, when the POST carries some, else
    those stored for the table before, else the empty array. *)
Theorem notifications_are_kept_until_replaced :
  status res = 200 ->
  exists r, kv' k = Some r
    /\ notifications r <> JNull
    /\ (forall n, prop "notifications" data = Some n -> n <> JNull ->
          notifications r = n)
    /\ (prop "notifications" data = None
        \/ prop "notifications" data = Some JNull ->
        (forall r0, kv k = Some r0 -> notifications r0 <> JNull ->
           notifications r = notifications r0)
        /\ (kv k = None -> notifications r = JArr [])).
Proof.
  unfold res, kv'.
  rewrite (post_result req nowIso kv data st k to_state is_post parsed
             has_state key_named).
  destruct (takesKey k && takesValue _);
    cbn [fst snd status jsonResponse textResponse]; [|discriminate].
  intros _. eexists. unfold kv_set. rewrite key_eqb_refl.
  split; [reflexivity|]. cbn [notifications nextRecord].
  destruct (prop "notifications" data) as [n|]; [destruct n|];
    (destruct (kv k) as [r0|]; [destruct (notifications r0) eqn:N0|]);
    cbn [coalesce coalesceTo option_map notifications];
    try rewrite N0; cbn [coalesce coalesceTo];
    (split; [discriminate|]);
    (split; [intros n' E Nn; inversion E; subst; try reflexivity; congruence|]);
    (intros [E | E]; try discriminate);
    (split; [intros r1 E1 N1; inversion E1; subst; congruence
            | intros E1; try discriminate; reflexivity]).
Qed.

End AcceptedPost.

Section ReadAfterWrite.

Variables (post get : request) (nowIso nowIso' : string) (kv : store).
Variables (data st : json) (t : string).

Hypothesis post_to_state : pathname post = "/state"%string.
Hypothesis post_is_post : method post = "POST"%string.
Hypothesis post_parsed : requestJson post = Some data.
Hypothesis post_has_state : optProp "state" data = Some st.
Hypothesis post_table :
  orElse (prop "tableId" data) (JStr "default") = JStr t.
Hypothesis post_answered : status (fst (serve post nowIso kv)) = 200.
Hypothesis get_to_state : pathname get = "/state"%string.
Hypothesis get_is_get : method get = "GET"%string.
Hypothesis get_table :
  paramOr (lookup "tableId" (searchParams get)) "default" = t.
Hypothesis stored_from_zero :
  forall r, kv (KStr t) = Some r -> 0 <= version r.

Let posted : Z :=
  match kv (KStr t) with Some r => version r | None => 0 end + 1.
Let kv' := snd (serve post nowIso kv).
Let answer := fst (serve get nowIso' kv').
Let since := sinceVersionOf Number_parseInt
               (lookup "sinceVersion" (searchParams get)).

(** X25: after a POST for a table that was answered with 200, a GET for
    the same table is answered with 204 and no body when the
    [sinceVersion] asked for is a number not below the version just
    stored, and with the record holding the posted state otherwise: when
    [sinceVersion] is below that version, is no number, or is left out.
    The GET leaves the store as it is. *)
Theorem posted_state_is_served :
  snd (serve get nowIso' kv') = kv'
  /\ (forall n, since = Some n -> posted <= n ->
        status answer = 204 /\ content answer = Empty)
  /\ (since = None \/ (exists n, since = Some n /\ n < posted) ->
        status answer = 200
        /\ exists r, content answer = Json (recordJson r)
             /\ state r = st /\ version r = posted /\ updatedAt r = nowIso)
  /\ (lookup "sinceVersion" (searchParams get) = None -> status answer = 200).
Proof.
  assert (K : keyOf (orElse (prop "tableId" data) (JStr "default"))
              = Some (KStr t)) by (rewrite post_table; reflexivity).
  pose proof (post_result post nowIso kv data st (KStr t) post_to_state
                post_is_post post_parsed post_has_state K) as PR.
  assert (Tk : takesKey (KStr t) = true).
  { pose proof post_answered as PA. rewrite PR in PA.
    destruct (takesKey (KStr t)); [reflexivity|].
    cbn [andb fst status textResponse] in PA. discriminate. }
  assert (Tv : takesValue (nextRecord (kv (KStr t)) st
                             (prop "notifications" data) nowIso) = true).
  { pose proof post_answered as PA. rewrite PR, Tk in PA. cbn [andb] in PA.
    destruct (takesValue _); [reflexivity|].
    cbn [fst status textResponse] in PA. discriminate. }
  rewrite Tk, Tv in PR. cbn [andb] in PR.
  assert (A : answer
              = if match since with
                   | Some n => posted <=? n
                   | None => false
                   end
                then mkResponse 204 (withCors []) Empty
                else jsonResponse
                       (recordJson (nextRecord (kv (KStr t)) st
                                      (prop "notifications" data) nowIso))
                       200).
  { unfold answer, kv'. rewrite PR.
    cbn [snd]. unfold serve, Api.serve, routeRequest.
    rewrite get_to_state, get_is_get.
    cbn [String.eqb Ascii.eqb Bool.eqb negb].
    unfold handleGet. rewrite get_table. unfold getState. cbn [keyOf].
    rewrite Tk. unfold kv_set at 1. rewrite key_eqb_refl. fold since.
    cbn [version nextRecord]. fold posted.
    destruct (match since with Some n => posted <=? n | None => false end);
      reflexivity. }
  split.
  { apply store_changes_only_on_accepted_post_core. right. left.
    rewrite get_is_get. discriminate. }
  assert (P : 1 <= posted).
  { unfold posted. destruct (kv (KStr t)) as [r|] eqn:E; [|lia].
    specialize (stored_from_zero r eq_refl). lia. }
  rewrite A. split; [|split].
  - intros n E L. rewrite E. apply Z.leb_le in L. rewrite L. split; reflexivity.
  - intros [E | (n & E & L)]; rewrite E.
    + split; [reflexivity|]. eexists. split; [reflexivity|]. repeat split.
    + apply Z.leb_gt in L. rewrite L.
      split; [reflexivity|]. eexists. split; [reflexivity|]. repeat split.
  - intros E. unfold since. rewrite E. cbn [sinceVersionOf].
    destruct (Z.leb_spec posted 0) as [L | L]; [lia | reflexivity].
Qed.

End ReadAfterWrite.

Lemma nextRecord_notifications (current : option record) (st : json)
  (n : value) (nowIso : string) :
  notifications (nextRecord current st n nowIso) <> JNull.
Proof.
  cbn [notifications nextRecord].
  destruct n as [n|]; [destruct n|];
    (destruct current as [r0|]; [destruct (notifications r0) eqn:N0|]);
    cbn [coalesce coalesceTo option_map];
    try rewrite N0; cbn [coalesce coalesceTo]; discriminate.
Qed.

(** X26: in every store reached from the empty one by requests and
    expiries, the versions stored are at least 1 and the notifications
    stored are not [null]. *)
Theorem stored_versions_start_at_one (es : list event) (k : keyPart)
  (r : record) :
  run takesKey takesValue Number_parseInt empty es k = Some r ->
  1 <= version r /\ notifications r <> JNull.
Proof.
  assert (G : forall kv,
            (forall k r, kv k = Some r ->
                         1 <= version r /\ notifications r <> JNull) ->
            forall k r, run takesKey takesValue Number_parseInt kv es k
                        = Some r ->
                        1 <= version r /\ notifications r <> JNull).
  { induction es as [|e es' IH]; intros kv I; [exact I|].
    simpl. apply IH. destruct e as [req nowIso | k0]; simpl.
    - fold (serve req nowIso kv).
      destruct (serve_cases req nowIso kv)
        as [[E _] | [[E _]
                    | (data & st & k0 & _ & _ & _ & _ & _ & _ & _ & E)]];
        rewrite E; [exact I | exact I |].
      cbn [snd]. intros k1 r1. unfold kv_set.
      destruct (key_eqb k1 k0); [|apply I].
      intros X. inversion X. split; [|apply nextRecord_notifications].
      cbn [version nextRecord].
      destruct (kv k0) as [r0|] eqn:E0; [|lia].
      destruct (I k0 r0 E0). lia.
    - intros k1 r1. unfold kv_expire.
      destruct (key_eqb k1 k0); [discriminate | apply I]. }
  apply G. intros k0 r0. discriminate.
Qed.

(** X27: [saveState] reads and writes in two steps.  Two saves of a table
    that both read before either writes, with a key and records the store
    takes, give their records the same version, and the store keeps the
    second record only; one save after the other gives the second the next
    version.  Whenever two such overlapping saves both succeed, their
    versions are the same. *)
Theorem overlapping_saves_share_a_version (tableId : json) (k : keyPart)
  (state1 state2 : json) (notes1 notes2 : value) (now1 now2 : string)
  (kv : store) :
  keyOf tableId = Some k ->
  (takesKey k = true ->
   takesValue (nextRecord (kv k) state1 notes1 now1) = true ->
   takesValue (nextRecord (kv k) state2 notes2 now2) = true ->
   exists r1 r2 kv2,
     interleaved takesKey takesValue tableId state1 notes1 now1
                 state2 notes2 now2 kv
     = Some (r1, r2, kv2))
  /\ (forall r1 r2 kv2,
        interleaved takesKey takesValue tableId state1 notes1 now1
                    state2 notes2 now2 kv
        = Some (r1, r2, kv2) ->
        version r1 = version r2
        /\ kv2 k = Some r2 /\ state r1 = state1 /\ state r2 = state2)
  /\ (takesKey k = true ->
      takesValue (nextRecord (kv k) state1 notes1 now1) = true ->
      takesValue (nextRecord (Some (nextRecord (kv k) state1 notes1 now1))
                    state2 notes2 now2) = true ->
      exists r1 kv1 r2 kv2,
        saveState takesKey takesValue tableId state1 notes1 now1 kv
        = Some (r1, kv1)
        /\ saveState takesKey takesValue tableId state2 notes2 now2 kv1
           = Some (r2, kv2)
        /\ version r2 = version r1 + 1
        /\ kv2 k = Some r2 /\ state r2 = state2).
Proof.
  intros K. split; [|split].
  - intros Tk T1 T2. unfold interleaved, getState, writeState.
    rewrite K, Tk, T1, T2. cbn [andb]. do 3 eexists. reflexivity.
  - intros r1 r2 kv2. unfold interleaved, getState, writeState. rewrite K.
    destruct (takesKey k); [|discriminate]. cbn [andb].
    destruct (takesValue (nextRecord (kv k) state1 notes1 now1));
      [|discriminate].
    destruct (takesValue (nextRecord (kv k) state2 notes2 now2));
      [|discriminate].
    intros E. inversion E; subst.
    unfold kv_set. rewrite key_eqb_refl. repeat split.
  - intros Tk T1 T2.
    set (r1 := nextRecord (kv k) state1 notes1 now1) in *.
    set (r2 := nextRecord (Some r1) state2 notes2 now2) in *.
    assert (E : kv_set k r1 kv k = Some r1).
    { unfold kv_set. rewrite key_eqb_refl. reflexivity. }
    exists r1, (kv_set k r1 kv), r2, (kv_set k r2 (kv_set k r1 kv)).
    unfold saveState, getState, writeState. rewrite K, Tk. cbn [andb].
    fold r1. rewrite T1, E. fold r2. rewrite T2.
    split; [reflexivity|]. split; [reflexivity|].
    split; [reflexivity|]. split; [|reflexivity].
    unfold kv_set at 1. rewrite key_eqb_refl. reflexivity.
Qed.

End ApiProperties.

Lemma store_changes_only_on_accepted_post_witness :
  snd (sampleServe (getSince "t1" "0") "2024-05-01T10:00:00.000Z" Api.empty)
  = Api.empty.
Proof.
  apply store_changes_only_on_accepted_post. right. left. discriminate.
Defined.

(** A first POST for the table [t1] is answered with 200; with a table id
    of 2040 characters it is answered with 500. *)
Lemma accepted_post_stores_next_version_witness :
  Api.status
    (fst (sampleServe (postState "t1" (pot 50)) "2024-05-01T10:00:00.000Z"
            Api.empty)) = 200%Z
  /\ Api.status
       (fst (sampleServe (postState longTableId (pot 50))
               "2024-05-01T10:00:00.000Z" Api.empty)) = 500%Z.
Proof.
  split.
  - apply (proj1 (accepted_post_stores_next_version sampleTakesKey
                    sampleTakesValue sampleParseInt
                    (postState "t1" (pot 50)) "2024-05-01T10:00:00.000Z"
                    Api.empty
                    (Api.JObj [("tableId", Api.JStr "t1");
                               ("state", pot 50)]%string)
                    (pot 50) (Api.KStr "t1")
                    eq_refl eq_refl eq_refl eq_refl eq_refl)).
    split; vm_compute; reflexivity.
  - apply (proj2 (proj2 (accepted_post_stores_next_version sampleTakesKey
                           sampleTakesValue sampleParseInt
                           (postState longTableId (pot 50))
                           "2024-05-01T10:00:00.000Z" Api.empty
                           (Api.JObj [("tableId", Api.JStr longTableId);
                                      ("state", pot 50)]%string)
                           (pot 50) (Api.KStr longTableId)
                           eq_refl eq_refl eq_refl eq_refl eq_refl))).
    vm_compute. discriminate.
Defined.

Lemma notifications_are_kept_until_replaced_witness :
  exists r,
    snd (sampleServe (postState "t1" (pot 50)) "2024-05-01T10:00:00.000Z"
           Api.empty) (Api.KStr "t1") = Some r
    /\ Api.notifications r <> Api.JNull.
Proof.
  destruct (notifications_are_kept_until_replaced sampleTakesKey
              sampleTakesValue sampleParseInt
              (postState "t1" (pot 50)) "2024-05-01T10:00:00.000Z" Api.empty
              (Api.JObj [("tableId", Api.JStr "t1");
                         ("state", pot 50)]%string)
              (pot 50) (Api.KStr "t1")
              eq_refl eq_refl eq_refl eq_refl eq_refl
              ltac:(vm_compute; reflexivity)) as (r & E & N & _).
  exists r. split; [exact E | exact N].
Defined.

Lemma posted_state_is_served_witness :
  Api.status
    (fst (sampleServe (getSince "t1" "0") "2024-05-01T10:00:02.500Z"
            (snd (sampleServe (postState "t1" (pot 50))
                    "2024-05-01T10:00:00.000Z" Api.empty)))) = 200%Z.
Proof.
  assert (Z0 : forall r, Api.empty (Api.KStr "t1") = Some r ->
                         (0 <= Api.version r)%Z)
    by (intros r E; discriminate).
  destruct (posted_state_is_served sampleTakesKey sampleTakesValue
              sampleParseInt
              (postState "t1" (pot 50)) (getSince "t1" "0")
              "2024-05-01T10:00:00.000Z" "2024-05-01T10:00:02.500Z" Api.empty
              (Api.JObj [("tableId", Api.JStr "t1"); ("state", pot 50)]%string)
              (pot 50) "t1"
              eq_refl eq_refl eq_refl eq_refl eq_refl
              ltac:(vm_compute; reflexivity) eq_refl eq_refl eq_refl
              Z0) as (_ & _ & H & _).
  destruct H as [H _]; [|exact H].
  right. exists 0%Z. split; reflexivity.
Defined.

Lemma stored_versions_start_at_one_witness :
  exists r,
    Api.run sampleTakesKey sampleTakesValue sampleParseInt Api.empty
      [Api.Served (postState "t1" (pot 50)) "2024-05-01T10:00:00.000Z";
       Api.Expired (Api.KStr "t2");
       Api.Served (postNotified "t1" (pot 80) Api.JNull)
         "2024-05-01T10:00:05.000Z"] (Api.KStr "t1") = Some r
    /\ (1 <= Api.version r)%Z.
Proof.
  eexists. split; [vm_compute; reflexivity|].
  apply (stored_versions_start_at_one sampleTakesKey sampleTakesValue
           sampleParseInt
           [Api.Served (postState "t1" (pot 50)) "2024-05-01T10:00:00.000Z";
            Api.Expired (Api.KStr "t2");
            Api.Served (postNotified "t1" (pot 80) Api.JNull)
              "2024-05-01T10:00:05.000Z"] (Api.KStr "t1")).
  vm_compute. reflexivity.
Defined.

Lemma overlapping_saves_share_a_version_witness :
  exists r1 r2 kv2,
    Api.interleaved sampleTakesKey sampleTakesValue (Api.JStr "t1")
      (pot 50) None "2024-05-01T10:00:00.000Z"
      (pot 80) None "2024-05-01T10:00:00.001Z" Api.empty = Some (r1, r2, kv2)
    /\ Api.version r1 = Api.version r2.
Proof.
  destruct (overlapping_saves_share_a_version sampleTakesKey sampleTakesValue
              (Api.JStr "t1") (Api.KStr "t1")
              (pot 50) (pot 80) None None "2024-05-01T10:00:00.000Z"
              "2024-05-01T10:00:00.001Z" Api.empty eq_refl)
    as (Ex & Same & _).
  destruct Ex as (r1 & r2 & kv2 & E);
    [vm_compute; reflexivity | vm_compute; reflexivity
     | vm_compute; reflexivity |].
  exists r1, r2, kv2. split; [exact E | apply (Same r1 r2 kv2 E)].
Defined.

(* ================================================================== *)
(** * The single-seat view *)

Section ViewProperties.

Import View.

Variable page : Type.
Variable applyRemoteState : Api.json -> page -> page * bool.

Let state := View.state page.
Let step := View.step page applyRemoteState.
Let run := View.run page applyRemoteState.
Let invariant := View.invariant page.

Lemma init_polling (isVisible : bool) (d : page) :
  invariant (View.init page isVisible d).
Proof.
  destruct isVisible; unfold invariant, View.invariant, View.init, pollState;
    simpl; repeat split; auto; try discriminate.
  intros _. exists []. reflexivity.
Qed.

Lemma settle_shape (o : outcome) (s : state) :
  let s' := settle page applyRemoteState o s in
  isPolling page s' = false
  /\ visible page s' = visible page s
  /\ inFlight page s' = inFlight page s
  /\ fetched page s' = fetched page s
  /\ timers page s'
     = (if visible page s then timers page s ++ [nextTimer page s]
        else timers page s)
  /\ pollTimeoutId page s'
     = (if visible page s then Some (nextTimer page s) else None).
Proof.
  destruct s as [lv pid pol vis tim nxt fl fe onl d].
  destruct o as [| | [[]|] |]; destruct vis; simpl; repeat split.
Qed.

Lemma step_polling (s s' : state) (e : event) :
  invariant s -> step s e = Some s' -> invariant s'.
Proof.
  intros (F & L & T & V). destruct e as [v | id | o]; simpl.
  - intros E. inversion E. clear E.
    unfold invariant, View.invariant, handleVisibilityChange, pollState.
    destruct s as [lv pid pol vis tim nxt fl fe onl d]. simpl in *.
    assert (C : match pid with
                | Some id => clearTimeout id tim
                | None => tim
                end = [] \/ (pid = None /\ tim = [])).
    { destruct tim as [|x [|y tim]]; [| |contradiction].
      - destruct pid; [left; reflexivity | right; auto].
      - destruct T as (P & _). subst pid. left. simpl.
        rewrite Nat.eqb_refl. reflexivity. }
    destruct pid as [id|]; simpl.
    + destruct C as [C | [C _]]; [|discriminate]. rewrite C.
      destruct v; simpl.
      * destruct pol; simpl; repeat split; auto; intros _.
        exists fe. reflexivity.
      * repeat split; auto. discriminate.
    + destruct C as [C | [_ C]]; rewrite C.
      * destruct v; simpl.
        -- destruct pol; simpl; repeat split; auto; intros _.
           exists fe. reflexivity.
        -- repeat split; auto. discriminate.
      * destruct v; simpl.
        -- destruct pol; simpl; repeat split; auto; intros _.
           exists fe. reflexivity.
        -- repeat split; auto. discriminate.
  - destruct (existsb (Nat.eqb id) (timers page s)) eqn:X; [|discriminate].
    intros E. inversion E. clear E.
    unfold invariant, View.invariant, pollState.
    destruct s as [lv pid pol vis tim nxt fl fe onl d]. simpl in *.
    destruct tim as [|x [|y tim]]; [discriminate| |contradiction].
    destruct T as (P & Po & Vi). subst pol vis. simpl in X.
    rewrite orb_false_r in X. apply Nat.eqb_eq in X. subst x. simpl.
    rewrite Nat.eqb_refl. simpl.
    repeat split; auto; try (rewrite F; reflexivity);
      try (intros _; exists fe; reflexivity).
  - destruct (inFlight page s) as [|n] eqn:N; [discriminate|].
    intros E. inversion E as [E']. clear E E'.
    assert (Po : isPolling page s = true).
    { destruct (isPolling page s); [reflexivity | discriminate]. }
    rewrite Po in F. assert (n = 0%nat) by lia. subst n.
    assert (Ti : timers page s = []).
    { destruct (timers page s) as [|x [|y tim]]; [reflexivity| |contradiction].
      destruct T as (_ & X & _). congruence. }
    match goal with
    | |- invariant (settle _ _ o ?s0) =>
        destruct (settle_shape o s0) as (S1 & S2 & S3 & S4 & S5 & S6)
    end.
    cbv zeta in *. cbn [visible timers inFlight nextTimer fetched] in *.
    unfold invariant, View.invariant. rewrite S1, S2, S3, S5, S6, Ti.
    destruct (visible page s); simpl; repeat split; auto; try discriminate.
    intros _. right. discriminate.
Qed.

Lemma run_polling (es : list event) (s s' : state) :
  invariant s -> run s es = Some s' -> invariant s'.
Proof.
  revert s. induction es as [|e es IH]; intros s I; simpl.
  - intros E. inversion E. subst. exact I.
  - destruct (View.step page applyRemoteState s e) as [s1|] eqn:St;
      [|discriminate].
    apply IH. apply (step_polling s s1 e I St).
Qed.

(** X28: however visibility changes, timers fire and requests end, at
    most one request is under way, exactly while [isPolling] is set, and it
    carries the current [lastVersion]; at most one timer is pending, and
    only on a visible page with no request under way. *)
Theorem one_request_or_one_timer (isVisible : bool) (d : page)
  (es : list event) (s : state) :
  run (View.init page isVisible d) es = Some s ->
  (inFlight page s <= 1)%nat
  /\ (isPolling page s = true <-> inFlight page s = 1%nat)
  /\ (inFlight page s = 1%nat ->
      exists l, fetched page s = l ++ [lastVersion page s])
  /\ (List.length (timers page s) <= 1)%nat
  /\ (forall id, In id (timers page s) ->
        timers page s = [id] /\ pollTimeoutId page s = Some id
        /\ inFlight page s = 0%nat /\ visible page s = true).
Proof.
  intros R.
  destruct (run_polling es _ s (init_polling isVisible d) R) as (F & L & T & V).
  assert (P : isPolling page s = true <-> inFlight page s = 1%nat).
  { rewrite F. destruct (isPolling page s); split; auto; discriminate. }
  split; [rewrite F; destruct (isPolling page s); lia|].
  split; [exact P|]. split; [intros X; apply L, P, X|].
  destruct (timers page s) as [|x [|y tim]]; [| |contradiction].
  - split; [simpl; lia | intros id []].
  - destruct T as (Pi & Po & Vi). split; [simpl; lia|].
    intros id [<- | []]. rewrite F, Po. auto.
Qed.

(** X29: on a visible page polling never stops: a request is under way or
    a timer is pending, and the timer, when it fires, starts the next
    request; on a hidden page no timer is pending, and a request that
    ends there sets none. *)
Theorem polling_goes_on_while_visible (isVisible : bool) (d : page)
  (es : list event) (s : state) :
  run (View.init page isVisible d) es = Some s ->
  (visible page s = true ->
     inFlight page s = 1%nat
     \/ exists id, timers page s = [id]
          /\ exists s', step s (TimerFires id) = Some s'
               /\ inFlight page s' = 1%nat /\ timers page s' = [])
  /\ (visible page s = false ->
      timers page s = []
      /\ forall o s', step s (Settles o) = Some s' ->
           timers page s' = [] /\ inFlight page s' = 0%nat).
Proof.
  intros R.
  pose proof (run_polling es _ s (init_polling isVisible d) R) as I.
  split.
  - intros Vi. destruct I as (F & L & T & V).
    destruct (V Vi) as [Po | Ti]; [left; rewrite F, Po; reflexivity|].
    right. destruct (timers page s) as [|x [|y tim]] eqn:E;
      [congruence| |contradiction].
    exists x. split; [reflexivity|].
    destruct T as (Pi & Po & _).
    unfold step, View.step. rewrite E. simpl. rewrite Nat.eqb_refl. simpl.
    eexists. split; [reflexivity|].
    unfold pollState. simpl. rewrite Po, Vi. simpl.
    rewrite F, Po. auto.
  - intros Vi.
    assert (Ti : timers page s = []).
    { destruct I as (_ & _ & T & _).
      destruct (timers page s) as [|x [|y tim]]; [reflexivity| |contradiction].
      destruct T as (_ & _ & X). congruence. }
    split; [exact Ti|]. intros o s' St.
    unfold step, View.step in St.
    destruct (inFlight page s) as [|n] eqn:N; [discriminate|].
    destruct I as (F & _).
    assert (Po : isPolling page s = true).
    { destruct (isPolling page s); [reflexivity | congruence]. }
    rewrite Po in F. assert (n = 0%nat) by lia. subst n.
    inversion St as [E]. clear St.
    match goal with
    | |- context [settle _ _ o ?s0] =>
        destruct (settle_shape o s0) as (S1 & S2 & S3 & S4 & S5 & S6)
    end.
    cbv zeta in *. cbn [visible timers inFlight nextTimer fetched] in *.
    rewrite S3, S5, Vi, Ti. auto.
Qed.

End ViewProperties.

(** ** The view polling the server *)

Section ViewAndServer.

Import View.

Variable page : Type.
Variable applyRemoteState : Api.json -> page -> page * bool.
Variable show : Api.value -> string.
Variable takesKey : Api.keyPart -> bool.
Variable takesValue : Api.record -> bool.
Variable Number_parseInt : string -> option Z.
Variables (tableId nowIso : string) (kv : Api.store).

Let state := View.state page.
Let table := Api.KStr (Api.paramOr (Some tableId) "default").
Let since (s : state) :=
  Api.sinceVersionOf Number_parseInt (Some (show (lastVersion page s))).
Let exchange :=
  View.exchange page applyRemoteState show takesKey takesValue
                Number_parseInt tableId nowIso kv.

Local Open Scope Z_scope.

Lemma poll_answer (sent : Api.value) :
  fst (Api.serve takesKey takesValue Number_parseInt
         (pollRequest show tableId sent) nowIso kv)
  = if takesKey table then
      match kv table with
      | None => Api.textResponse "Not found" 404
      | Some r =>
          if match Api.sinceVersionOf Number_parseInt (Some (show sent)) with
             | Some n => Api.version r <=? n
             | None => false
             end
          then Api.mkResponse 204 (Api.withCors []) Api.Empty
          else Api.jsonResponse (Api.recordJson r) 200
      end
    else Api.textResponse "Internal error" 500.
Proof.
  unfold Api.serve, Api.routeRequest, pollRequest, Api.handleGet, Api.getState.
  cbn [Api.pathname Api.method Api.searchParams Api.lookup String.eqb
       Ascii.eqb Bool.eqb negb Api.keyOf andb].
  fold table.
  destruct (takesKey table); [|reflexivity].
  destruct (kv table) as [r|]; [|reflexivity].
  destruct (match Api.sinceVersionOf _ _ with Some _ => _ | None => _ end);
    reflexivity.
Qed.

Lemma exchange_cases (s : state) :
  isPolling page s = false -> visible page s = true ->
  (forall r n, takesKey table = true -> kv table = Some r ->
     since s = Some n -> Api.version r <= n ->
     lastVersion page (exchange s) = lastVersion page s
     /\ dom page (exchange s) = dom page s
     /\ online page (exchange s) = Some true)
  /\ (forall r, takesKey table = true -> kv table = Some r ->
        since s = None \/ (exists n, since s = Some n /\ n < Api.version r) ->
        lastVersion page (exchange s)
        = Some (Api.JNum (inject_Z (Api.version r)))
        /\ dom page (exchange s)
           = fst (applyRemoteState (Api.recordJson r) (dom page s))
        /\ online page (exchange s)
           = Some (negb (snd (applyRemoteState (Api.recordJson r)
                                (dom page s)))))
  /\ (kv table = None \/ takesKey table = false ->
        lastVersion page (exchange s) = lastVersion page s
        /\ dom page (exchange s) = dom page s
        /\ online page (exchange s) = Some false)
  /\ isPolling page (exchange s) = false
  /\ visible page (exchange s) = true
  /\ timers page (exchange s) = timers page s ++ [nextTimer page s].
Proof.
  intros Po Vi. unfold exchange, View.exchange. rewrite poll_answer.
  fold (since s).
  destruct s as [lv pid pol vis tim nxt fl fe onl d]. simpl in Po, Vi.
  subst pol vis. unfold pollState. cbn [isPolling visible negb orb].
  cbn [lastVersion pollTimeoutId isPolling visible timers nextTimer inFlight
       fetched online dom Nat.pred].
  set (sn := since _).
  split; [|split; [|split]].
  - intros r n Tk K E L. rewrite Tk, K, E. apply Z.leb_le in L. rewrite L.
    repeat split.
  - intros r Tk K [E | (n & E & L)]; rewrite Tk, K, E.
    + repeat split.
    + apply Z.leb_gt in L. rewrite L. repeat split.
  - intros [K | Tk].
    + rewrite K. destruct (takesKey table); repeat split.
    + rewrite Tk. repeat split.
  - destruct (takesKey table); [|repeat split].
    destruct (kv table) as [r|]; [|repeat split].
    destruct (match sn with Some _ => _ | None => _ end); repeat split.
Qed.

(** X30: one poll of a visible page against the store.  When the table has
    a record whose version is above the [sinceVersion] the server reads
    from the request, or the server reads no number, the poll sets
    [lastVersion] to the stored version and applies the record to the page;
    when the version is not above it (204), the table has no record (404)
    or the store refuses its key (500), [lastVersion] and the page stay as
    they are.  So a second poll against the same store changes neither,
    provided the server reads the version back from its text.  Each poll
    ends with the next timer set. *)
Theorem poll_brings_the_stored_version (s : state) :
  isPolling page s = false -> visible page s = true ->
  (forall r n, takesKey table = true -> kv table = Some r ->
     since s = Some n -> Api.version r <= n ->
     lastVersion page (exchange s) = lastVersion page s
     /\ dom page (exchange s) = dom page s
     /\ online page (exchange s) = Some true)
  /\ (forall r, takesKey table = true -> kv table = Some r ->
        since s = None \/ (exists n, since s = Some n /\ n < Api.version r) ->
        lastVersion page (exchange s)
        = Some (Api.JNum (inject_Z (Api.version r)))
        /\ dom page (exchange s)
           = fst (applyRemoteState (Api.recordJson r) (dom page s))
        /\ online page (exchange s)
           = Some (negb (snd (applyRemoteState (Api.recordJson r)
                                (dom page s))))
        /\ (Api.sinceVersionOf Number_parseInt
              (Some (show (Some (Api.JNum (inject_Z (Api.version r))))))
            = Some (Api.version r) ->
            lastVersion page (exchange (exchange s))
            = lastVersion page (exchange s)
            /\ dom page (exchange (exchange s)) = dom page (exchange s)))
  /\ (kv table = None \/ takesKey table = false ->
        lastVersion page (exchange s) = lastVersion page s
        /\ dom page (exchange s) = dom page s
        /\ online page (exchange s) = Some false)
  /\ isPolling page (exchange s) = false
  /\ timers page (exchange s) = timers page s ++ [nextTimer page s].
Proof.
  intros Po Vi.
  destruct (exchange_cases s Po Vi) as (A & B & C & Po' & Vi' & T).
  split; [exact A|]. split; [|auto].
  intros r Tk K N. destruct (B r Tk K N) as (L & D & O).
  repeat (split; [assumption|]).
  intros RT.
  destruct (exchange_cases (exchange s) Po' Vi') as (A' & _).
  destruct (A' r (Api.version r) Tk K) as (L' & D' & _); [|lia|auto].
  unfold since. rewrite L. exact RT.
Qed.

End ViewAndServer.

Lemma one_request_or_one_timer_witness :
  (View.inFlight nat (match View.run nat countApplied
                              (View.init nat true 0%nat) session with
                      | Some s => s
                      | None => View.init nat true 0%nat
                      end) <= 1)%nat.
Proof.
  apply (one_request_or_one_timer nat countApplied true 0%nat session).
  vm_compute. reflexivity.
Defined.

Lemma polling_goes_on_while_visible_witness :
  View.inFlight nat (match View.run nat countApplied
                             (View.init nat true 0%nat) session with
                     | Some s => s
                     | None => View.init nat true 0%nat
                     end) = 1%nat.
Proof.
  destruct (polling_goes_on_while_visible nat countApplied true 0%nat session
              (match View.run nat countApplied
                       (View.init nat true 0%nat) session with
               | Some s => s
               | None => View.init nat true 0%nat
               end) ltac:(vm_compute; reflexivity)) as [V _].
  destruct (V ltac:(vm_compute; reflexivity)) as [F | (id & T & _)];
    [exact F | vm_compute in T; discriminate].
Defined.

Lemma poll_brings_the_stored_version_witness :
  View.lastVersion nat
    (View.exchange nat countApplied sampleShow sampleTakesKey sampleTakesValue
       sampleParseInt "t1" "2024-05-01T10:00:02.500Z" storeWithT1
       (View.mkState nat (Some (Api.JNum 0)) None false true [] 0 0 [] None
          0%nat))
  = Some (Api.JNum 1).
Proof.
  destruct (poll_brings_the_stored_version nat countApplied sampleShow
              sampleTakesKey sampleTakesValue sampleParseInt "t1"
              "2024-05-01T10:00:02.500Z" storeWithT1
              (View.mkState nat (Some (Api.JNum 0)) None false true [] 0 0 []
                 None 0%nat) eq_refl eq_refl) as (_ & B & _).
  destruct (B (Api.mkRecord (pot 50) (Api.JArr [])
                 "2024-05-01T10:00:00.000Z" 1) eq_refl eq_refl) as (L & _).
  - right. exists 0%Z. split; reflexivity.
  - exact L.
Defined.
